(** * kiwix-downloader: a shallow embedding of [kiwix-downloader.py]

    The development follows the source file top to bottom: the constants,
    [get_filename_from_url], the progress ledger ([load_progress],
    [save_progress]), the resumable transfer ([download_file]) and the
    orchestrator ([main]).  Python values are modelled as follows.

    - [str] is [string]; a URL is the text of its UTF-8 encoding, so that
      [url.encode()] is the identity on the model.
    - the progress [dict] is a [gmap string string] (URL to status text);
    - a call that may raise returns a [result]: [Return v] or [Raise e];
    - the file system, the network and the clock are an explicit [world]
      threaded through the code, with the network and the failures of the
      local disk given by an [env] of oracles. *)

From Stdlib Require Import ZArith String Ascii List Lia.
From stdpp Require Import gmap strings list pretty.

#[local] Set Warnings "-register-all".

Local Open Scope string_scope.
Local Open Scope Z_scope.

(** ** Python results and exceptions *)

(** The exception classes that the source can meet.  [RequestException]
    stands for the whole [requests.RequestException] hierarchy (connection
    errors, timeouts, [HTTPError] from [raise_for_status], errors while the
    body is streamed); the others are subclasses of [Exception] that are not
    request exceptions. *)
Inductive exn : Type :=
  | RequestException (msg : string)
  | OSError (msg : string)
  | ValueError (msg : string)
  | JSONDecodeError (msg : string).

(** [str(e)] *)
Definition exn_str (e : exn) : string :=
  match e with
  | RequestException m | OSError m | ValueError m | JSONDecodeError m => m
  end.

(** [isinstance(e, requests.RequestException)] *)
Definition is_request_exception (e : exn) : bool :=
  match e with RequestException _ => true | _ => false end.

Inductive result (A : Type) : Type :=
  | Return (a : A)
  | Raise (e : exn).
Arguments Return {A} a.
Arguments Raise {A} e.

Definition result_bind {A B} (r : result A) (k : A -> result B) : result B :=
  match r with
  | Return a => k a
  | Raise e => Raise e
  end.

(** ** Constants *)

Definition MAX_WORKERS : nat := 5.
Definition RETRY_COUNT : nat := 3.
Definition CHUNK_SIZE : Z := 8192.

(** ** Python string operations used by the source and by [urllib.parse] *)

Definition ascii_code (c : ascii) : Z := Z.of_N (N_of_ascii c).

(** [s.find(c)], [-1] when [c] does not occur. *)
Fixpoint str_find (c : ascii) (s : string) : Z :=
  match s with
  | EmptyString => -1
  | String d rest =>
      if Ascii.eqb c d then 0
      else let i := str_find c rest in if i <? 0 then -1 else i + 1
  end.

(** [s.rfind(c)], [-1] when [c] does not occur. *)
Fixpoint str_rfind (c : ascii) (s : string) : Z :=
  match s with
  | EmptyString => -1
  | String d rest =>
      let i := str_rfind c rest in
      if 0 <=? i then i + 1
      else if Ascii.eqb c d then 0 else -1
  end.

(** [c in s] *)
Definition str_contains (c : ascii) (s : string) : bool := 0 <=? str_find c s.

Fixpoint str_drop (n : nat) (s : string) : string :=
  match n, s with
  | O, _ => s
  | S n', String _ rest => str_drop n' rest
  | S _, EmptyString => EmptyString
  end.

Fixpoint str_take (n : nat) (s : string) : string :=
  match n, s with
  | S n', String c rest => String c (str_take n' rest)
  | _, _ => EmptyString
  end.

(** [s[i:]] and [s[:i]] for an index [i >= 0]. *)
Definition slice_from (i : Z) (s : string) : string := str_drop (Z.to_nat i) s.
Definition slice_to (i : Z) (s : string) : string := str_take (Z.to_nat i) s.

Fixpoint str_filter (p : ascii -> bool) (s : string) : string :=
  match s with
  | EmptyString => EmptyString
  | String c rest => if p c then String c (str_filter p rest) else str_filter p rest
  end.

Fixpoint str_forallb (p : ascii -> bool) (s : string) : bool :=
  match s with
  | EmptyString => true
  | String c rest => p c && str_forallb p rest
  end.

Fixpoint str_map (f : ascii -> ascii) (s : string) : string :=
  match s with
  | EmptyString => EmptyString
  | String c rest => String (f c) (str_map f rest)
  end.

(** [s.lstrip(chars)] for a set of characters given as a predicate. *)
Fixpoint str_lstrip (p : ascii -> bool) (s : string) : string :=
  match s with
  | EmptyString => EmptyString
  | String c rest => if p c then str_lstrip p rest else s
  end.

Definition str_nonempty (s : string) : bool :=
  match s with EmptyString => false | String _ _ => true end.

Definition is_upper (c : ascii) : bool := (65 <=? ascii_code c) && (ascii_code c <=? 90).
Definition is_lower (c : ascii) : bool := (97 <=? ascii_code c) && (ascii_code c <=? 122).
Definition is_digit (c : ascii) : bool := (48 <=? ascii_code c) && (ascii_code c <=? 57).

(** [c.isascii() and c.isalpha()] *)
Definition is_ascii_alpha (c : ascii) : bool := is_upper c || is_lower c.

Definition to_lower (c : ascii) : ascii :=
  if is_upper c then ascii_of_N (Z.to_N (ascii_code c + 32)) else c.

(** ** [urllib.parse.urlparse], as far as the path component goes

    The model follows [urlsplit] and [urlparse] of CPython 3.11 statement by
    statement.  Two checks of the library on the host are left out: the
    validation of the text between brackets ([_check_bracketed_netloc]) and
    the NFKC check of a non-ASCII host ([_checknetloc]); a URL is parsed as
    if both pass.  Where one of them rejects the host the library raises a
    [ValueError], as it does for unbalanced brackets. *)

(** [scheme_chars] *)
Definition is_scheme_char (c : ascii) : bool :=
  is_ascii_alpha c || is_digit c
  || Ascii.eqb c "+" || Ascii.eqb c "-" || Ascii.eqb c ".".

(** [_WHATWG_C0_CONTROL_OR_SPACE] *)
Definition is_c0_control_or_space (c : ascii) : bool := ascii_code c <=? 32.

(** [_UNSAFE_URL_BYTES_TO_REMOVE]: tab, carriage return, line feed. *)
Definition is_unsafe_url_byte (c : ascii) : bool :=
  (ascii_code c =? 9) || (ascii_code c =? 13) || (ascii_code c =? 10).

Definition uses_params : list string :=
  [""; "ftp"; "hdl"; "prospero"; "http"; "imap"; "https"; "shttp"; "rtsp";
   "rtspu"; "sip"; "sips"; "mms"; "sftp"; "tel"]%string.

Record SplitResult : Type := mkSplit {
  sr_scheme : string;
  sr_netloc : string;
  sr_path : string;
  sr_query : string;
  sr_fragment : string
}.

(** The position of the earliest of [/], [?], [#] in [url], or its length. *)
Definition netloc_delim (url : string) : Z :=
  fold_left
    (fun delim c => let w := str_find c url in if 0 <=? w then Z.min delim w else delim)
    ["/"; "?"; "#"]%char (Z.of_nat (String.length url)).

(** [_splitnetloc(url, 2)] for a [url] that starts with [//]: the text after
    the two slashes is searched, so positions are relative to it. *)
Definition _splitnetloc (url : string) : string * string :=
  let body := slice_from 2 url in
  let delim := netloc_delim body in
  (slice_to delim body, slice_from delim body).

(** [url.split(c, 1)] when [c] occurs in [url]. *)
Definition split_once (c : ascii) (url : string) : string * string :=
  let i := str_find c url in
  if 0 <=? i then (slice_to i url, slice_from (i + 1) url) else (url, "").

Definition urlsplit (url0 : string) : result SplitResult :=
  let url := str_lstrip is_c0_control_or_space url0 in
  let url := str_filter (fun c => negb (is_unsafe_url_byte c)) url in
  let i := str_find ":" url in
  let '(scheme, url) :=
    if (0 <? i)
       && match url with String c _ => is_ascii_alpha c | EmptyString => false end
       && str_forallb is_scheme_char (slice_to i url)
    then (str_map to_lower (slice_to i url), slice_from (i + 1) url)
    else ("", url) in
  let split_netloc :=
    if String.eqb (slice_to 2 url) "//" then
      let '(netloc, rest) := _splitnetloc url in
      if (str_contains "[" netloc && negb (str_contains "]" netloc))
         || (str_contains "]" netloc && negb (str_contains "[" netloc))
      then Raise (ValueError "Invalid IPv6 URL")
      else Return (netloc, rest)
    else Return ("", url) in
  result_bind split_netloc (fun '(netloc, url) =>
  let '(url, fragment) := split_once "#" url in
  let '(url, query) := split_once "?" url in
  Return (mkSplit scheme netloc url query fragment)).

(** [_splitparams(url)]: the path without its parameters. *)
Definition _splitparams (url : string) : string * string :=
  if str_contains "/" url then
    let start := str_rfind "/" url in
    let j := str_find ";" (slice_from start url) in
    if j <? 0 then (url, "")
    else (slice_to (start + j) url, slice_from (start + j + 1) url)
  else
    let i := str_find ";" url in
    (slice_to i url, slice_from (i + 1) url).

(** [urlparse(url).path] *)
Definition urlparse_path (url : string) : result string :=
  result_bind (urlsplit url) (fun sr =>
  if bool_decide (sr_scheme sr ∈ uses_params) && str_contains ";" (sr_path sr)
  then Return (fst (_splitparams (sr_path sr)))
  else Return (sr_path sr)).

(** [os.path.basename] (posixpath) *)
Definition basename (p : string) : string :=
  let i := str_rfind "/" p + 1 in
  slice_from i p.

(** [a.endswith('/')] *)
Fixpoint str_endswith_slash (a : string) : bool :=
  match a with
  | EmptyString => false
  | String c EmptyString => Ascii.eqb c "/"
  | String _ rest => str_endswith_slash rest
  end.

(** [b.startswith('/')] *)
Definition str_startswith_slash (b : string) : bool :=
  match b with
  | String c _ => Ascii.eqb c "/"
  | EmptyString => false
  end.

(** [os.path.join(a, b)] (posixpath) *)
Definition path_join (a b : string) : string :=
  if str_startswith_slash b then b
  else if negb (str_nonempty a) || str_endswith_slash a then a +:+ b
  else a +:+ "/" +:+ b.

(** ** [hashlib.md5] (RFC 1321) on 32-bit words as [Z] *)

Module MD5.

Definition w32 (x : Z) : Z := x mod 2 ^ 32.

Definition rotl (x n : Z) : Z :=
  w32 (Z.lor (Z.shiftl x n) (Z.shiftr x (32 - n))).

Definition lnot32 (x : Z) : Z := Z.lxor x 0xFFFFFFFF.

Definition K : list Z :=
  [0xd76aa478; 0xe8c7b756; 0x242070db; 0xc1bdceee; 0xf57c0faf; 0x4787c62a;
   0xa8304613; 0xfd469501; 0x698098d8; 0x8b44f7af; 0xffff5bb1; 0x895cd7be;
   0x6b901122; 0xfd987193; 0xa679438e; 0x49b40821; 0xf61e2562; 0xc040b340;
   0x265e5a51; 0xe9b6c7aa; 0xd62f105d; 0x02441453; 0xd8a1e681; 0xe7d3fbc8;
   0x21e1cde6; 0xc33707d6; 0xf4d50d87; 0x455a14ed; 0xa9e3e905; 0xfcefa3f8;
   0x676f02d9; 0x8d2a4c8a; 0xfffa3942; 0x8771f681; 0x6d9d6122; 0xfde5380c;
   0xa4beea44; 0x4bdecfa9; 0xf6bb4b60; 0xbebfbc70; 0x289b7ec6; 0xeaa127fa;
   0xd4ef3085; 0x04881d05; 0xd9d4d039; 0xe6db99e5; 0x1fa27cf8; 0xc4ac5665;
   0xf4292244; 0x432aff97; 0xab9423a7; 0xfc93a039; 0x655b59c3; 0x8f0ccc92;
   0xffeff47d; 0x85845dd1; 0x6fa87e4f; 0xfe2ce6e0; 0xa3014314; 0x4e0811a1;
   0xf7537e82; 0xbd3af235; 0x2ad7d2bb; 0xeb86d391].

Definition S : list Z :=
  [7; 12; 17; 22; 7; 12; 17; 22; 7; 12; 17; 22; 7; 12; 17; 22;
   5; 9; 14; 20; 5; 9; 14; 20; 5; 9; 14; 20; 5; 9; 14; 20;
   4; 11; 16; 23; 4; 11; 16; 23; 4; 11; 16; 23; 4; 11; 16; 23;
   6; 10; 15; 21; 6; 10; 15; 21; 6; 10; 15; 21; 6; 10; 15; 21].

Record state : Type := mkState { sa : Z; sb : Z; sc : Z; sd : Z }.

Definition init : state :=
  mkState 0x67452301 0xefcdab89 0x98badcfe 0x10325476.

(** One of the 64 operations of a block; [m] holds its 16 words. *)
Definition round (m : list Z) (st : state) (i : nat) : state :=
  let '(mkState a b c d) := st in
  let '(f, g) :=
    if (i <? 16)%nat then (Z.lor (Z.land b c) (Z.land (lnot32 b) d), i)
    else if (i <? 32)%nat then
      (Z.lor (Z.land d b) (Z.land (lnot32 d) c), ((5 * i + 1) mod 16)%nat)
    else if (i <? 48)%nat then (Z.lxor (Z.lxor b c) d, ((3 * i + 5) mod 16)%nat)
    else (Z.lxor c (Z.lor b (lnot32 d)), ((7 * i) mod 16)%nat) in
  let f := w32 (f + a + nth i K 0 + nth g m 0) in
  mkState d (w32 (b + rotl f (nth i S 0))) b c.

Definition process_block (st : state) (m : list Z) : state :=
  let st' := fold_left (round m) (seq 0 64) st in
  mkState (w32 (sa st + sa st')) (w32 (sb st + sb st'))
          (w32 (sc st + sc st')) (w32 (sd st + sd st')).

(** Little-endian bytes of a word, and back. *)
Definition word_bytes (n : nat) (x : Z) : list Z :=
  map (fun k => Z.land (Z.shiftr x (8 * Z.of_nat k)) 255) (seq 0 n).

Fixpoint words_of_bytes (fuel : nat) (bs : list Z) : list Z :=
  match fuel, bs with
  | Datatypes.S fuel', b0 :: b1 :: b2 :: b3 :: rest =>
      (b0 + Z.shiftl b1 8 + Z.shiftl b2 16 + Z.shiftl b3 24)
        :: words_of_bytes fuel' rest
  | _, _ => []
  end.

Definition pad (msg : list Z) : list Z :=
  let len := length msg in
  let zeros := ((55 + 64 - len mod 64) mod 64)%nat in
  msg ++ [128] ++ repeat 0 zeros ++ word_bytes 8 (8 * Z.of_nat len).

Fixpoint blocks (fuel : nat) (ws : list Z) : list (list Z) :=
  match fuel, ws with
  | Datatypes.S fuel', _ :: _ => firstn 16 ws :: blocks fuel' (skipn 16 ws)
  | _, _ => []
  end.

Definition digest (msg : list Z) : list Z :=
  let bs := pad msg in
  let ws := words_of_bytes (length bs) bs in
  let st := fold_left process_block (blocks (length ws) ws) init in
  word_bytes 4 (sa st) ++ word_bytes 4 (sb st)
    ++ word_bytes 4 (sc st) ++ word_bytes 4 (sd st).

Definition hex_digit (x : Z) : ascii :=
  nth (Z.to_nat x) (list_ascii_of_string "0123456789abcdef") "0"%char.

Fixpoint hex_of_bytes (bs : list Z) : string :=
  match bs with
  | [] => EmptyString
  | b :: rest =>
      String (hex_digit (Z.shiftr b 4)) (String (hex_digit (Z.land b 15)) (hex_of_bytes rest))
  end.

(** [hashlib.md5(s.encode()).hexdigest()] *)
Definition hexdigest (s : string) : string :=
  hex_of_bytes (digest (map ascii_code (list_ascii_of_string s))).

End MD5.

(** ** [get_filename_from_url] *)

Definition get_filename_from_url (url : string) : result string :=
  result_bind (urlparse_path url) (fun path =>
  let filename := basename path in
  Return (if str_nonempty filename then filename
          else "unnamed_file_" +:+ slice_to 8 (MD5.hexdigest url))).

(** ** [json.load], the reader of the persisted ledger

    A recursive-descent reader of JSON text after CPython's [json.decoder]:
    insignificant white space, the literals, numbers (kept as their
    lexeme), strings with escapes, arrays and objects; anything else, and
    text after the value, is a [JSONDecodeError].  A [\u] escape is decoded
    to the UTF-8 text of its code point; pairs of surrogate escapes are not
    combined.  The message of the exception is not modelled. *)

Inductive json : Type :=
  | JNull
  | JBool (b : bool)
  | JNumber (lexeme : string)
  | JString (s : string)
  | JArray (items : list json)
  | JObject (members : list (string * json)).

Definition is_json_ws (c : ascii) : bool :=
  (ascii_code c =? 32) || (ascii_code c =? 9) || (ascii_code c =? 10) || (ascii_code c =? 13).

Definition skip_ws (s : string) : string := str_lstrip is_json_ws s.

(** The longest prefix of characters that satisfy [p], and the rest. *)
Fixpoint str_span (p : ascii -> bool) (s : string) : string * string :=
  match s with
  | EmptyString => (EmptyString, EmptyString)
  | String c rest =>
      if p c then let '(a, b) := str_span p rest in (String c a, b)
      else (EmptyString, s)
  end.

(** [s.startswith(prefix)], with the rest of [s]. *)
Fixpoint strip_prefix (prefix s : string) : option string :=
  match prefix, s with
  | EmptyString, _ => Some s
  | String a p', String b s' => if Ascii.eqb a b then strip_prefix p' s' else None
  | String _ _, EmptyString => None
  end.

Definition hex_value (c : ascii) : option Z :=
  let n := ascii_code c in
  if is_digit c then Some (n - 48)
  else if (97 <=? n) && (n <=? 102) then Some (n - 87)
  else if (65 <=? n) && (n <=? 70) then Some (n - 55)
  else None.

Definition chr (n : Z) : ascii := ascii_of_N (Z.to_N n).

(** UTF-8 text of a code point below [2^16]. *)
Definition utf8_of_code_point (cp : Z) : string :=
  if cp <? 128 then String (chr cp) EmptyString
  else if cp <? 2048 then
    String (chr (192 + Z.shiftr cp 6)) (String (chr (128 + Z.land cp 63)) EmptyString)
  else
    String (chr (224 + Z.shiftr cp 12))
      (String (chr (128 + Z.land (Z.shiftr cp 6) 63))
         (String (chr (128 + Z.land cp 63)) EmptyString)).

(** The double quote character. *)
Definition dquote : ascii := chr 34.

Definition simple_escape (c : ascii) : option ascii :=
  if Ascii.eqb c dquote then Some dquote
  else if Ascii.eqb c "\" then Some "\"%char
  else if Ascii.eqb c "/" then Some "/"%char
  else if Ascii.eqb c "b" then Some (chr 8)
  else if Ascii.eqb c "f" then Some (chr 12)
  else if Ascii.eqb c "n" then Some (chr 10)
  else if Ascii.eqb c "r" then Some (chr 13)
  else if Ascii.eqb c "t" then Some (chr 9)
  else None.

Definition prepend (prefix : string) (r : option (string * string)) : option (string * string) :=
  match r with
  | Some (text, rest) => Some (prefix +:+ text, rest)
  | None => None
  end.

(** The text of a string literal after its opening quote, and what follows
    the closing quote. *)
Fixpoint scan_string (s : string) : option (string * string) :=
  match s with
  | EmptyString => None
  | String c rest =>
      if Ascii.eqb c dquote then Some (EmptyString, rest)
      else if Ascii.eqb c "\" then
        match rest with
        | EmptyString => None
        | String e rest1 =>
            match simple_escape e with
            | Some ch => prepend (String ch EmptyString) (scan_string rest1)
            | None =>
                if Ascii.eqb e "u" then
                  match rest1 with
                  | String h1 (String h2 (String h3 (String h4 rest2))) =>
                      match hex_value h1, hex_value h2, hex_value h3, hex_value h4 with
                      | Some a, Some b, Some c, Some d =>
                          prepend (utf8_of_code_point (4096 * a + 256 * b + 16 * c + d))
                                  (scan_string rest2)
                      | _, _, _, _ => None
                      end
                  | _ => None
                  end
                else None
            end
        end
      else if ascii_code c <? 32 then None
      else prepend (String c EmptyString) (scan_string rest)
  end.

(** A number lexeme at the head of [s]: an optional minus sign, then [0] or
    a digit string without leading zero, then an optional fraction (a dot
    and digits), then an optional exponent ([e] or [E], a sign, digits). *)
Definition scan_number (s : string) : option (string * string) :=
  let '(sign, s1) :=
    match s with String "-" r => ("-", r) | _ => (EmptyString, s) end in
  let int_part :=
    match s1 with
    | String "0" r => Some ("0", r)
    | String c _ => if is_digit c then Some (str_span is_digit s1) else None
    | EmptyString => None
    end in
  match int_part with
  | None => None
  | Some (digits, s2) =>
      let '(frac, s3) :=
        match s2 with
        | String "." r =>
            let '(ds, r') := str_span is_digit r in
            if str_nonempty ds then ("." +:+ ds, r') else (EmptyString, s2)
        | _ => (EmptyString, s2)
        end in
      let '(exp, s4) :=
        match s3 with
        | String e r =>
            if Ascii.eqb e "e" || Ascii.eqb e "E" then
              let '(sg, r1) :=
                match r with
                | String "+" r1 => ("+", r1)
                | String "-" r1 => ("-", r1)
                | _ => (EmptyString, r)
                end in
              let '(ds, r2) := str_span is_digit r1 in
              if str_nonempty ds then (String e sg +:+ ds, r2) else (EmptyString, s3)
            else (EmptyString, s3)
        | EmptyString => (EmptyString, s3)
        end in
      Some (sign +:+ digits +:+ frac +:+ exp, s4)
  end.

Definition scan_literal (s : string) : option (json * string) :=
  match strip_prefix "null" s with Some r => Some (JNull, r) | None =>
  match strip_prefix "true" s with Some r => Some (JBool true, r) | None =>
  match strip_prefix "false" s with Some r => Some (JBool false, r) | None =>
  match strip_prefix "NaN" s with Some r => Some (JNumber "NaN", r) | None =>
  match strip_prefix "Infinity" s with Some r => Some (JNumber "Infinity", r) | None =>
  match strip_prefix "-Infinity" s with Some r => Some (JNumber "-Infinity", r) | None =>
  match scan_number s with Some (n, r) => Some (JNumber n, r) | None => None
  end end end end end end end.

(** One value at the head of [s]; [parse_members] and [parse_items] read
    what follows the opening bracket of a non-empty object or array. *)
Fixpoint parse_value (fuel : nat) (s : string) : option (json * string) :=
  match fuel with
  | O => None
  | Datatypes.S fuel' =>
      match s with
      | String "{" rest =>
          match skip_ws rest with
          | String "}" r => Some (JObject [], r)
          | rest' =>
              match parse_members fuel' rest' with
              | Some (ms, r) => Some (JObject ms, r)
              | None => None
              end
          end
      | String "[" rest =>
          match skip_ws rest with
          | String "]" r => Some (JArray [], r)
          | rest' =>
              match parse_items fuel' rest' with
              | Some (xs, r) => Some (JArray xs, r)
              | None => None
              end
          end
      | String c rest =>
          if Ascii.eqb c dquote then
            match scan_string rest with
            | Some (text, r) => Some (JString text, r)
            | None => None
            end
          else scan_literal s
      | EmptyString => None
      end
  end
with parse_members (fuel : nat) (s : string) : option (list (string * json) * string) :=
  match fuel with
  | O => None
  | Datatypes.S fuel' =>
      match s with
      | String c rest =>
          if negb (Ascii.eqb c dquote) then None else
          match scan_string rest with
          | Some (key, r1) =>
              match skip_ws r1 with
              | String ":" r2 =>
                  match parse_value fuel' (skip_ws r2) with
                  | Some (v, r3) =>
                      match skip_ws r3 with
                      | String "}" r4 => Some ([(key, v)], r4)
                      | String "," r4 =>
                          match parse_members fuel' (skip_ws r4) with
                          | Some (ms, r5) => Some ((key, v) :: ms, r5)
                          | None => None
                          end
                      | _ => None
                      end
                  | None => None
                  end
              | _ => None
              end
          | None => None
          end
      | EmptyString => None
      end
  end
with parse_items (fuel : nat) (s : string) : option (list json * string) :=
  match fuel with
  | O => None
  | Datatypes.S fuel' =>
      match parse_value fuel' s with
      | Some (v, r1) =>
          match skip_ws r1 with
          | String "]" r2 => Some ([v], r2)
          | String "," r2 =>
              match parse_items fuel' (skip_ws r2) with
              | Some (xs, r3) => Some (v :: xs, r3)
              | None => None
              end
          | _ => None
          end
      | None => None
      end
  end.

(** [json.loads(text)] *)
Definition json_loads (text : string) : result json :=
  match parse_value (Datatypes.S (String.length text)) (skip_ws text) with
  | Some (v, rest) =>
      match skip_ws rest with
      | EmptyString => Return v
      | String _ _ => Raise (JSONDecodeError "Extra data")
      end
  | None => Raise (JSONDecodeError "Expecting value")
  end.

(** ** [load_progress]

    [file] is the text of [PROGRESS_FILE], [None] when the file does not
    exist. *)
Definition load_progress (file : option string) : result json :=
  match file with
  | Some text => json_loads text
  | None => Return (JObject [])
  end.

(** The loaded value seen as a ledger: an object whose members are all
    strings, a later member of the same name replacing an earlier one as in
    a Python [dict]. *)
Fixpoint ledger_of_members (ms : list (string * json)) (acc : gmap string string)
    : option (gmap string string) :=
  match ms with
  | [] => Some acc
  | (k, JString v) :: rest => ledger_of_members rest (<[k := v]> acc)
  | _ :: _ => None
  end.

Definition ledger_of (v : json) : option (gmap string string) :=
  match v with
  | JObject ms => ledger_of_members ms ∅
  | _ => None
  end.

(** ** The world of a transfer

    The progress dictionary is one shared object: [main] builds it and hands
    the same object to every task, so the model keeps it in the [world] that
    is threaded through the calls and never copies it. *)

Inductive open_mode : Type := WB | AB.

(** What the program does to the outside world, in order.  [ev_on_disk] of a
    request is the size of the target file at the moment the request is
    issued ([None]: no such file); it is an observation recorded for the
    statements below, not a part of the request. *)
Inductive event : Type :=
  | EvGet (url : string) (headers : gmap string string) (ev_on_disk : option Z)
  | EvOpen (path : string) (mode : open_mode)
  | EvSleep (seconds : Z)
  | EvSave (snapshot : gmap string string).

(** What [PROGRESS_FILE] holds.  [open(PROGRESS_FILE, 'w')] empties the
    file before [json.dump] writes the first character, so a dump that does
    not run to its end leaves an empty or partial text behind. *)
Inductive progress_file : Type :=
  | NoFile                                 (* there is no such file *)
  | Saved (ledger : gmap string string)    (* the text of a completed dump *)
  | Damaged.                               (* truncated, the dump not completed *)

Record world : Type := mkWorld {
  progress : gmap string string;          (* the shared in-memory ledger *)
  files : gmap string string;             (* target files: path to content *)
  persisted : progress_file;              (* the content of PROGRESS_FILE *)
  saves : nat;                            (* calls of save_progress so far *)
  trace : list event
}.

Inductive content_length : Type :=
  | NoContentLength
  | ContentLength (n : Z)
  | BadContentLength (text : string).   (* a header that [int()] rejects *)

Inductive stream_end : Type :=
  | EndOfBody
  | BrokenStream (msg : string).        (* the connection drops while streaming *)

(** What the server does with one request. *)
Inductive response : Type :=
  | ConnectionFailed (msg : string)     (* [requests.get] raises: no route, timeout *)
  | BadStatus (msg : string)            (* [raise_for_status] raises [HTTPError] *)
  | Streaming (cl : content_length) (chunks : list string) (ending : stream_end).

(** The outside world as oracles: the answer of the server to the request of
    a given attempt, and the failures of the local disk.  [save_error k] is
    the error of the [k]-th call of [save_progress], if it fails;
    [save_truncates k] tells where it fails: in [json.dump], after [open]
    has emptied the file, or in [open] itself, which leaves the file as it
    was. *)
Record env : Type := mkEnv {
  http_get : string -> gmap string string -> nat -> response;
  open_error : nat -> string -> open_mode -> option string;
  write_error : nat -> nat -> option string;
  save_error : nat -> option string;
  save_truncates : nat -> bool
}.

(** ** A state-and-exception monad for the Python code *)

Definition M (A : Type) : Type := world -> result A * world.

Definition ret {A} (a : A) : M A := fun w => (Return a, w).
Definition raise {A} (e : exn) : M A := fun w => (Raise e, w).
Definition lift {A} (r : result A) : M A := fun w => (r, w).

Definition bind {A B} (m : M A) (k : A -> M B) : M B :=
  fun w =>
    match m w with
    | (Return a, w') => k a w'
    | (Raise e, w') => (Raise e, w')
    end.

(** [try: m  except <class> as e: h e] *)
Definition try_except {A} (m : M A) (catches : exn -> bool) (h : exn -> M A) : M A :=
  fun w =>
    match m w with
    | (Return a, w') => (Return a, w')
    | (Raise e, w') => if catches e then h e w' else (Raise e, w')
    end.

Declare Scope py_scope.
Delimit Scope py_scope with py.
Notation "x <- m ;; k" := (bind m (fun x => k))
  (at level 100, m at next level, k at level 200, right associativity) : py_scope.
Notation "m ;; k" := (bind m (fun _ => k))
  (at level 100, k at level 200, right associativity) : py_scope.
Local Open Scope py_scope.

Definition get_world : M world := fun w => (Return w, w).

Definition emit (ev : event) : M unit :=
  fun w => (Return tt, mkWorld (progress w) (files w) (persisted w) (saves w) (trace w ++ [ev])).

(** [progress[url] = status] *)
Definition set_progress (url status : string) : M unit :=
  fun w => (Return tt, mkWorld (<[url := status]> (progress w)) (files w)
                               (persisted w) (saves w) (trace w)).

Definition set_file (path content : string) : M unit :=
  fun w => (Return tt, mkWorld (progress w) (<[path := content]> (files w))
                               (persisted w) (saves w) (trace w)).

(** [sleep(seconds)] *)
Definition sleep (seconds : Z) : M unit := emit (EvSleep seconds).

(** ** [save_progress]

    The lock is taken and released inside the call; in a single thread of
    control that has no effect (the interleaving of several workers is the
    subject of [Pool] and [Race] below).  The call fails either in [open],
    and the file is as it was, or in [json.dump], and the file, which [open]
    has emptied, is left damaged.  The error is raised as an [OSError]
    whatever its class: the program treats every exception that is not a
    [RequestException] alike. *)

(** The file after the [k]-th call of [save_progress] has failed. *)
Definition after_failed_save (E : env) (k : nat) (file : progress_file) : progress_file :=
  if save_truncates E k then Damaged else file.

Definition save_progress (E : env) : M unit :=
  fun w =>
    match save_error E (saves w) with
    | Some msg =>
        (Raise (OSError msg),
         mkWorld (progress w) (files w) (after_failed_save E (saves w) (persisted w))
                 (Datatypes.S (saves w)) (trace w))
    | None =>
        (Return tt, mkWorld (progress w) (files w) (Saved (progress w))
                            (Datatypes.S (saves w)) (trace w ++ [EvSave (progress w)]))
    end.

(** ** [download_file] *)

(** [os.path.getsize] of a file with the given content. *)
Definition getsize (content : string) : Z := Z.of_nat (String.length content).

(** [f'bytes={initial_pos}-'] *)
Definition range_value (initial_pos : Z) : string :=
  "bytes=" +:+ pretty initial_pos +:+ "-".

Record plan : Type := mkPlan {
  p_headers : gmap string string;
  p_mode : open_mode;
  p_initial_pos : Z
}.

(** Lines 51-58: the request headers, the file mode and the initial position,
    computed once per call. *)
Definition transfer_plan (progress : gmap string string) (files : gmap string string)
    (url filepath : string) : plan :=
  if bool_decide (url ∈ dom progress)
     && bool_decide (progress !! url ≠ Some "failed")
     && bool_decide (filepath ∈ dom files)
  then
    let initial_pos := getsize (default "" (files !! filepath)) in
    mkPlan {[ "Range" := range_value initial_pos ]} AB initial_pos
  else mkPlan ∅ WB 0.

(** [int(response.headers.get('content-length', 0))] *)
Definition content_length_int (cl : content_length) : result Z :=
  match cl with
  | NoContentLength => Return 0
  | ContentLength n => Return n
  | BadContentLength text =>
      Raise (ValueError ("invalid literal for int() with base 10: " +:+ text))
  end.

(** [open(filepath, mode)]: ['wb'] creates or truncates, ['ab'] creates or
    keeps the content. *)
Definition open_file (E : env) (attempt : nat) (filepath : string) (mode : open_mode) : M unit :=
  emit (EvOpen filepath mode) ;;
  match open_error E attempt filepath mode with
  | Some msg => raise (OSError msg)
  | None =>
      w <- get_world ;;
      match mode with
      | WB => set_file filepath ""
      | AB => set_file filepath (default "" (files w !! filepath))
      end
  end.

(** The loop over [response.iter_content]: every non-empty chunk is written;
    [k] counts the chunks of this attempt. *)
Fixpoint write_chunks (E : env) (attempt : nat) (filepath : string)
    (chunks : list string) (k : nat) : M unit :=
  match chunks with
  | [] => ret tt
  | chunk :: rest =>
      (if str_nonempty chunk then
         match write_error E attempt k with
         | Some msg => raise (OSError msg)
         | None =>
             w <- get_world ;;
             set_file filepath (default "" (files w !! filepath) +:+ chunk)
         end
       else ret tt) ;;
      write_chunks E attempt filepath rest (Datatypes.S k)
  end.

(** Lines 62-82: the body of the inner [try] of one attempt, up to the
    [return]. *)
Definition attempt_body (E : env) (url filename filepath : string) (pl : plan)
    (attempt : nat) : M (string * option string) :=
  w <- get_world ;;
  emit (EvGet url (p_headers pl) (getsize <$> (files w !! filepath))) ;;
  match http_get E url (p_headers pl) attempt with
  | ConnectionFailed msg => raise (RequestException msg)
  | BadStatus msg => raise (RequestException msg)
  | Streaming cl chunks ending =>
      n <- lift (content_length_int cl) ;;
      let total_size := n + p_initial_pos pl in
      open_file E attempt filepath (p_mode pl) ;;
      write_chunks E attempt filepath chunks 0 ;;
      match ending with
      | BrokenStream msg => raise (RequestException msg)
      | EndOfBody =>
          set_progress url "completed" ;;
          save_progress E ;;
          ret (filename, None)
      end
  end.

(** Lines 60-85: [for attempt in range(RETRY_COUNT)].  [Some r] when an
    attempt returned [r], [None] when the loop ran to its end. *)
Fixpoint retry_loop (E : env) (url filename filepath : string) (pl : plan)
    (attempts : list nat) : M (option (string * option string)) :=
  match attempts with
  | [] => ret None
  | attempt :: rest =>
      r <- try_except
             (r <- attempt_body E url filename filepath pl attempt ;; ret (Some r))
             is_request_exception
             (fun e => sleep (2 ^ Z.of_nat attempt) ;; ret None) ;;
      match r with
      | Some res => ret (Some res)
      | None => retry_loop E url filename filepath pl rest
      end
  end.

Definition download_file (E : env) (url download_dir : string) : M (string * option string) :=
  try_except
    (filename <- lift (get_filename_from_url url) ;;
     let filepath := path_join download_dir filename in
     w <- get_world ;;
     let pl := transfer_plan (progress w) (files w) url filepath in
     r <- retry_loop E url filename filepath pl (seq 0 RETRY_COUNT) ;;
     match r with
     | Some res => ret res
     | None =>
         set_progress url "failed" ;;
         save_progress E ;;
         ret (filename, Some "Download failed after retries")
     end)
    (fun _ => true)
    (fun e =>
       set_progress url "failed" ;;
       save_progress E ;;
       ret (url, Some (exn_str e))).

(** ** [main]: the pending list and the pool *)

(** Line 108 *)
Definition remaining_urls (urls : list string) (progress : gmap string string) : list string :=
  filter (fun url => url ∉ dom progress ∨ progress !! url = Some "failed") urls.

(** The schedule of the pool in which the submitted tasks run one after the
    other, in submission order.  It is one of the schedules the pool admits:
    every task finishes before the next one starts.  With more pending tasks
    than [MAX_WORKERS] a later task can only start once an earlier one has
    finished, whatever the schedule. *)
Fixpoint run_tasks (E : env) (download_dir : string) (tasks : list string)
    : world -> list (result (string * option string)) * world :=
  fun w =>
    match tasks with
    | [] => ([], w)
    | url :: rest =>
        let '(r, w1) := download_file E url download_dir w in
        let '(rs, w2) := run_tasks E download_dir rest w1 in
        (r :: rs, w2)
    end.

(** Lines 106-114 under that schedule, from the world whose [progress] is the
    loaded ledger. *)
Definition main_in_order (E : env) (download_dir : string) (urls : list string)
    : world -> list (result (string * option string)) * world :=
  fun w => run_tasks E download_dir (remaining_urls urls (progress w)) w.


(** ** The workers of the pool recording their outcomes

    Every terminal path of [download_file] ends with the same two
    statements (lines 79-80, 88-89, 94-95): [progress[url] = status] and
    [save_progress(progress)], the latter being [with progress_lock:] around
    opening the file and [json.dump].  A worker is the list of the
    statements it still has to run; a schedule is the order in which the
    workers, named by their index, take their steps.  A dump is taken as one
    step here, which is enough to follow who holds the lock; the steps
    inside a dump, between which another worker can change the dict, are the
    subject of [Race] below. *)

Module Pool.

Inductive instr : Type :=
  | SetStatus     (* progress[url] = status *)
  | Acquire       (* progress_lock.__enter__ *)
  | Dump          (* open(PROGRESS_FILE, 'w'); json.dump(progress, f) *)
  | Release.      (* progress_lock.__exit__ *)

#[global] Instance instr_eq_dec : EqDecision instr.
Proof. solve_decision. Defined.

Definition record_outcome : list instr := [SetStatus; Acquire; Dump; Release].

Record worker : Type := mkWorker {
  w_url : string;
  w_status : string;
  w_todo : list instr
}.

Record state : Type := mkState {
  mem : gmap string string;            (* the shared dict *)
  lock : option nat;                   (* the holder of progress_lock *)
  disk : option (gmap string string);  (* the persisted copy *)
  workers : list worker
}.

Definition init (ledger : gmap string string) (saved : option (gmap string string))
    (tasks : list (string * string)) : state :=
  mkState ledger None saved
          (map (fun '(url, status) => mkWorker url status record_outcome) tasks).

(** One step of worker [t]; [None] when it has finished or is blocked on the
    lock. *)
Definition exec (t : nat) (s : state) : option state :=
  match workers s !! t with
  | Some (mkWorker url status (i :: rest)) =>
      let ws := <[t := mkWorker url status rest]> (workers s) in
      match i with
      | SetStatus => Some (mkState (<[url := status]> (mem s)) (lock s) (disk s) ws)
      | Acquire =>
          match lock s with
          | None => Some (mkState (mem s) (Some t) (disk s) ws)
          | Some _ => None
          end
      | Dump => Some (mkState (mem s) (lock s) (Some (mem s)) ws)
      | Release => Some (mkState (mem s) None (disk s) ws)
      end
  | _ => None
  end.

Fixpoint run (schedule : list nat) (s : state) : option state :=
  match schedule with
  | [] => Some s
  | t :: rest =>
      match exec t s with
      | Some s' => run rest s'
      | None => None
      end
  end.




(** The claim that the lock guards the in-memory mapping: whoever changes it
    holds the lock. *)
Definition mutations_under_lock (ledger : gmap string string)
    (saved : option (gmap string string)) (tasks : list (string * string)) : Prop :=
  forall schedule s t s',
    run schedule (init ledger saved tasks) = Some s ->
    exec t s = Some s' ->
    mem s' <> mem s ->
    lock s = Some t.


End Pool.

(** ** A dump that races with an insertion

    [json.dump(progress, f, indent=4)] is Python code that walks over the
    items of the dict and writes them one by one; every step of the walk
    first compares the size of the dict with its size when the walk began
    and raises [RuntimeError] when they differ.  The statement
    [progress[url] = status] of another worker runs outside the lock and can
    fall between two steps of the walk.  Here a dump is made of its steps:
    [open], which empties the file, the start of the walk, which writes the
    first item, one step for each further item, and the step that finds the
    end.  A [RuntimeError] leaves both [with] blocks: the file is closed as
    it is and the lock is released; on lines 80 and 89 it is caught by the
    handler of line 92, which records [failed] and dumps again; raised by
    the dump of the handler it leaves [download_file]. *)

Module Race.

(** The dict, its items in the order of insertion. *)
Definition dict : Type := list (string * string).

(** [d[k] = v]: a key that is present keeps its place, a new key comes
    last. *)
Fixpoint dict_set (d : dict) (k v : string) : dict :=
  match d with
  | [] => [(k, v)]
  | (k', v') :: rest =>
      if String.eqb k' k then (k', v) :: rest else (k', v') :: dict_set rest k v
  end.

(** The statement a worker is about to run; [handler] tells whether it runs
    the handler of line 92. *)
Inductive pc : Type :=
  | SetStatus (status : string) (handler : bool)  (* progress[url] = status *)
  | Acquire (handler : bool)                      (* with progress_lock: *)
  | OpenFile (handler : bool)                     (* open(PROGRESS_FILE, 'w') *)
  | StartWalk (handler : bool)                    (* json.dump reaches the items *)
  | Walk (handler : bool) (size : nat) (written : dict)  (* the next item *)
  | Release (handler : bool)                      (* the end of the with blocks *)
  | Returned (handler : bool)                     (* download_file has returned *)
  | Raised.                                       (* the exception has left it *)

Record worker : Type := mkWorker {
  w_url : string;
  w_pc : pc
}.

Record state : Type := mkState {
  mem : dict;                 (* the shared dict *)
  lock : option nat;          (* the holder of progress_lock *)
  disk : progress_file;       (* PROGRESS_FILE *)
  workers : list worker
}.

(** Every worker has its download behind it and is about to record its
    status. *)
Definition init (ledger : dict) (saved : progress_file) (tasks : list (string * string))
    : state :=
  mkState ledger None saved
          (map (fun '(url, status) => mkWorker url (SetStatus status false)) tasks).

(** One step of worker [t]; [None] when it has finished or is blocked on the
    lock. *)
Definition exec (t : nat) (s : state) : option state :=
  match workers s !! t with
  | Some (mkWorker url p) =>
      let now_at p' := <[t := mkWorker url p']> (workers s) in
      match p with
      | SetStatus status h =>
          Some (mkState (dict_set (mem s) url status) (lock s) (disk s) (now_at (Acquire h)))
      | Acquire h =>
          match lock s with
          | None => Some (mkState (mem s) (Some t) (disk s) (now_at (OpenFile h)))
          | Some _ => None
          end
      | OpenFile h => Some (mkState (mem s) (lock s) Damaged (now_at (StartWalk h)))
      | StartWalk h =>
          match mem s with
          | [] => Some (mkState (mem s) (lock s) (Saved ∅) (now_at (Release h)))
          | item :: _ =>
              Some (mkState (mem s) (lock s) (disk s)
                            (now_at (Walk h (length (mem s)) [item])))
          end
      | Walk h size written =>
          if negb (length (mem s) =? size)%nat then
            Some (mkState (mem s) None (disk s)
                          (now_at (if h then Raised else SetStatus "failed" true)))
          else
            match mem s !! length written with
            | Some item =>
                Some (mkState (mem s) (lock s) (disk s)
                              (now_at (Walk h size (written ++ [item])%list)))
            | None =>
                Some (mkState (mem s) (lock s) (Saved (list_to_map written))
                              (now_at (Release h)))
            end
      | Release h => Some (mkState (mem s) None (disk s) (now_at (Returned h)))
      | Returned _ | Raised => None
      end
  | None => None
  end.

Fixpoint run (schedule : list nat) (s : state) : option state :=
  match schedule with
  | [] => Some s
  | t :: rest =>
      match exec t s with
      | Some s' => run rest s'
      | None => None
      end
  end.

(** Two workers whose downloads have succeeded, and an interleaving of
    their steps in which the second records its status while the first is
    inside its dump. *)
Definition two_tasks : list (string * string) :=
  [("http://a.org/x.zim", "completed"); ("http://a.org/y.zim", "completed")].

Definition racing : list nat :=
  [0; 0; 0; 0; 1; 0; 0; 0; 0; 0; 0; 0; 0; 1; 1; 1; 1; 1; 1]%nat.

End Race.

(** ** [read_urls]

    The file is opened in text mode: the text is valid UTF-8 and every line
    ending, [\n], [\r\n] or [\r], reaches the program as [\n]. *)

Definition LF : ascii := chr 10.
Definition CR : ascii := chr 13.

(** The string of the given bytes. *)
Definition bytes (l : list Z) : string := string_of_list_ascii (map chr l).

(** The characters for which [str.isspace] holds, in UTF-8: the ASCII ones,
    U+0085, U+00A0, U+1680, U+2000 to U+200A, U+2028, U+2029, U+202F, U+205F
    and U+3000. *)
Definition whitespace : list string :=
  map bytes
    [[9]; [10]; [11]; [12]; [13]; [28]; [29]; [30]; [31]; [32];
     [194; 133]; [194; 160]; [225; 154; 128];
     [226; 128; 128]; [226; 128; 129]; [226; 128; 130]; [226; 128; 131];
     [226; 128; 132]; [226; 128; 133]; [226; 128; 134]; [226; 128; 135];
     [226; 128; 136]; [226; 128; 137]; [226; 128; 138];
     [226; 128; 168]; [226; 128; 169]; [226; 128; 175];
     [226; 129; 159]; [227; 128; 128]].

Definition is_whitespace (s : string) : bool :=
  existsb (String.eqb s) whitespace.

(** What follows the white space character at the head of [s], if any. *)
Definition drop_whitespace (s : string) : option string :=
  fold_right
    (fun ws found => match strip_prefix ws s with Some rest => Some rest | None => found end)
    None whitespace.

Fixpoint py_lstrip_go (fuel : nat) (s : string) : string :=
  match fuel with
  | O => s
  | Datatypes.S fuel' =>
      match drop_whitespace s with
      | Some rest => py_lstrip_go fuel' rest
      | None => s
      end
  end.

(** [s.lstrip()] *)
Definition py_lstrip (s : string) : string := py_lstrip_go (String.length s) s.

(** [s.rstrip()]: what is left of [s] is its head followed by what is left
    of its tail, unless that is one white space character. *)
Fixpoint py_rstrip (s : string) : string :=
  match s with
  | EmptyString => EmptyString
  | String c rest =>
      let r := py_rstrip rest in
      if is_whitespace (String c r) then EmptyString else String c r
  end.

(** [s.strip()] *)
Definition py_strip (s : string) : string := py_rstrip (py_lstrip s).

(** The lines that iterating over the file yields: each with its [\n],
    except a last line that has none. *)
Fixpoint text_lines (text : string) : list string :=
  match text with
  | EmptyString => []
  | String c rest =>
      if Ascii.eqb c LF then String LF EmptyString :: text_lines rest
      else if Ascii.eqb c CR then
        match rest with
        | String d rest' =>
            if Ascii.eqb d LF then String LF EmptyString :: text_lines rest'
            else String LF EmptyString :: text_lines rest
        | EmptyString => [String LF EmptyString]
        end
      else
        match text_lines rest with
        | [] => [String c EmptyString]
        | line :: lines => String c line :: lines
        end
  end.

(** [file] is the text of the file, [None] when there is no such file. *)
Definition read_urls (file : option string) : result (list string) :=
  match file with
  | None => Raise (OSError "[Errno 2] No such file or directory")
  | Some text =>
      Return (map py_strip
                (List.filter (fun line => str_nonempty (py_strip line)) (text_lines text)))
  end.

(** ** [json.dump(progress, f, indent=4)], the writer of the persisted ledger

    After CPython's [json.encoder] with [ensure_ascii] on: a string is
    written between double quotes with the quote, the backslash and every
    character outside the printable ASCII range escaped, characters beyond
    U+FFFF as a pair of surrogates.  A byte that is not part of a UTF-8
    sequence cannot occur in a Python [str]; the model writes it as its own
    escape. *)

Definition hex4 (n : Z) : string :=
  String (MD5.hex_digit (Z.land (Z.shiftr n 12) 15))
    (String (MD5.hex_digit (Z.land (Z.shiftr n 8) 15))
       (String (MD5.hex_digit (Z.land (Z.shiftr n 4) 15))
          (String (MD5.hex_digit (Z.land n 15)) EmptyString))).

(** The escape [\uXXXX] of a code point below [2^16]. *)
Definition u_escape (cp : Z) : string := String "\" (String "u" (hex4 cp)).

(** The escape of a code point: itself when printable, a short escape, a
    [\u] escape or a pair of them. *)
Definition escape_code_point (cp : Z) : string :=
  if cp =? 34 then String "\" (String dquote EmptyString)
  else if cp =? 92 then "\\"
  else if cp =? 10 then "\n"
  else if cp =? 13 then "\r"
  else if cp =? 9 then "\t"
  else if cp =? 8 then "\b"
  else if cp =? 12 then "\f"
  else if (32 <=? cp) && (cp <=? 126) then String (chr cp) EmptyString
  else if cp <? 65536 then u_escape cp
  else
    let v := cp - 65536 in
    u_escape (55296 + Z.shiftr v 10) +:+ u_escape (56320 + Z.land v 1023).

(** [encode_basestring_ascii] without the enclosing quotes, on UTF-8 text. *)
Fixpoint escape_string (s : string) : string :=
  match s with
  | EmptyString => EmptyString
  | String c rest =>
      let b := ascii_code c in
      if b <? 128 then escape_code_point b +:+ escape_string rest
      else if (192 <=? b) && (b <? 224) then
        match rest with
        | String c1 rest1 =>
            escape_code_point (64 * (b - 192) + (ascii_code c1 - 128))
              +:+ escape_string rest1
        | _ => u_escape b +:+ escape_string rest
        end
      else if (224 <=? b) && (b <? 240) then
        match rest with
        | String c1 (String c2 rest2) =>
            escape_code_point (4096 * (b - 224) + 64 * (ascii_code c1 - 128)
                               + (ascii_code c2 - 128))
              +:+ escape_string rest2
        | _ => u_escape b +:+ escape_string rest
        end
      else if 240 <=? b then
        match rest with
        | String c1 (String c2 (String c3 rest3)) =>
            escape_code_point (262144 * (b - 240) + 4096 * (ascii_code c1 - 128)
                               + 64 * (ascii_code c2 - 128) + (ascii_code c3 - 128))
              +:+ escape_string rest3
        | _ => u_escape b +:+ escape_string rest
        end
      else u_escape b +:+ escape_string rest
  end.

Definition quoted (s : string) : string :=
  String dquote (escape_string s +:+ String dquote EmptyString).

(** One member on its line, indented by four spaces. *)
Definition dump_member (kv : string * string) : string :=
  "    " +:+ quoted (fst kv) +:+ ": " +:+ quoted (snd kv).

(** The members, separated by a comma and a line break. *)
Fixpoint dump_members (items : list (string * string)) : string :=
  match items with
  | [] => EmptyString
  | [kv] => dump_member kv
  | kv :: rest => dump_member kv +:+ String "," (String LF (dump_members rest))
  end.

(** [json.dumps(d, indent=4)] for a [dict] whose items are [items], in the
    order of the [dict]. *)
Definition json_dumps (items : list (string * string)) : string :=
  match items with
  | [] => "{}"
  | _ => String "{" (String LF (dump_members items +:+ String LF "}"))
  end.

(** The text that [save_progress] writes.  A [dict] keeps its items in the
    order of insertion, which the mapping of the model does not record; the
    model writes them in the order of [map_to_list]. *)
Definition progress_file_text (progress : gmap string string) : string :=
  json_dumps (map_to_list progress).

(** ** The outcome that [main] logs, lines 114-118 *)

(** The truth value of [error]: [None] and the empty string are false. *)
Definition truthy (error : option string) : bool :=
  match error with
  | None => false
  | Some text => str_nonempty text
  end.

(** ** Notions used by the statements *)

(** A lower-case hexadecimal digit. *)
Definition is_hex_char (c : ascii) : bool :=
  is_digit c || ((97 <=? ascii_code c) && (ascii_code c <=? 102)).

(** The path that the task of [url] writes: [filepath] of [download_file]. *)
Definition target_path (download_dir url : string) : result string :=
  result_bind (get_filename_from_url url) (fun filename =>
  Return (path_join download_dir filename)).

(** Writes ['] for the double quote in the text of an example. *)
Definition with_dquotes (s : string) : string :=
  str_map (fun c => if Ascii.eqb c "'" then dquote else c) s.

(** No two tasks of a submitted list write the same path. *)
Definition tasks_target_distinct_paths (download_dir : string) (tasks : list string) : Prop :=
  forall i j u v,
    i <> j -> tasks !! i = Some u -> tasks !! j = Some v ->
    target_path download_dir u <> target_path download_dir v.

(** [url] is pending for a ledger: it has no entry, or its entry is
    [failed]. *)
Definition pending (progress : gmap string string) (url : string) : Prop :=
  progress !! url = None \/ progress !! url = Some "failed".

(** How many times [url] occurs in a list. *)
Definition occurrences (url : string) (l : list string) : nat :=
  length (filter (fun x => x = url) l).

(** The body that a list of chunks carries. *)
Definition body_of (chunks : list string) : string :=
  fold_right String.append EmptyString chunks.

(** ** Servers and worlds of the examples *)

(** The offset [k] of a header value [bytes=k-], looked for up to [len]. *)
Definition parse_range (value : string) (len : nat) : option nat :=
  List.find (fun k => String.eqb (range_value (Z.of_nat k)) value) (seq 0 (Datatypes.S len)).

(** The pieces of [size] bytes of a body, the last one shorter; none for
    an empty body. *)
Fixpoint pieces (fuel size : nat) (body : string) : list string :=
  match fuel with
  | O => []
  | Datatypes.S fuel' =>
      if str_nonempty body
      then str_take size body :: pieces fuel' size (str_drop size body)
      else []
  end.

(** [response.iter_content(chunk_size=CHUNK_SIZE)] on data that has
    arrived: it is handed on in pieces of [CHUNK_SIZE] bytes. *)
Definition iter_content (data : string) : list string :=
  pieces (String.length data) (Z.to_nat CHUNK_SIZE) data.

(** A server that holds one resource and honours range requests: the whole
    body without a [Range] header, the bytes from the offset on with one,
    and status 416 when the offset is the length of the resource. *)
Definition range_server (body : string) (headers : gmap string string) : response :=
  let len := String.length body in
  match headers !! "Range" with
  | None => Streaming (ContentLength (Z.of_nat len)) (iter_content body) EndOfBody
  | Some value =>
      match parse_range value len with
      | Some k =>
          if (k <? len)%nat
          then Streaming (ContentLength (Z.of_nat (len - k)))
                         (iter_content (str_drop k body)) EndOfBody
          else BadStatus "416 Client Error: Requested Range Not Satisfiable"
      | None => Streaming (ContentLength (Z.of_nat len)) (iter_content body) EndOfBody
      end
  end.

(** The same body sent with chunked transfer encoding, hence without a
    [Content-Length], over a connection that drops after [cut] bytes: the
    chunk that has arrived is handed on by [iter_content], then the stream
    breaks.  (Under a [Content-Length] the library may raise without handing
    on what has arrived of an incomplete piece.) *)
Definition cut_short (cut : nat) (r : response) : response :=
  match r with
  | Streaming _ chunks _ =>
      Streaming NoContentLength (iter_content (str_take cut (body_of chunks)))
                (BrokenStream "Connection broken")
  | _ => r
  end.

Definition no_open_error : nat -> string -> open_mode -> option string := fun _ _ _ => None.
Definition no_write_error : nat -> nat -> option string := fun _ _ => None.
Definition no_save_error : nat -> option string := fun _ => None.

(** A call of [save_progress] that fails does so in [open]. *)
Definition fails_in_open : nat -> bool := fun _ => false.

(** A healthy server and a healthy disk. *)
Definition E_serving (body : string) : env :=
  mkEnv (fun _ headers _ => range_server body headers)
        no_open_error no_write_error no_save_error fails_in_open.

(** The first attempt is answered with chunked transfer encoding and its
    connection drops after [cut] bytes. *)
Definition E_flaky (body : string) (cut : nat) : env :=
  mkEnv (fun _ headers attempt =>
           match attempt with
           | O => cut_short cut (range_server body headers)
           | _ => range_server body headers
           end)
        no_open_error no_write_error no_save_error fails_in_open.

(** A server that cannot be reached. *)
Definition E_down : env :=
  mkEnv (fun _ _ _ => ConnectionFailed "Connection timed out")
        no_open_error no_write_error no_save_error fails_in_open.

(** The same, with a ledger file that cannot be written. *)
Definition E_down_readonly : env :=
  mkEnv (fun _ _ _ => ConnectionFailed "Connection timed out")
        no_open_error no_write_error
        (fun _ => Some "[Errno 13] Permission denied") fails_in_open.

(** A healthy server, with a ledger file that cannot be written: the
    resource is served and written to disk, but no call of [save_progress]
    succeeds. *)
Definition E_serving_readonly (body : string) : env :=
  mkEnv (fun _ headers _ => range_server body headers)
        no_open_error no_write_error
        (fun _ => Some "[Errno 13] Permission denied") fails_in_open.

(** A healthy server, with a disk that is full when the ledger is dumped:
    [open] empties the ledger file and [json.dump] fails. *)
Definition E_serving_disk_full (body : string) : env :=
  mkEnv (fun _ headers _ => range_server body headers)
        no_open_error no_write_error
        (fun _ => Some "[Errno 28] No space left on device") (fun _ => true).

Definition example_url : string := "http://a.org/x.zim".
Definition example_dir : string := "/mnt/e/kiwix/archives".
Definition example_path : string := "/mnt/e/kiwix/archives/x.zim".

(** A fresh start: empty ledger, no file. *)
Definition w_fresh : world := mkWorld ∅ ∅ NoFile 0 [].

(** No ledger entry, and a partial file of five bytes at the target path. *)
Definition w_partial : world :=
  mkWorld ∅ {[ example_path := "hello" ]} NoFile 0 [].

(** The two ways in which [download_file] records a failure: lines 87-90
    after the loop, and the handler of the outer [try], lines 93-96. *)
Definition on_exhausted (E : env) (url filename : string) : M (string * option string) :=
  (set_progress url "failed" ;;
   save_progress E ;;
   ret (filename, Some "Download failed after retries"))%py.

Definition on_error (E : env) (url : string) (e : exn) : M (string * option string) :=
  (set_progress url "failed" ;;
   save_progress E ;;
   ret (url, Some (exn_str e)))%py.

(** An event of a call that works with the plan [pl]: its requests carry
    the headers of the plan and its files are opened in the mode of the
    plan. *)
Definition uses_plan (url filepath : string) (pl : plan) (ev : event) : Prop :=
  match ev with
  | EvGet u h _ => u = url /\ h = p_headers pl
  | EvOpen p m => p = filepath /\ m = p_mode pl
  | _ => True
  end.

(** An event of the non-resume path: no request header, mode ['wb']. *)
Definition no_resume (ev : event) : Prop :=
  match ev with
  | EvGet _ h _ => h = ∅
  | EvOpen _ m => m = WB
  | _ => True
  end.


(** A request for one of the given URLs. *)
Definition requests_only (urls : list string) (ev : event) : Prop :=
  match ev with
  | EvGet u _ _ => u ∈ urls
  | _ => True
  end.

(** How many requests for [url] a list of events holds. *)
Definition is_request_for (url : string) (ev : event) : bool :=
  match ev with
  | EvGet u _ _ => bool_decide (u = url)
  | _ => false
  end.

Definition requests_for (url : string) (evs : list event) : nat :=
  length (List.filter (is_request_for url) evs).

(** The attempts and the pauses of a trace. *)
Inductive sched_ev : Type :=
  | Attempt
  | Backoff (seconds : Z).

#[global] Instance sched_ev_eq_dec : EqDecision sched_ev.
Proof. solve_decision. Defined.

Fixpoint sched_of (evs : list event) : list sched_ev :=
  match evs with
  | [] => []
  | EvGet _ _ _ :: rest => Attempt :: sched_of rest
  | EvSleep n :: rest => Backoff n :: sched_of rest
  | _ :: rest => sched_of rest
  end.

(** Failed attempts [first], [first + 1], ..., each followed by its pause. *)
Fixpoint backoff_schedule (first n : nat) : list sched_ev :=
  match n with
  | O => []
  | Datatypes.S n' =>
      Attempt :: Backoff (2 ^ Z.of_nat first) :: backoff_schedule (Datatypes.S first) n'
  end.

(** The world after [open(filepath, mode)] succeeded. *)
Definition opened (w : world) (filepath : string) (mode : open_mode) : world :=
  mkWorld (progress w)
          (<[filepath := match mode with
                         | WB => ""
                         | AB => default "" (files w !! filepath)
                         end]> (files w))
          (persisted w) (saves w) (trace w ++ [EvOpen filepath mode]).

(** An attempt that ends in a [requests.RequestException]: no connection, a
    timeout, an error status, or a stream that breaks. *)
Definition attempt_fails (r : response) : Prop :=
  match r with
  | ConnectionFailed _ | BadStatus _ => True
  | Streaming cl _ (BrokenStream _) => forall text, cl <> BadContentLength text
  | Streaming _ _ EndOfBody => False
  end.

(** An attempt whose response is accepted and streamed to its end. *)
Definition attempt_succeeds (r : response) : Prop :=
  match r with
  | Streaming cl _ EndOfBody => forall text, cl <> BadContentLength text
  | _ => False
  end.

(** No [open] and no [write] of a target file fails. *)
Definition disk_ok (E : env) : Prop :=
  (forall attempt path mode, open_error E attempt path mode = None)
  /\ (forall attempt k, write_error E attempt k = None).

Definition count_attempts (l : list sched_ev) : nat :=
  length (filter (fun ev => ev = Attempt) l).

(** [m] only appends events that satisfy [P] to the trace. *)
Definition emits {A} (P : event -> Prop) (m : M A) : Prop :=
  forall w r w', m w = (r, w') ->
    exists evs, trace w' = (trace w ++ evs)%list /\ Forall P evs.

(** [m] leaves the ledger entries of all URLs but [url] as they are. *)
Definition frames {A} (url : string) (m : M A) : Prop :=
  forall w r w', m w = (r, w') ->
    forall u, u <> url -> progress w' !! u = progress w !! u.



(** The ledger that the next run starts from, as [load_progress] reads
    it from the file: empty when there is no file, the ledger last dumped,
    and none when the file is damaged, which makes [load_progress] raise. *)
Definition loaded_ledger (file : progress_file) : option (gmap string string) :=
  match file with
  | NoFile => Some ∅
  | Saved ledger => Some ledger
  | Damaged => None
  end.

(** The characters of a progress file: printable ASCII and the line feed. *)
Definition is_file_char (c : ascii) : bool :=
  ((32 <=? ascii_code c) && (ascii_code c <=? 126)) || Ascii.eqb c LF.

(** A text of ASCII characters. *)
Definition is_ascii_text (s : string) : bool :=
  str_forallb (fun c => ascii_code c <? 128) s.

(** An item of the ledger as a member of a JSON object. *)
Definition string_member (kv : string * string) : string * json :=
  (fst kv, JString (snd kv)).

(** A text without line break. *)
Definition no_breaks (s : string) : bool :=
  str_forallb (fun c => negb (Ascii.eqb c LF) && negb (Ascii.eqb c CR)) s.

(** A file of URLs as a user writes it: on each line one entry, a run of
    characters from [!] to [~] that may be empty, with spaces and tabs
    before and after it; the lines but the last closed by one and the same
    line ending. *)
Definition is_blank (c : ascii) : bool := Ascii.eqb c " " || Ascii.eqb c (chr 9).

Definition is_visible (c : ascii) : bool := (33 <=? ascii_code c) && (ascii_code c <=? 126).

Record row : Type := mkRow { before : string; entry : string; after : string }.

Definition well_formed (r : row) : bool :=
  str_forallb is_blank (before r) && str_forallb is_visible (entry r)
  && str_forallb is_blank (after r).

Definition row_text (r : row) : string := before r +:+ entry r +:+ after r.

Fixpoint file_text (eol : string) (rows : list row) (last : row) : string :=
  match rows with
  | [] => row_text last
  | r :: rows' => row_text r +:+ eol +:+ file_text eol rows' last
  end.

Definition line_endings : list string :=
  [String LF EmptyString; String CR (String LF EmptyString); String CR EmptyString].

(** [m] leaves all files but the one at [path] as they are. *)
Definition frames_files {A} (path : string) (m : M A) : Prop :=
  forall w r w', m w = (r, w') ->
    forall p, p <> path -> files w' !! p = files w !! p.

(** The pauses of a schedule, added up. *)
Fixpoint total_backoff (l : list sched_ev) : Z :=
  match l with
  | [] => 0
  | Attempt :: rest => total_backoff rest
  | Backoff n :: rest => n + total_backoff rest
  end.

(** * Properties *)

Local Open Scope list_scope.

(** ** Strings and paths *)

Lemma str_find_ge c s : -1 <= str_find c s.
Proof.
  induction s as [|d rest IH]; simpl; [lia|].
  destruct (Ascii.eqb c d); [lia|].
  destruct (str_find c rest <? 0) eqn:Hlt; lia.
Qed.

Lemma str_rfind_ge c s : -1 <= str_rfind c s.
Proof.
  induction s as [|d rest IH]; simpl; [lia|].
  destruct (0 <=? str_rfind c rest) eqn:Hle; [lia|].
  destruct (Ascii.eqb c d); lia.
Qed.

Lemma str_rfind_neg_find c s : str_rfind c s < 0 -> str_find c s < 0.
Proof.
  induction s as [|d rest IH]; simpl; [lia|].
  destruct (0 <=? str_rfind c rest) eqn:Hle.
  - apply Z.leb_le in Hle. lia.
  - apply Z.leb_gt in Hle. specialize (IH Hle).
    destruct (Ascii.eqb c d); [lia|].
    intros _. destruct (str_find c rest <? 0) eqn:Hlt; [lia|].
    apply Z.ltb_ge in Hlt. lia.
Qed.

Lemma basename_cons_later d rest :
  0 <= str_rfind "/" rest -> basename (String d rest) = basename rest.
Proof.
  intros H. unfold basename, slice_from. cbn [str_rfind].
  apply Z.leb_le in H as Hb. rewrite Hb.
  replace (Z.to_nat (str_rfind "/" rest + 1 + 1))
    with (Datatypes.S (Z.to_nat (str_rfind "/" rest + 1))) by lia.
  reflexivity.
Qed.

(** The last segment of a path holds no slash. *)
Lemma basename_no_slash p : str_contains "/" (basename p) = false.
Proof.
  induction p as [|d rest IH]; [reflexivity|].
  destruct (0 <=? str_rfind "/" rest) eqn:Hle.
  - apply Z.leb_le in Hle. rewrite basename_cons_later; auto.
  - apply Z.leb_gt in Hle.
    pose proof (str_rfind_neg_find _ _ Hle) as Hfind.
    unfold basename, slice_from. cbn [str_rfind].
    apply Z.leb_gt in Hle as Hb. rewrite Hb.
    destruct (Ascii.eqb "/" d) eqn:Hd.
    + change (Z.to_nat (0 + 1)) with 1%nat. cbn [str_drop].
      unfold str_contains. apply Z.leb_gt. exact Hfind.
    + change (Z.to_nat (-1 + 1)) with 0%nat. cbn [str_drop].
      unfold str_contains. cbn [str_find]. rewrite Hd.
      apply Z.ltb_lt in Hfind. rewrite Hfind. reflexivity.
Qed.

Lemma no_slash_not_startswith f :
  str_contains "/" f = false -> str_startswith_slash f = false.
Proof.
  destruct f as [|c r]; [reflexivity|].
  unfold str_contains, str_startswith_slash. cbn [str_find].
  rewrite Ascii.eqb_sym.
  destruct (Ascii.eqb c "/"); [discriminate|reflexivity].
Qed.

Lemma str_app_inv_head (a x y : string) : a +:+ x = a +:+ y -> x = y.
Proof.
  induction a as [|c a IH]; simpl; [auto|].
  intros H. injection H as H. auto.
Qed.

(** For names that do not start with a slash, joining them to one directory
    keeps them apart. *)
Lemma path_join_inj dir f g :
  str_startswith_slash f = false -> str_startswith_slash g = false ->
  path_join dir f = path_join dir g -> f = g.
Proof.
  intros Hf Hg. unfold path_join. rewrite Hf, Hg.
  destruct (negb (str_nonempty dir) || str_endswith_slash dir).
  - apply str_app_inv_head.
  - intros H. apply str_app_inv_head in H. simpl in H. now injection H.
Qed.

(** ** MD5 *)

Example md5_empty : MD5.hexdigest "" = "d41d8cd98f00b204e9800998ecf8427e".
Proof. vm_compute. reflexivity. Qed.

Example md5_abc : MD5.hexdigest "abc" = "900150983cd24fb0d6963f7d28e17f72".
Proof. vm_compute. reflexivity. Qed.

(** A message of more than one block. *)
Example md5_two_blocks :
  MD5.hexdigest
    "12345678901234567890123456789012345678901234567890123456789012345678901234567890"
  = "57edf4a22be3c955ac49da2e2107b67a".
Proof. vm_compute. reflexivity. Qed.

Lemma hex_digit_is_hex x : is_hex_char (MD5.hex_digit x) = true.
Proof.
  unfold MD5.hex_digit.
  generalize (Z.to_nat x) as n. intros n.
  do 16 (destruct n as [|n]; [reflexivity|]).
  simpl. destruct n; reflexivity.
Qed.

(** The first eight characters of a digest are eight hexadecimal digits. *)
Lemma hexdigest_prefix s :
  String.length (slice_to 8 (MD5.hexdigest s)) = 8%nat
  /\ str_forallb is_hex_char (slice_to 8 (MD5.hexdigest s)) = true.
Proof.
  unfold MD5.hexdigest, MD5.digest.
  generalize (fold_left MD5.process_block
    (MD5.blocks
       (length (MD5.words_of_bytes (length (MD5.pad (map ascii_code (list_ascii_of_string s))))
                  (MD5.pad (map ascii_code (list_ascii_of_string s)))))
       (MD5.words_of_bytes (length (MD5.pad (map ascii_code (list_ascii_of_string s))))
          (MD5.pad (map ascii_code (list_ascii_of_string s))))) MD5.init) as st.
  intros st. unfold slice_to. cbn [MD5.word_bytes map seq app MD5.hex_of_bytes].
  replace (Z.to_nat 8) with 8%nat by reflexivity.
  cbn [str_take String.length str_forallb].
  split; [reflexivity|].
  rewrite !hex_digit_is_hex. reflexivity.
Qed.

(** ** [get_filename_from_url] *)

Example filename_of_path :
  get_filename_from_url "http://a.org/dir/x.zim?dl=1#top" = Return "x.zim".
Proof. vm_compute. reflexivity. Qed.

Example filename_without_params :
  get_filename_from_url "HTTP://A/b;c;d" = Return "b".
Proof. vm_compute. reflexivity. Qed.

Example filename_fallback :
  get_filename_from_url "https://example.com/" = Return "unnamed_file_182ccedb".
Proof. vm_compute. reflexivity. Qed.

Example filename_fallback_no_path :
  get_filename_from_url "https://example.com" = Return "unnamed_file_c984d06a".
Proof. vm_compute. reflexivity. Qed.

Example filename_invalid_url :
  get_filename_from_url "http://[::1/x" = Raise (ValueError "Invalid IPv6 URL").
Proof. vm_compute. reflexivity. Qed.

Lemma str_nonempty_true s : str_nonempty s = true <-> s <> "".
Proof. destruct s; simpl; split; congruence. Qed.

(** C10: [get_filename_from_url] depends on the text of the URL alone.  When
    the path component that [urlparse] yields has a non-empty last segment
    the result is that segment; when its basename is empty the result is
    [unnamed_file_] followed by the first eight hexadecimal digits of the MD5
    digest of the URL text, a non-empty name that is the same on every run. *)
Theorem get_filename_from_url_spec (url path : string) :
  urlparse_path url = Return path ->
  (basename path <> "" -> get_filename_from_url url = Return (basename path))
  /\ (basename path = "" ->
      exists h,
        get_filename_from_url url = Return ("unnamed_file_" +:+ h)
        /\ h = slice_to 8 (MD5.hexdigest url)
        /\ String.length h = 8%nat
        /\ str_forallb is_hex_char h = true
        /\ "unnamed_file_" +:+ h <> "").
Proof.
  intros Hpath. unfold get_filename_from_url. rewrite Hpath. simpl result_bind.
  split.
  - intros Hne. apply str_nonempty_true in Hne. now rewrite Hne.
  - intros He. rewrite He. simpl str_nonempty.
    exists (slice_to 8 (MD5.hexdigest url)).
    destruct (hexdigest_prefix url) as [Hlen Hhex].
    repeat split; auto.
Qed.

Lemma get_filename_from_url_spec_witness :
  urlparse_path "https://example.com/" = Return "/"
  /\ get_filename_from_url "https://example.com/" = Return "unnamed_file_182ccedb"
  /\ urlparse_path "http://a.org/dir/x.zim?dl=1#top" = Return "/dir/x.zim"
  /\ get_filename_from_url "http://a.org/dir/x.zim?dl=1#top" = Return "x.zim".
Proof.
  assert (H1 : urlparse_path "https://example.com/" = Return "/") by (vm_compute; reflexivity).
  assert (H2 : urlparse_path "http://a.org/dir/x.zim?dl=1#top" = Return "/dir/x.zim")
    by (vm_compute; reflexivity).
  split; [exact H1|]. split.
  - destruct (get_filename_from_url_spec _ _ H1) as [_ Hb].
    destruct (Hb eq_refl) as (h & Hf & Hh & _). rewrite Hf, Hh. vm_compute. reflexivity.
  - split; [exact H2|].
    destruct (get_filename_from_url_spec _ _ H2) as [Ha _].
    rewrite Ha; [reflexivity | vm_compute; discriminate].
Defined.

Lemma filename_not_startswith_slash url f :
  get_filename_from_url url = Return f -> str_startswith_slash f = false.
Proof.
  unfold get_filename_from_url.
  destruct (urlparse_path url) as [path|e]; simpl; [|discriminate].
  destruct (str_nonempty (basename path)) eqn:Hne; intros H; injection H as <-.
  - apply no_slash_not_startswith, basename_no_slash.
  - reflexivity.
Qed.

Example same_name_different_hosts :
  target_path "/mnt/e/kiwix/archives" "http://a.org/x.zim"
  = target_path "/mnt/e/kiwix/archives" "http://b.org/x.zim".
Proof. vm_compute. reflexivity. Qed.

(** C9, as stated, fails: with an empty ledger both copies of a URL that
    occurs twice in the input are submitted, and they write the same path. *)
Lemma duplicate_tasks_share_path :
  remaining_urls ["http://a.org/x.zim"; "http://a.org/x.zim"] ∅
    = ["http://a.org/x.zim"; "http://a.org/x.zim"]
  /\ ~ tasks_target_distinct_paths "/mnt/e/kiwix/archives"
        (remaining_urls ["http://a.org/x.zim"; "http://a.org/x.zim"] ∅).
Proof.
  assert (H : remaining_urls ["http://a.org/x.zim"; "http://a.org/x.zim"] ∅
              = ["http://a.org/x.zim"; "http://a.org/x.zim"])
    by (vm_compute; reflexivity).
  split; [exact H|]. rewrite H. intros Hclaim.
  apply (Hclaim 0%nat 1%nat "http://a.org/x.zim" "http://a.org/x.zim");
    [discriminate | reflexivity | reflexivity | reflexivity].
Qed.

(** C9, amended: the path a task writes is determined by the download
    directory and the file name derived from its URL, and two tasks write the
    same path exactly when their URLs derive the same file name. *)
Theorem target_path_same_iff_same_filename (download_dir u v fu fv : string) :
  get_filename_from_url u = Return fu ->
  get_filename_from_url v = Return fv ->
  target_path download_dir u = Return (path_join download_dir fu)
  /\ target_path download_dir v = Return (path_join download_dir fv)
  /\ (target_path download_dir u = target_path download_dir v <-> fu = fv).
Proof.
  intros Hu Hv. unfold target_path. rewrite Hu, Hv. simpl.
  split; [reflexivity|]. split; [reflexivity|]. split.
  - intros H. injection H as H.
    eapply path_join_inj; eauto using filename_not_startswith_slash.
  - intros ->. reflexivity.
Qed.

Lemma target_path_same_iff_same_filename_witness :
  get_filename_from_url "http://a.org/x.zim" = Return "x.zim"
  /\ get_filename_from_url "http://b.org/x.zim" = Return "x.zim"
  /\ target_path "/mnt/e/kiwix/archives" "http://a.org/x.zim"
     = target_path "/mnt/e/kiwix/archives" "http://b.org/x.zim".
Proof.
  assert (Ha : get_filename_from_url "http://a.org/x.zim" = Return "x.zim")
    by (vm_compute; reflexivity).
  assert (Hb : get_filename_from_url "http://b.org/x.zim" = Return "x.zim")
    by (vm_compute; reflexivity).
  split; [exact Ha|]. split; [exact Hb|].
  apply (target_path_same_iff_same_filename "/mnt/e/kiwix/archives" _ _ _ _ Ha Hb).
  reflexivity.
Defined.

(** ** The progress ledger *)

Example load_ledger :
  load_progress
    (Some (with_dquotes "{ 'http://a.org/x.zim': 'completed', 'http://a.org/y.zim': 'failed' }"))
  = Return (JObject [("http://a.org/x.zim", JString "completed");
                     ("http://a.org/y.zim", JString "failed")]).
Proof. vm_compute. reflexivity. Qed.

Example load_empty_file : load_progress (Some "") = Raise (JSONDecodeError "Expecting value").
Proof. vm_compute. reflexivity. Qed.

Example load_trailing_comma :
  load_progress (Some (with_dquotes "{'a': 'completed',}"))
  = Raise (JSONDecodeError "Expecting value").
Proof. vm_compute. reflexivity. Qed.

Example load_extra_data :
  load_progress (Some "{} {}") = Raise (JSONDecodeError "Extra data").
Proof. vm_compute. reflexivity. Qed.

(** C6, as stated, fails: a persisted file cut short in the middle of a dump
    makes [load_progress] raise instead of returning an empty mapping. *)
Lemma load_progress_malformed_raises :
  load_progress (Some (with_dquotes "{ 'http://a.org/x.zim': 'compl"))
    = Raise (JSONDecodeError "Expecting value")
  /\ load_progress (Some (with_dquotes "{ 'http://a.org/x.zim': 'compl"))
    <> Return (JObject []).
Proof. split; [vm_compute; reflexivity | vm_compute; discriminate]. Qed.

(** C6, amended: [load_progress] returns an empty mapping when the persisted
    file is missing; when the file exists it returns what [json.load] makes
    of its text, and a text that [json.load] rejects makes [load_progress]
    raise that error, not return an empty mapping. *)
Theorem load_progress_spec :
  load_progress None = Return (JObject [])
  /\ ledger_of (JObject []) = Some ∅
  /\ (forall text, load_progress (Some text) = json_loads text)
  /\ (forall text e, json_loads text = Raise e ->
        load_progress (Some text) = Raise e
        /\ load_progress (Some text) <> Return (JObject [])).
Proof.
  split; [reflexivity|]. split; [reflexivity|]. split; [reflexivity|].
  intros text e H. simpl. rewrite H. split; [reflexivity | discriminate].
Qed.

Lemma load_progress_spec_witness :
  json_loads "{" = Raise (JSONDecodeError "Expecting value")
  /\ load_progress (Some "{") = Raise (JSONDecodeError "Expecting value").
Proof.
  assert (H : json_loads "{" = Raise (JSONDecodeError "Expecting value"))
    by (vm_compute; reflexivity).
  split; [exact H|].
  destruct load_progress_spec as (_ & _ & _ & Hraise).
  exact (proj1 (Hraise _ _ H)).
Defined.

(** ** The pending list *)

Lemma pending_dom (progress : gmap string string) (url : string) :
  (url ∉ dom progress \/ progress !! url = Some "failed") <-> pending progress url.
Proof.
  unfold pending. rewrite not_elem_of_dom. reflexivity.
Qed.

Lemma remaining_urls_cons (progress : gmap string string) url urls :
  remaining_urls (url :: urls) progress
  = if decide (url ∉ dom progress \/ progress !! url = Some "failed")
    then url :: remaining_urls urls progress
    else remaining_urls urls progress.
Proof. unfold remaining_urls. rewrite filter_cons. reflexivity. Qed.

Lemma occurrences_cons u x l :
  occurrences u (x :: l) = if decide (x = u) then Datatypes.S (occurrences u l) else occurrences u l.
Proof.
  unfold occurrences. rewrite filter_cons. destruct (decide (x = u)); reflexivity.
Qed.

Lemma remaining_urls_occurrences (progress : gmap string string) urls url :
  occurrences url (remaining_urls urls progress)
  = if decide (pending progress url) then occurrences url urls else 0%nat.
Proof.
  induction urls as [|x l IH].
  - destruct (decide (pending progress url)); reflexivity.
  - rewrite remaining_urls_cons, (occurrences_cons url x l).
    destruct (decide (x ∉ dom progress \/ progress !! x = Some "failed")) as [Hp|Hp];
      rewrite pending_dom in Hp.
    + rewrite occurrences_cons, IH.
      destruct (decide (x = url)) as [->|]; [|reflexivity].
      destruct (decide (pending progress url)); [reflexivity | contradiction].
    + rewrite IH. destruct (decide (x = url)) as [->|]; [|reflexivity].
      destruct (decide (pending progress url)); [contradiction | reflexivity].
Qed.

Example remaining_urls_example :
  remaining_urls ["http://a/1"; "http://a/2"; "http://a/3"; "http://a/2"; "http://a/1"]
    {[ "http://a/1" := "completed"; "http://a/2" := "failed" ]}
  = ["http://a/2"; "http://a/3"; "http://a/2"].
Proof. vm_compute. reflexivity. Qed.

(** ** The events of a transfer *)

Section Emits.
Context {A B : Type} (P : event -> Prop).

Lemma emits_nothing (m : M A) :
  (forall w r w', m w = (r, w') -> trace w' = trace w) -> emits P m.
Proof.
  intros H w r w' Hm. exists []. rewrite app_nil_r. split; [eauto | constructor].
Qed.

Lemma emits_ret (a : A) : emits P (ret a).
Proof. apply emits_nothing. intros w r w' [= _ <-]. reflexivity. Qed.

Lemma emits_raise (e : exn) : emits P (@raise A e).
Proof. apply emits_nothing. intros w r w' [= _ <-]. reflexivity. Qed.

Lemma emits_lift (r0 : result A) : emits P (lift r0).
Proof. apply emits_nothing. intros w r w' [= _ <-]. reflexivity. Qed.

Lemma emits_bind (m : M A) (k : A -> M B) :
  emits P m -> (forall a, emits P (k a)) -> emits P (bind m k).
Proof.
  intros Hm Hk w r w' Hrun. unfold bind in Hrun.
  destruct (m w) as [[a|e] w1] eqn:Hmw.
  - destruct (Hm _ _ _ Hmw) as (evs1 & Ht1 & HP1).
    destruct (Hk a _ _ _ Hrun) as (evs2 & Ht2 & HP2).
    exists (evs1 ++ evs2). rewrite Ht2, Ht1, app_assoc.
    split; [reflexivity | apply Forall_app; auto].
  - injection Hrun as <- <-. eauto.
Qed.

Lemma emits_try (m : M A) (catches : exn -> bool) (h : exn -> M A) :
  emits P m -> (forall e, emits P (h e)) -> emits P (try_except m catches h).
Proof.
  intros Hm Hh w r w' Hrun. unfold try_except in Hrun.
  destruct (m w) as [[a|e] w1] eqn:Hmw.
  - injection Hrun as <- <-. eauto.
  - destruct (catches e).
    + destruct (Hm _ _ _ Hmw) as (evs1 & Ht1 & HP1).
      destruct (Hh e _ _ _ Hrun) as (evs2 & Ht2 & HP2).
      exists (evs1 ++ evs2). rewrite Ht2, Ht1, app_assoc.
      split; [reflexivity | apply Forall_app; auto].
    + injection Hrun as <- <-. eauto.
Qed.
End Emits.

Lemma emits_get_world P : emits P get_world.
Proof. apply emits_nothing. intros w r w' [= _ <-]. reflexivity. Qed.

Lemma emits_set_progress P url status : emits P (set_progress url status).
Proof. apply emits_nothing. intros w r w' [= _ <-]. reflexivity. Qed.

Lemma emits_set_file P path content : emits P (set_file path content).
Proof. apply emits_nothing. intros w r w' [= _ <-]. reflexivity. Qed.

Lemma emits_emit (P : event -> Prop) ev : P ev -> emits P (emit ev).
Proof.
  intros HP w r w' [= _ <-]. exists [ev]. split; [reflexivity | repeat constructor; auto].
Qed.

Lemma emits_save (P : event -> Prop) E :
  (forall snapshot, P (EvSave snapshot)) -> emits P (save_progress E).
Proof.
  intros HP w r w' Hrun. unfold save_progress in Hrun.
  destruct (save_error E (saves w)); injection Hrun as <- <-; simpl.
  - exists []. rewrite app_nil_r. split; [reflexivity | constructor].
  - eexists. split; [reflexivity | repeat constructor; auto].
Qed.

Create HintDb emits.
#[local] Hint Resolve emits_ret emits_raise emits_lift emits_get_world
  emits_set_progress emits_set_file : emits.

Ltac emits_step :=
  first [ apply emits_bind; [|intros ?]
        | apply emits_try; [|intros ?]
        | apply emits_emit
        | apply emits_save; intros ?
        | solve [auto with emits] ].

Lemma emits_write_chunks P E attempt filepath chunks k :
  emits P (write_chunks E attempt filepath chunks k).
Proof.
  revert k. induction chunks as [|chunk rest IH]; intros k; simpl.
  - auto with emits.
  - apply emits_bind; [|intros _; apply IH].
    destruct (str_nonempty chunk); [|auto with emits].
    destruct (write_error E attempt k); [auto with emits|].
    repeat emits_step.
Qed.

Lemma emits_open_file (P : event -> Prop) E attempt filepath mode :
  P (EvOpen filepath mode) -> emits P (open_file E attempt filepath mode).
Proof.
  intros HP. unfold open_file.
  apply emits_bind; [apply emits_emit; exact HP | intros _].
  destruct (open_error E attempt filepath mode); [auto with emits|].
  apply emits_bind; [auto with emits | intros w0].
  destruct mode; auto with emits.
Qed.

Lemma emits_attempt_body (P : event -> Prop) E url filename filepath pl attempt :
  (forall k, P (EvGet url (p_headers pl) k)) ->
  P (EvOpen filepath (p_mode pl)) ->
  (forall snapshot, P (EvSave snapshot)) ->
  emits P (attempt_body E url filename filepath pl attempt).
Proof.
  intros Hget Hopen Hsave. unfold attempt_body.
  apply emits_bind; [auto with emits | intros w0].
  apply emits_bind; [apply emits_emit, Hget | intros _].
  destruct (http_get E url (p_headers pl) attempt) as [msg|msg|cl chunks ending];
    [auto with emits | auto with emits |].
  apply emits_bind; [auto with emits | intros n].
  apply emits_bind; [apply emits_open_file, Hopen | intros _].
  apply emits_bind; [apply emits_write_chunks | intros _].
  destruct ending; [|auto with emits].
  apply emits_bind; [auto with emits | intros _].
  apply emits_bind; [apply emits_save, Hsave | intros _].
  auto with emits.
Qed.

Lemma emits_retry_loop (P : event -> Prop) E url filename filepath pl attempts :
  (forall k, P (EvGet url (p_headers pl) k)) ->
  P (EvOpen filepath (p_mode pl)) ->
  (forall snapshot, P (EvSave snapshot)) ->
  (forall n, P (EvSleep n)) ->
  emits P (retry_loop E url filename filepath pl attempts).
Proof.
  intros Hget Hopen Hsave Hsleep.
  induction attempts as [|attempt rest IH]; simpl; [auto with emits|].
  apply emits_bind.
  - apply emits_try.
    + apply emits_bind; [apply emits_attempt_body; auto | intros ?; auto with emits].
    + intros e. apply emits_bind; [apply emits_emit, Hsleep | intros _; auto with emits].
  - intros [res|]; [auto with emits | exact IH].
Qed.

(** The handler of the outer [try] only saves. *)
Lemma emits_handler (P : event -> Prop) E url e :
  (forall snapshot, P (EvSave snapshot)) ->
  emits P (set_progress url "failed" ;; save_progress E ;; ret (url, Some (exn_str e))).
Proof.
  intros Hsave.
  apply emits_bind; [auto with emits | intros _].
  apply emits_bind; [apply emits_save, Hsave | intros _; auto with emits].
Qed.

(** Every request and every [open] of a call of [download_file] uses the
    plan computed from the world at the start of the call. *)
Lemma download_file_uses_plan E url download_dir filename w r w' :
  get_filename_from_url url = Return filename ->
  download_file E url download_dir w = (r, w') ->
  exists evs,
    trace w' = (trace w ++ evs)%list
    /\ Forall (uses_plan url (path_join download_dir filename)
                 (transfer_plan (progress w) (files w) url (path_join download_dir filename)))
              evs.
Proof.
  intros Hname Hrun.
  set (filepath := path_join download_dir filename).
  set (pl := transfer_plan (progress w) (files w) url filepath).
  assert (Hemits : emits (uses_plan url filepath pl)
    (try_except
       (r <- retry_loop E url filename filepath pl (seq 0 RETRY_COUNT) ;;
        match r with
        | Some res => ret res
        | None =>
            set_progress url "failed" ;;
            save_progress E ;;
            ret (filename, Some "Download failed after retries")
        end)
       (fun _ => true)
       (fun e =>
          set_progress url "failed" ;;
          save_progress E ;;
          ret (url, Some (exn_str e))))).
  { apply emits_try.
    - apply emits_bind.
      + apply emits_retry_loop; simpl; auto.
      + intros [res|]; [auto with emits|].
        apply emits_bind; [auto with emits | intros _].
        apply emits_bind; [apply emits_save; simpl; auto | intros _; auto with emits].
    - intros e. apply emits_handler. simpl. auto. }
  apply (Hemits w r w'). rewrite <- Hrun.
  unfold download_file, try_except, bind, lift, get_world. rewrite Hname.
  reflexivity.
Qed.

(** All requests of a call of [download_file] are for its URL. *)
Lemma download_file_requests_url E url download_dir :
  emits (requests_only [url]) (download_file E url download_dir).
Proof.
  intros w r w' Hrun.
  destruct (get_filename_from_url url) as [filename|e] eqn:Hname.
  - destruct (download_file_uses_plan _ _ _ _ _ _ _ Hname Hrun) as (evs & Ht & HP).
    exists evs. split; [exact Ht|].
    eapply Forall_impl; [exact HP|].
    intros [u h k| | |]; simpl; auto. intros [-> _]. apply list_elem_of_singleton. reflexivity.
  - assert (Hh : emits (requests_only [url])
       (set_progress url "failed" ;; save_progress E ;; ret (url, Some (exn_str e))))
      by (apply emits_handler; simpl; auto).
    apply (Hh w r w'). rewrite <- Hrun.
    unfold download_file, try_except, bind, lift. rewrite Hname. reflexivity.
Qed.

(** ** What one attempt and the retry loop do *)

Lemma str_app_cons (x : ascii) (a b : string) : String x a +:+ b = String x (a +:+ b).
Proof. reflexivity. Qed.

Lemma str_app_assoc (a b c : string) : (a +:+ b) +:+ c = a +:+ (b +:+ c).
Proof.
  induction a as [|x a IH]; [reflexivity|].
  now rewrite !str_app_cons, IH.
Qed.

Lemma str_app_empty_r (a : string) : a +:+ "" = a.
Proof.
  induction a as [|x a IH]; [reflexivity|].
  now rewrite str_app_cons, IH.
Qed.

Lemma str_nonempty_false s : str_nonempty s = false -> s = "".
Proof. destruct s; [reflexivity | discriminate]. Qed.

(** Writing the chunks of a body touches nothing but the target file, to
    which it appends the body; it can only fail with an [OSError]. *)
Lemma write_chunks_spec E attempt filepath chunks k w r w' :
  write_chunks E attempt filepath chunks k w = (r, w') ->
  progress w' = progress w /\ persisted w' = persisted w
  /\ saves w' = saves w /\ trace w' = trace w
  /\ match r with
     | Return _ =>
         forall c, files w !! filepath = Some c ->
                   files w' !! filepath = Some (c +:+ body_of chunks)
     | Raise e => is_request_exception e = false
     end.
Proof.
  revert k w. induction chunks as [|chunk rest IH]; intros k w Hrun; simpl in Hrun.
  - injection Hrun as <- <-. repeat split; auto.
    intros c Hc. simpl. now rewrite str_app_empty_r.
  - unfold bind at 1 in Hrun.
    destruct (str_nonempty chunk) eqn:Hne.
    + destruct (write_error E attempt k) as [msg|].
      * injection Hrun as <- <-. repeat split; auto.
      * unfold bind, get_world, set_file in Hrun. simpl in Hrun.
        apply IH in Hrun as (Hp & Hs & Hn & Ht & Hr). simpl in *.
        repeat split; auto.
        destruct r as [u|e]; [|exact Hr].
        intros c Hc. rewrite Hc in Hr. simpl in Hr.
        rewrite (Hr (c +:+ chunk)); [|apply lookup_insert_eq].
        now rewrite str_app_assoc.
    + apply str_nonempty_false in Hne. subst chunk.
      unfold ret in Hrun. apply IH in Hrun as (Hp & Hs & Hn & Ht & Hr).
      repeat split; auto.
Qed.

Lemma write_chunks_returns E attempt filepath chunks k w :
  (forall j, write_error E attempt j = None) ->
  exists w', write_chunks E attempt filepath chunks k w = (Return tt, w').
Proof.
  intros Hok. revert k w. induction chunks as [|chunk rest IH]; intros k w; simpl.
  - eexists. reflexivity.
  - unfold bind at 1. destruct (str_nonempty chunk).
    + rewrite Hok. unfold bind, get_world, set_file. simpl. apply IH.
    + unfold ret. apply IH.
Qed.

Lemma open_file_run E attempt filepath mode w :
  open_file E attempt filepath mode w
  = match open_error E attempt filepath mode with
    | Some msg =>
        (Raise (OSError msg),
         mkWorld (progress w) (files w) (persisted w) (saves w)
                 (trace w ++ [EvOpen filepath mode]))
    | None => (Return tt, opened w filepath mode)
    end.
Proof.
  unfold open_file, bind, emit, raise, get_world, set_file, opened. simpl.
  destruct (open_error E attempt filepath mode); [reflexivity|].
  destruct mode; reflexivity.
Qed.

(** One attempt: when it returns, the body was streamed to its end, the URL
    is recorded [completed] and the ledger is persisted; when it raises a
    request exception the ledger is untouched. *)
Lemma attempt_body_spec E url filename filepath pl attempt w r w' :
  attempt_body E url filename filepath pl attempt w = (r, w') ->
  match r with
  | Return res =>
      res = (filename, None)
      /\ progress w' = <[url := "completed"]> (progress w)
      /\ persisted w' = Saved (progress w')
      /\ exists cl chunks,
           http_get E url (p_headers pl) attempt = Streaming cl chunks EndOfBody
           /\ (p_mode pl = WB -> files w' !! filepath = Some (body_of chunks))
  | Raise e =>
      is_request_exception e = true ->
      progress w' = progress w /\ persisted w' = persisted w /\ saves w' = saves w
  end.
Proof.
  unfold attempt_body. unfold bind at 1. unfold get_world.
  unfold bind at 1. unfold emit at 1.
  set (w1 := mkWorld (progress w) (files w) (persisted w) (saves w)
                     (trace w ++ [EvGet url (p_headers pl) (getsize <$> files w !! filepath)])).
  destruct (http_get E url (p_headers pl) attempt) as [msg|msg|cl chunks ending] eqn:Hresp.
  - intros [= <- <-]. intros _. auto.
  - intros [= <- <-]. intros _. auto.
  - unfold bind at 1. unfold lift.
    destruct (content_length_int cl) as [n|e0] eqn:Hcl.
    2:{ intros [= <- <-]. destruct cl; try discriminate. injection Hcl as <-. discriminate. }
    unfold bind at 1. rewrite open_file_run.
    destruct (open_error E attempt filepath (p_mode pl)) as [msg|].
    { intros [= <- <-]. discriminate. }
    unfold bind at 1.
    destruct (write_chunks E attempt filepath chunks 0 (opened w1 filepath (p_mode pl)))
      as [[u|e1] w2] eqn:Hwrite.
    2:{ intros [= <- <-]. apply write_chunks_spec in Hwrite as (_ & _ & _ & _ & Hne).
        rewrite Hne. discriminate. }
    apply write_chunks_spec in Hwrite as (Hp & Hs & Hn & Ht & Hfile).
    destruct ending as [|msg].
    + unfold bind at 1. unfold set_progress at 1. unfold bind, save_progress. simpl.
      destruct (save_error E (saves w2)) as [msg|].
      { intros [= <- <-]. discriminate. }
      unfold ret. intros [= <- <-]. simpl.
      rewrite Hp. simpl. repeat split; auto.
      exists cl, chunks. split; [reflexivity|].
      intros Hmode. rewrite Hmode in Hfile.
      apply (Hfile ""). simpl. apply lookup_insert_eq.
    + intros [= <- <-]. intros _. rewrite Hp, Hs, Hn. auto.
Qed.

(** The retry loop: a result comes from an attempt that succeeded; an
    exception that leaves the loop is not a request exception. *)
Lemma retry_loop_spec E url filename filepath pl attempts w r w' :
  retry_loop E url filename filepath pl attempts w = (r, w') ->
  match r with
  | Return (Some res) =>
      res = (filename, None)
      /\ progress w' !! url = Some "completed"
      /\ persisted w' = Saved (progress w')
      /\ exists attempt cl chunks,
           attempt ∈ attempts
           /\ http_get E url (p_headers pl) attempt = Streaming cl chunks EndOfBody
           /\ (p_mode pl = WB -> files w' !! filepath = Some (body_of chunks))
  | Return None => True
  | Raise e => is_request_exception e = false
  end.
Proof.
  revert w. induction attempts as [|attempt rest IH]; intros w; simpl.
  - intros [= <- <-]. exact I.
  - unfold bind at 1. unfold try_except. unfold bind at 1.
    destruct (attempt_body E url filename filepath pl attempt w) as [[res|e] w1] eqn:Hatt.
    + unfold ret. intros [= <- <-].
      apply attempt_body_spec in Hatt as (-> & Hp & Hs & cl & chunks & Hresp & Hfile).
      repeat split; auto.
      * rewrite Hp. apply lookup_insert_eq.
      * exists attempt, cl, chunks. repeat split; auto. apply list_elem_of_here.
    + destruct (is_request_exception e) eqn:Hreq.
      * unfold bind at 1, sleep, emit, ret. intros Hrest.
        apply IH in Hrest. destruct r as [[res|]|e2]; auto.
        destruct Hrest as (-> & Hp & Hs & a & cl & chunks & Hin & Hresp & Hfile).
        repeat split; auto. exists a, cl, chunks. repeat split; auto.
        apply list_elem_of_further. exact Hin.
      * intros [= <- <-]. exact Hreq.
Qed.

Lemma sched_of_app evs1 evs2 : sched_of (evs1 ++ evs2) = sched_of evs1 ++ sched_of evs2.
Proof.
  induction evs1 as [|ev rest IH]; [reflexivity|].
  destruct ev; simpl; rewrite IH; reflexivity.
Qed.

Lemma count_attempts_backoff first n : count_attempts (backoff_schedule first n) = n.
Proof.
  revert first. induction n as [|n IH]; intros first; [reflexivity|].
  unfold count_attempts in *. simpl backoff_schedule.
  rewrite filter_cons_True by reflexivity.
  rewrite filter_cons_False by discriminate.
  simpl. now rewrite IH.
Qed.

Lemma count_attempts_app l1 l2 :
  count_attempts (l1 ++ l2) = (count_attempts l1 + count_attempts l2)%nat.
Proof. unfold count_attempts. now rewrite filter_app, length_app. Qed.

(** A failing attempt raises a request exception after one request and
    leaves the ledger alone. *)
Lemma attempt_body_fails E url filename filepath pl attempt w :
  attempt_fails (http_get E url (p_headers pl) attempt) ->
  disk_ok E ->
  exists msg w' evs,
    attempt_body E url filename filepath pl attempt w = (Raise (RequestException msg), w')
    /\ trace w' = trace w ++ evs /\ sched_of evs = [Attempt]
    /\ progress w' = progress w /\ persisted w' = persisted w /\ saves w' = saves w.
Proof.
  intros Hfail [Hopen Hwrite].
  unfold attempt_body. unfold bind at 1. unfold get_world.
  unfold bind at 1. unfold emit at 1.
  set (w1 := mkWorld (progress w) (files w) (persisted w) (saves w)
                     (trace w ++ [EvGet url (p_headers pl) (getsize <$> files w !! filepath)])).
  destruct (http_get E url (p_headers pl) attempt) as [msg|msg|cl chunks [|msg]];
    simpl in Hfail; try contradiction.
  - exists msg, w1, [EvGet url (p_headers pl) (getsize <$> files w !! filepath)].
    repeat split; reflexivity.
  - exists msg, w1, [EvGet url (p_headers pl) (getsize <$> files w !! filepath)].
    repeat split; reflexivity.
  - unfold bind at 1. unfold lift.
    destruct (content_length_int cl) as [n|e0] eqn:Hcl.
    2:{ destruct cl; try discriminate. exfalso. eapply Hfail. reflexivity. }
    unfold bind at 1. rewrite open_file_run, Hopen.
    unfold bind at 1.
    destruct (write_chunks_returns E attempt filepath chunks 0
                (opened w1 filepath (p_mode pl)) (Hwrite attempt)) as [w2 Hw2].
    rewrite Hw2. apply write_chunks_spec in Hw2 as (Hp & Hs & Hn & Ht & _).
    exists msg, w2,
      [EvGet url (p_headers pl) (getsize <$> files w !! filepath); EvOpen filepath (p_mode pl)].
    split; [reflexivity|]. rewrite Ht, Hp, Hs, Hn. simpl.
    rewrite <- app_assoc. repeat split; reflexivity.
Qed.

(** An attempt whose body is streamed to its end makes one request; it
    returns with the URL recorded [completed] and the ledger persisted,
    unless the write of the ledger fails. *)
Lemma attempt_body_succeeds E url filename filepath pl attempt w :
  attempt_succeeds (http_get E url (p_headers pl) attempt) ->
  disk_ok E ->
  exists r w' evs,
    attempt_body E url filename filepath pl attempt w = (r, w')
    /\ trace w' = trace w ++ evs /\ sched_of evs = [Attempt]
    /\ saves w' = Datatypes.S (saves w)
    /\ match save_error E (saves w) with
       | None =>
           r = Return (filename, None)
           /\ progress w' = <[url := "completed"]> (progress w)
           /\ persisted w' = Saved (progress w')
       | Some msg => r = Raise (OSError msg)
       end.
Proof.
  intros Hsucc [Hopen Hwrite].
  unfold attempt_body. unfold bind at 1. unfold get_world.
  unfold bind at 1. unfold emit at 1.
  set (w1 := mkWorld (progress w) (files w) (persisted w) (saves w)
                     (trace w ++ [EvGet url (p_headers pl) (getsize <$> files w !! filepath)])).
  destruct (http_get E url (p_headers pl) attempt) as [msg|msg|cl chunks [|msg]];
    simpl in Hsucc; try contradiction.
  unfold bind at 1. unfold lift.
  destruct (content_length_int cl) as [n|e0] eqn:Hcl.
  2:{ destruct cl; try discriminate. exfalso. eapply Hsucc. reflexivity. }
  unfold bind at 1. rewrite open_file_run, Hopen.
  unfold bind at 1.
  destruct (write_chunks_returns E attempt filepath chunks 0
              (opened w1 filepath (p_mode pl)) (Hwrite attempt)) as [w2 Hw2].
  rewrite Hw2. apply write_chunks_spec in Hw2 as (Hp & Hs & Hn & Ht & _).
  unfold bind at 1. unfold set_progress at 1. unfold bind, save_progress.
  cbn [progress files persisted saves trace]. rewrite Hn. cbn [opened w1 saves].
  destruct (save_error E (saves w)) as [msg|].
  - eexists _, _, [EvGet url (p_headers pl) (getsize <$> files w !! filepath);
                   EvOpen filepath (p_mode pl)].
    split; [reflexivity|]. cbn [trace saves]. rewrite Ht. cbn [opened w1 trace].
    rewrite <- app_assoc. repeat split; reflexivity.
  - unfold ret.
    eexists _, _, ([EvGet url (p_headers pl) (getsize <$> files w !! filepath);
                    EvOpen filepath (p_mode pl)]
                   ++ [EvSave (<[url := "completed"]> (progress w2))]).
    split; [reflexivity|]. cbn [trace progress persisted saves]. rewrite Ht, Hp.
    cbn [opened w1 trace progress]. rewrite <- !app_assoc. repeat split; reflexivity.
Qed.

(** A run of [k] failing attempts: the loop goes on with the rest of its
    attempts after [k] requests, each followed by its pause. *)
Lemma retry_loop_failing_prefix E url filename filepath pl k :
  disk_ok E ->
  forall first w,
    (forall a, (first <= a < first + k)%nat ->
               attempt_fails (http_get E url (p_headers pl) a)) ->
    exists w1 evs,
      (forall rest,
         retry_loop E url filename filepath pl (seq first k ++ rest) w
         = retry_loop E url filename filepath pl rest w1)
      /\ trace w1 = trace w ++ evs /\ sched_of evs = backoff_schedule first k
      /\ progress w1 = progress w /\ persisted w1 = persisted w /\ saves w1 = saves w.
Proof.
  intros Hdisk. induction k as [|k IH]; intros first w Hfail.
  - exists w, []. rewrite app_nil_r. repeat split; reflexivity.
  - destruct (attempt_body_fails E url filename filepath pl first w) as
      (msg & w0 & evs0 & Hrun & Ht0 & Hs0 & Hp0 & Hd0 & Hn0); [apply Hfail; lia | exact Hdisk |].
    set (w0' := mkWorld (progress w0) (files w0) (persisted w0) (saves w0)
                        (trace w0 ++ [EvSleep (2 ^ Z.of_nat first)])).
    destruct (IH (Datatypes.S first) w0') as (w1 & evs1 & Hloop & Ht1 & Hs1 & Hp1 & Hd1 & Hn1).
    { intros a Ha. apply Hfail. lia. }
    exists w1, (evs0 ++ [EvSleep (2 ^ Z.of_nat first)] ++ evs1). split.
    + intros rest.
      change (seq first (Datatypes.S k) ++ rest) with (first :: (seq (Datatypes.S first) k ++ rest)).
      cbn [retry_loop].
      unfold bind at 1. unfold try_except. unfold bind at 1. rewrite Hrun.
      cbn [is_request_exception].
      unfold bind at 1, sleep, emit, ret. fold w0'. apply Hloop.
    + subst w0'. cbn [trace progress persisted saves] in *.
      rewrite Ht1, Hp1, Hd1, Hn1, Ht0, Hp0, Hd0, Hn0.
      rewrite !sched_of_app, Hs0, Hs1, <- !app_assoc.
      repeat split; reflexivity.
Qed.

(** ** The plan of a transfer *)

Lemma transfer_plan_pending (progress files : gmap string string) url filepath :
  pending progress url -> transfer_plan progress files url filepath = mkPlan ∅ WB 0.
Proof.
  intros [Hnone|Hfailed]; unfold transfer_plan.
  - rewrite (bool_decide_eq_false_2 (url ∈ dom progress)); [reflexivity|].
    now apply not_elem_of_dom.
  - rewrite (bool_decide_eq_false_2 (progress !! url ≠ Some "failed")).
    + now rewrite andb_false_r.
    + intros H. apply H. exact Hfailed.
Qed.

Lemma transfer_plan_resume (progress files : gmap string string) url filepath :
  p_mode (transfer_plan progress files url filepath) = AB
  <-> (exists status, progress !! url = Some status /\ status <> "failed")
      /\ is_Some (files !! filepath).
Proof.
  unfold transfer_plan.
  destruct (bool_decide (url ∈ dom progress)) eqn:Hin;
    [apply bool_decide_eq_true in Hin | apply bool_decide_eq_false in Hin].
  - destruct (bool_decide (progress !! url ≠ Some "failed")) eqn:Hst;
      [apply bool_decide_eq_true in Hst | apply bool_decide_eq_false in Hst].
    + destruct (bool_decide (filepath ∈ dom files)) eqn:Hfile;
        [apply bool_decide_eq_true in Hfile | apply bool_decide_eq_false in Hfile]; simpl.
      * split; [intros _ | reflexivity].
        apply elem_of_dom in Hin as [status Hs]. apply elem_of_dom in Hfile.
        split; [|exact Hfile]. exists status. split; [exact Hs|]. congruence.
      * split; [discriminate|]. intros [_ Hsome]. apply elem_of_dom in Hsome. contradiction.
    + simpl. split; [discriminate|]. intros [(status & Hs & Hne) _].
      exfalso. apply Hst. congruence.
  - simpl. split; [discriminate|]. intros [(status & Hs & _) _].
    exfalso. apply Hin. apply elem_of_dom. eauto.
Qed.

(** C1: the code at the failing input.  The ledger holds no entry for the
    URL and the target file holds five bytes; the call plans no [Range]
    header, mode ['wb'] and offset 0, sends its request without a [Range]
    header while five bytes are on disk, and truncates the file. *)
Theorem partial_file_is_not_resumed :
  progress w_partial !! example_url = None
  /\ files w_partial !! example_path = Some "hello"
  /\ transfer_plan (progress w_partial) (files w_partial) example_url example_path
     = mkPlan ∅ WB 0
  /\ trace (snd (download_file (E_serving "hello world") example_url example_dir w_partial))
     = [EvGet example_url ∅ (Some 5); EvOpen example_path WB;
        EvSave {[ example_url := "completed" ]}]
  /\ fst (download_file (E_serving "hello world") example_url example_dir w_partial)
     = Return ("x.zim", None).
Proof. vm_compute. repeat split; reflexivity. Qed.

(** A [failed] entry does not resume either. *)
Example failed_entry_is_not_resumed :
  transfer_plan {[ example_url := "failed" ]} {[ example_path := "hello" ]}
                example_url example_path
  = mkPlan ∅ WB 0.
Proof. vm_compute. reflexivity. Qed.

(** The only ledgers that make a call resume are those that already hold an
    entry other than [failed] for the URL. *)
Example completed_entry_resumes :
  transfer_plan {[ example_url := "completed" ]} {[ example_path := "hello" ]}
                example_url example_path
  = mkPlan {[ "Range" := "bytes=5-" ]} AB 5.
Proof. vm_compute. reflexivity. Qed.

(** ** [download_file] as a whole *)

Lemma download_file_valid_url E url download_dir filename w :
  get_filename_from_url url = Return filename ->
  download_file E url download_dir w
  = try_except
      (r <- retry_loop E url filename (path_join download_dir filename)
              (transfer_plan (progress w) (files w) url (path_join download_dir filename))
              (seq 0 RETRY_COUNT) ;;
       match r with
       | Some res => ret res
       | None => on_exhausted E url filename
       end)
      (fun _ => true) (on_error E url) w.
Proof.
  intros Hname. unfold download_file, try_except, bind at 1, lift. rewrite Hname.
  reflexivity.
Qed.

Lemma download_file_invalid_url E url download_dir e w :
  get_filename_from_url url = Raise e ->
  download_file E url download_dir w = on_error E url e w.
Proof.
  intros Hname. unfold download_file, try_except, bind at 1, lift. rewrite Hname.
  reflexivity.
Qed.

Lemma on_error_run E url e w :
  on_error E url e w
  = match save_error E (saves w) with
    | Some msg =>
        (Raise (OSError msg),
         mkWorld (<[url := "failed"]> (progress w)) (files w)
                 (after_failed_save E (saves w) (persisted w))
                 (Datatypes.S (saves w)) (trace w))
    | None =>
        (Return (url, Some (exn_str e)),
         mkWorld (<[url := "failed"]> (progress w)) (files w)
                 (Saved (<[url := "failed"]> (progress w)))
                 (Datatypes.S (saves w))
                 (trace w ++ [EvSave (<[url := "failed"]> (progress w))]))
    end.
Proof.
  unfold on_error, bind, set_progress, save_progress, ret. simpl.
  destruct (save_error E (saves w)); reflexivity.
Qed.

Lemma on_exhausted_run E url filename w :
  on_exhausted E url filename w
  = match save_error E (saves w) with
    | Some msg =>
        (Raise (OSError msg),
         mkWorld (<[url := "failed"]> (progress w)) (files w)
                 (after_failed_save E (saves w) (persisted w))
                 (Datatypes.S (saves w)) (trace w))
    | None =>
        (Return (filename, Some "Download failed after retries"),
         mkWorld (<[url := "failed"]> (progress w)) (files w)
                 (Saved (<[url := "failed"]> (progress w)))
                 (Datatypes.S (saves w))
                 (trace w ++ [EvSave (<[url := "failed"]> (progress w))]))
    end.
Proof.
  unfold on_exhausted, bind, set_progress, save_progress, ret. simpl.
  destruct (save_error E (saves w)); reflexivity.
Qed.

Lemma emits_on_error (P : event -> Prop) E url e :
  (forall snapshot, P (EvSave snapshot)) -> emits P (on_error E url e).
Proof. apply emits_handler. Qed.

Lemma uses_plan_no_resume url filepath ev :
  uses_plan url filepath (mkPlan ∅ WB 0) ev -> no_resume ev.
Proof. destruct ev; simpl; tauto. Qed.

(** ** The ledger entries that a transfer writes *)

Section Frames.
Context {A B : Type} (url : string).

Lemma frames_same (m : M A) :
  (forall w r w', m w = (r, w') -> progress w' = progress w) -> frames url m.
Proof. intros H w r w' Hm u _. now rewrite (H _ _ _ Hm). Qed.

Lemma frames_bind (m : M A) (k : A -> M B) :
  frames url m -> (forall a, frames url (k a)) -> frames url (bind m k).
Proof.
  intros Hm Hk w r w' Hrun u Hu. unfold bind in Hrun.
  destruct (m w) as [[a|e] w1] eqn:Hmw.
  - rewrite (Hk a _ _ _ Hrun u Hu). eauto.
  - injection Hrun as <- <-. eauto.
Qed.

Lemma frames_try (m : M A) (catches : exn -> bool) (h : exn -> M A) :
  frames url m -> (forall e, frames url (h e)) -> frames url (try_except m catches h).
Proof.
  intros Hm Hh w r w' Hrun u Hu. unfold try_except in Hrun.
  destruct (m w) as [[a|e] w1] eqn:Hmw.
  - injection Hrun as <- <-. eauto.
  - destruct (catches e).
    + rewrite (Hh e _ _ _ Hrun u Hu). eauto.
    + injection Hrun as <- <-. eauto.
Qed.
End Frames.

Lemma frames_ret {A} url (a : A) : frames url (ret a).
Proof. apply frames_same. now intros w r w' [= _ <-]. Qed.

Lemma frames_raise {A} url e : frames url (@raise A e).
Proof. apply frames_same. now intros w r w' [= _ <-]. Qed.

Lemma frames_lift {A} url (r0 : result A) : frames url (lift r0).
Proof. apply frames_same. now intros w r w' [= _ <-]. Qed.

Lemma frames_get_world url : frames url get_world.
Proof. apply frames_same. now intros w r w' [= _ <-]. Qed.

Lemma frames_emit url ev : frames url (emit ev).
Proof. apply frames_same. now intros w r w' [= _ <-]. Qed.

Lemma frames_set_file url path content : frames url (set_file path content).
Proof. apply frames_same. now intros w r w' [= _ <-]. Qed.

Lemma frames_set_progress url status : frames url (set_progress url status).
Proof. intros w r w' [= _ <-] u Hu. simpl. now apply lookup_insert_ne. Qed.

Lemma frames_save url E : frames url (save_progress E).
Proof.
  apply frames_same. intros w r w'. unfold save_progress.
  destruct (save_error E (saves w)); now intros [= _ <-].
Qed.

Create HintDb frames.
#[local] Hint Resolve frames_ret frames_raise frames_lift frames_get_world frames_emit
  frames_set_file frames_set_progress frames_save : frames.

Lemma frames_write_chunks url E attempt filepath chunks k :
  frames url (write_chunks E attempt filepath chunks k).
Proof.
  revert k. induction chunks as [|chunk rest IH]; intros k; simpl; [auto with frames|].
  apply frames_bind; [|intros _; apply IH].
  destruct (str_nonempty chunk); [|auto with frames].
  destruct (write_error E attempt k); [auto with frames|].
  apply frames_bind; [auto with frames | intros w0; auto with frames].
Qed.

Lemma frames_attempt_body E url filename filepath pl attempt :
  frames url (attempt_body E url filename filepath pl attempt).
Proof.
  unfold attempt_body.
  apply frames_bind; [auto with frames | intros w0].
  apply frames_bind; [auto with frames | intros _].
  destruct (http_get E url (p_headers pl) attempt) as [msg|msg|cl chunks ending];
    [auto with frames | auto with frames |].
  apply frames_bind; [auto with frames | intros n].
  apply frames_bind.
  { unfold open_file. apply frames_bind; [auto with frames | intros _].
    destruct (open_error E attempt filepath (p_mode pl)); [auto with frames|].
    apply frames_bind; [auto with frames | intros w1].
    destruct (p_mode pl); auto with frames. }
  intros _. apply frames_bind; [apply frames_write_chunks | intros _].
  destruct ending; [|auto with frames].
  apply frames_bind; [auto with frames | intros _].
  apply frames_bind; [auto with frames | intros _; auto with frames].
Qed.

Lemma frames_retry_loop E url filename filepath pl attempts :
  frames url (retry_loop E url filename filepath pl attempts).
Proof.
  induction attempts as [|attempt rest IH]; simpl; [auto with frames|].
  apply frames_bind.
  - apply frames_try.
    + apply frames_bind; [apply frames_attempt_body | intros ?; auto with frames].
    + intros e. apply frames_bind; [apply frames_emit | intros _; auto with frames].
  - intros [res|]; [auto with frames | exact IH].
Qed.

(** A task writes no ledger entry but that of its own URL. *)
Lemma frames_download_file E url download_dir :
  frames url (download_file E url download_dir).
Proof.
  unfold download_file. apply frames_try.
  - apply frames_bind; [auto with frames | intros filename].
    apply frames_bind; [auto with frames | intros w0].
    apply frames_bind; [apply frames_retry_loop|].
    intros [res|]; [auto with frames|].
    apply frames_bind; [auto with frames | intros _].
    apply frames_bind; [auto with frames | intros _; auto with frames].
  - intros e. apply frames_bind; [auto with frames | intros _].
    apply frames_bind; [auto with frames | intros _; auto with frames].
Qed.

(** A call made while the entry of its URL is absent or [failed] sends no
    [Range] header and opens its file in mode ['wb']. *)
Lemma download_file_pending_no_resume E url download_dir w r w' :
  pending (progress w) url ->
  download_file E url download_dir w = (r, w') ->
  exists evs, trace w' = trace w ++ evs /\ Forall no_resume evs.
Proof.
  intros Hpending Hrun.
  destruct (get_filename_from_url url) as [filename|e] eqn:Hname.
  - destruct (download_file_uses_plan _ _ _ _ _ _ _ Hname Hrun) as (evs & Ht & HP).
    exists evs. split; [exact Ht|].
    rewrite transfer_plan_pending in HP by exact Hpending.
    eapply Forall_impl; [exact HP | apply uses_plan_no_resume].
  - rewrite (download_file_invalid_url _ _ _ _ _ Hname) in Hrun.
    eapply (emits_on_error no_resume); [|exact Hrun]. simpl. auto.
Qed.

(** When no URL occurs twice among the tasks, every task finds the entry of
    its URL as it was when the tasks were selected. *)
Lemma run_tasks_no_resume E download_dir tasks :
  NoDup tasks ->
  forall w,
    (forall u, u ∈ tasks -> pending (progress w) u) ->
    exists evs,
      trace (snd (run_tasks E download_dir tasks w)) = trace w ++ evs
      /\ Forall no_resume evs.
Proof.
  induction 1 as [|url rest Hnotin Hnd IH]; intros w Hpending; simpl.
  - exists []. rewrite app_nil_r. split; [reflexivity | constructor].
  - destruct (download_file E url download_dir w) as [r w1] eqn:Hrun.
    destruct (download_file_pending_no_resume _ _ _ _ _ _
                (Hpending url (list_elem_of_here _ _)) Hrun) as (evs1 & Ht1 & HP1).
    destruct (IH w1) as (evs2 & Ht2 & HP2).
    { intros u Hu. unfold pending.
      rewrite (frames_download_file E url download_dir w r w1 Hrun u).
      - apply Hpending. now apply list_elem_of_further.
      - intros ->. contradiction. }
    destruct (run_tasks E download_dir rest w1) as [rs w2]. simpl in *.
    exists (evs1 ++ evs2). rewrite Ht2, Ht1, app_assoc.
    split; [reflexivity | apply Forall_app; auto].
Qed.

(** C3, as stated, fails: a URL that occurs twice in the input is dispatched
    twice; once the first task has recorded it [completed], the second task
    finds an entry that is not [failed] and an existing file, and takes the
    resume branch: it asks for [bytes=3-] of a resource of three bytes, is
    refused three times and records the downloaded URL as [failed]. *)
Lemma duplicate_task_resumes :
  remaining_urls [example_url; example_url] (progress w_fresh) = [example_url; example_url]
  /\ fst (main_in_order (E_serving "abc") example_dir [example_url; example_url] w_fresh)
     = [Return ("x.zim", None); Return ("x.zim", Some "Download failed after retries")]
  /\ trace (snd (main_in_order (E_serving "abc") example_dir
                   [example_url; example_url] w_fresh))
     = [EvGet example_url ∅ None; EvOpen example_path WB;
        EvSave {[ example_url := "completed" ]};
        EvGet example_url {[ "Range" := "bytes=3-" ]} (Some 3); EvSleep 1;
        EvGet example_url {[ "Range" := "bytes=3-" ]} (Some 3); EvSleep 2;
        EvGet example_url {[ "Range" := "bytes=3-" ]} (Some 3); EvSleep 4;
        EvSave {[ example_url := "failed" ]}]
  /\ ~ Forall no_resume
         (trace (snd (main_in_order (E_serving "abc") example_dir
                        [example_url; example_url] w_fresh))).
Proof.
  assert (Htrace :
    trace (snd (main_in_order (E_serving "abc") example_dir
                  [example_url; example_url] w_fresh))
    = [EvGet example_url ∅ None; EvOpen example_path WB;
       EvSave {[ example_url := "completed" ]};
       EvGet example_url {[ "Range" := "bytes=3-" ]} (Some 3); EvSleep 1;
       EvGet example_url {[ "Range" := "bytes=3-" ]} (Some 3); EvSleep 2;
       EvGet example_url {[ "Range" := "bytes=3-" ]} (Some 3); EvSleep 4;
       EvSave {[ example_url := "failed" ]}]) by (vm_compute; reflexivity).
  split; [vm_compute; reflexivity|]. split; [vm_compute; reflexivity|].
  split; [exact Htrace|]. rewrite Htrace. intros Hall.
  apply Forall_cons_1 in Hall as [_ Hall]. apply Forall_cons_1 in Hall as [_ Hall].
  apply Forall_cons_1 in Hall as [_ Hall]. apply Forall_cons_1 in Hall as [Hget _].
  simpl in Hget. apply (f_equal (fun m : gmap string string => m !! "Range")) in Hget.
  vm_compute in Hget. discriminate.
Qed.

(** The same behind a full pool: the duplicate is the sixth task of five
    workers. *)
Example duplicate_behind_full_pool :
  last (fst (main_in_order (E_serving "abc") example_dir
               [example_url; "http://a.org/1.zim"; "http://a.org/2.zim";
                "http://a.org/3.zim"; "http://a.org/4.zim"; example_url] w_fresh))
  = Some (Return ("x.zim", Some "Download failed after retries"))
  /\ progress (snd (main_in_order (E_serving "abc") example_dir
                      [example_url; "http://a.org/1.zim"; "http://a.org/2.zim";
                       "http://a.org/3.zim"; "http://a.org/4.zim"; example_url] w_fresh))
       !! example_url = Some "failed"
  /\ files (snd (main_in_order (E_serving "abc") example_dir
                   [example_url; "http://a.org/1.zim"; "http://a.org/2.zim";
                    "http://a.org/3.zim"; "http://a.org/4.zim"; example_url] w_fresh))
       !! example_path = Some "abc".
Proof. vm_compute. repeat split; reflexivity. Qed.

(** C3, amended: a call of [download_file] made while the ledger entry of
    its URL is absent or [failed] takes the non-resume path: offset 0, no
    [Range] header and mode ['wb'] for every attempt.  A URL is in that
    state when [main] selects it, and when no URL occurs twice in the
    pending list every task of the run still finds it so.  The resume branch
    is taken exactly when the entry is present and not [failed] and the
    target file exists. *)
Theorem pending_call_takes_non_resume_path E url download_dir w r w' :
  pending (progress w) url ->
  download_file E url download_dir w = (r, w') ->
  (forall filepath,
     transfer_plan (progress w) (files w) url filepath = mkPlan ∅ WB 0)
  /\ (exists evs, trace w' = trace w ++ evs /\ Forall no_resume evs)
  /\ (forall urls u, u ∈ remaining_urls urls (progress w) -> pending (progress w) u)
  /\ (forall urls,
        NoDup (remaining_urls urls (progress w)) ->
        exists evs,
          trace (snd (main_in_order E download_dir urls w)) = trace w ++ evs
          /\ Forall no_resume evs)
  /\ (forall (ledger fs : gmap string string) u filepath,
        p_mode (transfer_plan ledger fs u filepath) = AB
        <-> (exists status, ledger !! u = Some status /\ status <> "failed")
            /\ is_Some (fs !! filepath)).
Proof.
  intros Hpending Hrun.
  assert (Hsel : forall urls u,
            u ∈ remaining_urls urls (progress w) -> pending (progress w) u).
  { intros urls u Hin. unfold remaining_urls in Hin.
    apply list_elem_of_filter in Hin as [Hp _]. now apply pending_dom. }
  split; [intros filepath; now apply transfer_plan_pending|].
  split; [eapply download_file_pending_no_resume; eauto|].
  split; [exact Hsel|]. split; [|intros; apply transfer_plan_resume].
  intros urls Hnd. unfold main_in_order.
  apply run_tasks_no_resume; [exact Hnd | apply Hsel].
Qed.

Lemma pending_call_takes_non_resume_path_witness :
  pending (progress w_partial) example_url
  /\ exists evs,
       trace (snd (download_file (E_serving "hello world") example_url example_dir w_partial))
       = trace w_partial ++ evs
       /\ Forall no_resume evs.
Proof.
  assert (Hp : pending (progress w_partial) example_url) by (left; reflexivity).
  split; [exact Hp|].
  refine (proj1 (proj2 (pending_call_takes_non_resume_path
    (E_serving "hello world") example_url example_dir w_partial _ _ Hp _))).
  apply surjective_pairing.
Defined.





Example body_after_retry :
  files (snd (download_file (E_flaky "abcdef" 3) example_url example_dir w_fresh))
    !! example_path = Some "abcdef".
Proof. vm_compute. reflexivity. Qed.

(** C4: when the first [k] attempts fail and, for [k] below the retry
    count, the next one succeeds, [download_file] pauses for [2 ^ i] after
    the failed attempt [i] and makes no attempt after the successful one.
    With [k = RETRY_COUNT], that is when every attempt fails, it makes
    exactly three attempts and records [failed]. *)
Theorem retry_policy E url download_dir filename w k :
  get_filename_from_url url = Return filename ->
  disk_ok E ->
  (k <= RETRY_COUNT)%nat ->
  let pl := transfer_plan (progress w) (files w) url (path_join download_dir filename) in
  (forall a, (a < k)%nat -> attempt_fails (http_get E url (p_headers pl) a)) ->
  ((k < RETRY_COUNT)%nat -> attempt_succeeds (http_get E url (p_headers pl) k)) ->
  exists r w' evs,
    download_file E url download_dir w = (r, w')
    /\ trace w' = trace w ++ evs
    /\ sched_of evs
       = backoff_schedule 0 k ++ (if (k <? RETRY_COUNT)%nat then [Attempt] else [])
    /\ count_attempts (sched_of evs)
       = (if (k <? RETRY_COUNT)%nat then Datatypes.S k else RETRY_COUNT)
    /\ (k = RETRY_COUNT -> progress w' !! url = Some "failed")
    /\ (save_error E (saves w) = None ->
        r = Return (filename,
                    if (k <? RETRY_COUNT)%nat then None
                    else Some "Download failed after retries")
        /\ progress w' !! url
           = Some (if (k <? RETRY_COUNT)%nat then "completed" else "failed")
        /\ persisted w' = Saved (progress w')).
Proof.
  intros Hname Hdisk Hk pl Hfail Hsucc.
  rewrite (download_file_valid_url _ _ _ _ _ Hname). fold pl.
  set (filepath := path_join download_dir filename).
  destruct (retry_loop_failing_prefix E url filename filepath pl k Hdisk 0%nat w)
    as (w1 & evs1 & Hloop & Ht1 & Hs1 & Hp1 & Hd1 & Hn1).
  { intros a Ha. apply Hfail. lia. }
  unfold try_except, bind.
  destruct (k <? RETRY_COUNT)%nat eqn:Hlt.
  - apply Nat.ltb_lt in Hlt.
    replace (seq 0 RETRY_COUNT)
      with (seq 0 k ++ k :: seq (Datatypes.S k) (RETRY_COUNT - Datatypes.S k)).
    2:{ replace RETRY_COUNT with (k + Datatypes.S (RETRY_COUNT - Datatypes.S k))%nat at 2 by lia.
        rewrite seq_app. reflexivity. }
    rewrite Hloop. cbn [retry_loop]. unfold bind at 1, try_except, bind at 1.
    destruct (attempt_body_succeeds E url filename filepath pl k w1 (Hsucc Hlt) Hdisk)
      as (r2 & w2 & evs2 & Hrun2 & Ht2 & Hs2 & Hn2 & Hsave2).
    rewrite Hrun2, Hn1 in *.
    assert (Hcount : count_attempts (backoff_schedule 0 k ++ [Attempt]) = Datatypes.S k).
    { rewrite count_attempts_app, count_attempts_backoff.
      replace (count_attempts [Attempt]) with 1%nat by reflexivity. lia. }
    destruct (save_error E (saves w)) as [msg|] eqn:Hsave.
    + subst r2. cbn [is_request_exception]. rewrite on_error_run.
      destruct (save_error E (saves w2)).
      * eexists _, _, (evs1 ++ evs2). split; [reflexivity|]. cbn [trace].
        rewrite Ht2, Ht1, app_assoc, sched_of_app, Hs1, Hs2.
        repeat split; auto; try lia; discriminate.
      * eexists _, _, (evs1 ++ evs2 ++ [EvSave (<[url := "failed"]> (progress w2))]).
        split; [reflexivity|]. cbn [trace].
        rewrite Ht2, Ht1, !sched_of_app, Hs1, Hs2, <- !app_assoc. cbn [sched_of].
        rewrite app_nil_r. repeat split; auto; try lia; discriminate.
    + destruct Hsave2 as (-> & Hp2 & Hd2). unfold ret.
      exists (Return (filename, None)), w2, (evs1 ++ evs2).
      split; [reflexivity|]. rewrite Ht2, Ht1, app_assoc. split; [reflexivity|].
      rewrite sched_of_app, Hs1, Hs2. split; [reflexivity|].
      split; [exact Hcount|]. split; [lia|]. intros _.
      split; [reflexivity|].
      split; [rewrite Hp2; apply lookup_insert_eq | exact Hd2].
  - apply Nat.ltb_ge in Hlt. assert (k = RETRY_COUNT) as -> by lia.
    specialize (Hloop []). rewrite app_nil_r in Hloop. rewrite Hloop.
    cbn [retry_loop]. unfold ret. rewrite on_exhausted_run, Hn1.
    destruct (save_error E (saves w)) as [msg|] eqn:Hsave.
    + cbn [fst snd]. rewrite on_error_run. cbn [saves progress trace files persisted].
      destruct (save_error E (Datatypes.S (saves w))).
      * eexists _, _, evs1. split; [reflexivity|]. cbn [trace progress].
        rewrite Hs1, app_nil_r, count_attempts_backoff, lookup_insert_eq.
        repeat split; auto; discriminate.
      * eexists _, _, (evs1 ++ [EvSave (<[url := "failed"]> (<[url := "failed"]> (progress w1)))]).
        split; [reflexivity|]. cbn [trace progress].
        rewrite Ht1, sched_of_app, Hs1, <- app_assoc. cbn [sched_of].
        rewrite !app_nil_r, count_attempts_backoff, lookup_insert_eq.
        repeat split; auto; discriminate.
    + eexists _, _, (evs1 ++ [EvSave (<[url := "failed"]> (progress w1))]).
      split; [reflexivity|]. cbn [trace progress persisted].
      rewrite Ht1, app_assoc. split; [reflexivity|].
      rewrite sched_of_app, Hs1. cbn [sched_of]. split; [reflexivity|].
      rewrite app_nil_r, count_attempts_backoff. split; [reflexivity|].
      rewrite lookup_insert_eq. repeat split; reflexivity.
Qed.

Lemma retry_policy_witness :
  get_filename_from_url example_url = Return "x.zim"
  /\ disk_ok E_down
  /\ exists r w' evs,
       download_file E_down example_url example_dir w_fresh = (r, w')
       /\ trace w' = trace w_fresh ++ evs
       /\ sched_of evs
          = [Attempt; Backoff 1; Attempt; Backoff 2; Attempt; Backoff 4]
       /\ count_attempts (sched_of evs) = 3%nat
       /\ progress w' !! example_url = Some "failed"
       /\ r = Return ("x.zim", Some "Download failed after retries").
Proof.
  assert (Hname : get_filename_from_url example_url = Return "x.zim")
    by (vm_compute; reflexivity).
  assert (Hdisk : disk_ok E_down) by (split; reflexivity).
  split; [exact Hname|]. split; [exact Hdisk|].
  destruct (retry_policy E_down example_url example_dir "x.zim" w_fresh 3 Hname Hdisk)
    as (r & w' & evs & Hrun & Ht & Hs & Hc & Hp & Hr).
  - unfold RETRY_COUNT. lia.
  - intros a Ha. simpl. exact I.
  - unfold RETRY_COUNT. lia.
  - exists r, w', evs. repeat split; try assumption.
    + apply Hp. reflexivity.
    + apply Hr. reflexivity.
Defined.

Example second_attempt_succeeds :
  sched_of (trace (snd (download_file (E_flaky "abcdef" 3) example_url example_dir w_fresh)))
  = [Attempt; Backoff 1; Attempt].
Proof. vm_compute. reflexivity. Qed.

(** [get_filename_from_url] raises nothing but a [ValueError]: that of
    [urlsplit]. *)
Lemma get_filename_from_url_raises_value_error url e :
  get_filename_from_url url = Raise e -> exists msg, e = ValueError msg.
Proof.
  unfold get_filename_from_url, urlparse_path, urlsplit, result_bind.
  repeat match goal with
         | |- context [let '(_, _) := ?x in _] => destruct x
         | |- context [if ?c then _ else _] => destruct c
         | |- context [match ?x with Return _ => _ | Raise _ => _ end] => destruct x
         end;
    intros H; try discriminate; injection H as <-; eauto.
Qed.

(** What an attempt does to the ledger file: it returns after one call of
    [save_progress] that succeeded; it raises either before any such call or
    with the error of the one call it made. *)
Lemma attempt_body_saves E url filename filepath pl attempt w r w' :
  attempt_body E url filename filepath pl attempt w = (r, w') ->
  match r with
  | Return _ =>
      saves w' = Datatypes.S (saves w) /\ save_error E (saves w) = None
      /\ persisted w' = Saved (progress w')
  | Raise e =>
      (saves w' = saves w /\ persisted w' = persisted w /\ progress w' = progress w)
      \/ (saves w' = Datatypes.S (saves w)
          /\ persisted w' = after_failed_save E (saves w) (persisted w)
          /\ exists msg, save_error E (saves w) = Some msg /\ e = OSError msg)
  end.
Proof.
  unfold attempt_body. unfold bind at 1. unfold get_world.
  unfold bind at 1. unfold emit at 1.
  set (w1 := mkWorld (progress w) (files w) (persisted w) (saves w)
                     (trace w ++ [EvGet url (p_headers pl) (getsize <$> files w !! filepath)])).
  destruct (http_get E url (p_headers pl) attempt) as [msg|msg|cl chunks ending] eqn:Hresp.
  - intros [= <- <-]. left. auto.
  - intros [= <- <-]. left. auto.
  - unfold bind at 1. unfold lift.
    destruct (content_length_int cl) as [n|e0] eqn:Hcl.
    2:{ intros [= <- <-]. left. auto. }
    unfold bind at 1. rewrite open_file_run.
    destruct (open_error E attempt filepath (p_mode pl)) as [msg|].
    { intros [= <- <-]. left. auto. }
    unfold bind at 1.
    destruct (write_chunks E attempt filepath chunks 0 (opened w1 filepath (p_mode pl)))
      as [[u|e1] w2] eqn:Hwrite;
      apply write_chunks_spec in Hwrite as (Hp & Hs & Hn & Ht & _).
    2:{ intros [= <- <-]. left. rewrite Hp, Hs, Hn. auto. }
    destruct ending as [|msg].
    + unfold bind at 1. unfold set_progress at 1. unfold bind, save_progress.
      cbn [progress files persisted saves trace].
      rewrite Hn, Hs. cbn [opened w1 saves persisted].
      destruct (save_error E (saves w)) as [msg|] eqn:Hsave.
      * intros [= <- <-]. right. cbn [saves persisted]. eauto.
      * unfold ret. intros [= <- <-]. cbn [saves persisted progress]. auto.
    + intros [= <- <-]. left. rewrite Hp, Hs, Hn. auto.
Qed.

Lemma retry_loop_saves E url filename filepath pl attempts w r w' :
  retry_loop E url filename filepath pl attempts w = (r, w') ->
  match r with
  | Return (Some _) =>
      saves w' = Datatypes.S (saves w) /\ save_error E (saves w) = None
      /\ persisted w' = Saved (progress w')
  | Return None =>
      saves w' = saves w /\ persisted w' = persisted w
  | Raise e =>
      (saves w' = saves w /\ persisted w' = persisted w)
      \/ (saves w' = Datatypes.S (saves w)
          /\ persisted w' = after_failed_save E (saves w) (persisted w)
          /\ exists msg, save_error E (saves w) = Some msg /\ e = OSError msg)
  end.
Proof.
  revert w. induction attempts as [|attempt rest IH]; intros w; cbn [retry_loop].
  - intros [= <- <-]. auto.
  - unfold bind at 1. unfold try_except. unfold bind at 1.
    destruct (attempt_body E url filename filepath pl attempt w) as [[res|e] w1] eqn:Hatt;
      apply attempt_body_saves in Hatt.
    + unfold ret. intros [= <- <-]. exact Hatt.
    + destruct (is_request_exception e) eqn:Hreq.
      * destruct Hatt as [(Hn & Hs & _)|(_ & _ & msg & _ & ->)]; [|discriminate].
        unfold bind at 1, sleep, emit, ret. intros Hrest.
        apply IH in Hrest. cbn [saves persisted] in Hrest. rewrite Hn, Hs in Hrest.
        exact Hrest.
      * intros [= <- <-]. destruct Hatt as [(Hn & Hs & _)|Hatt]; auto.
Qed.

(** Every path of [download_file] ends in a call of [save_progress]; the
    call returns when that call succeeds and raises its error when it
    fails. *)
Lemma download_file_last_save E url download_dir w r w' :
  download_file E url download_dir w = (r, w') ->
  (saves w < saves w')%nat
  /\ match r with
     | Return _ =>
         save_error E (Nat.pred (saves w')) = None
         /\ persisted w' = Saved (progress w')
     | Raise e =>
         exists msg,
           e = OSError msg
           /\ save_error E (Nat.pred (saves w')) = Some msg
           /\ progress w' !! url = Some "failed"
           /\ (persisted w' = persisted w \/ persisted w' = Damaged)
     end.
Proof.
  intros Hrun.
  assert (Hhandler : forall e0 w1,
            on_error E url e0 w1 = (r, w') ->
            saves w' = Datatypes.S (saves w1)
            /\ match r with
               | Return _ =>
                   save_error E (saves w1) = None /\ persisted w' = Saved (progress w')
               | Raise e =>
                   exists msg,
                     e = OSError msg /\ save_error E (saves w1) = Some msg
                     /\ progress w' !! url = Some "failed"
                     /\ persisted w' = after_failed_save E (saves w1) (persisted w1)
               end).
  { intros e0 w1. rewrite on_error_run.
    destruct (save_error E (saves w1)) as [msg|] eqn:Hsave; intros [= <- <-];
      cbn [saves persisted progress]; (split; [reflexivity|]); [|auto].
    exists msg. rewrite lookup_insert_eq. auto. }
  assert (Hkind : forall k file, after_failed_save E k file = file
                                 \/ after_failed_save E k file = Damaged).
  { intros k file. unfold after_failed_save. destruct (save_truncates E k); auto. }
  assert (Hfrom : forall e0 w1,
            on_error E url e0 w1 = (r, w') ->
            (saves w <= saves w1)%nat ->
            persisted w1 = persisted w \/ persisted w1 = Damaged ->
            (saves w < saves w')%nat
            /\ match r with
               | Return _ =>
                   save_error E (Nat.pred (saves w')) = None
                   /\ persisted w' = Saved (progress w')
               | Raise e =>
                   exists msg,
                     e = OSError msg
                     /\ save_error E (Nat.pred (saves w')) = Some msg
                     /\ progress w' !! url = Some "failed"
                     /\ (persisted w' = persisted w \/ persisted w' = Damaged)
               end).
  { intros e0 w1 Hh Hle Hfile. destruct (Hhandler _ _ Hh) as [Hn Hr].
    rewrite Hn. cbn [Nat.pred]. split; [lia|].
    destruct r as [res|e]; [exact Hr|].
    destruct Hr as (msg & -> & Hsave & Hp & Hd). exists msg.
    split; [reflexivity|]. split; [exact Hsave|]. split; [exact Hp|].
    rewrite Hd. destruct (Hkind (saves w1) (persisted w1)) as [-> | ->]; auto. }
  destruct (get_filename_from_url url) as [filename|e0] eqn:Hname.
  - rewrite (download_file_valid_url _ _ _ _ _ Hname) in Hrun.
    unfold try_except, bind in Hrun.
    destruct (retry_loop E url filename (path_join download_dir filename)
                (transfer_plan (progress w) (files w) url (path_join download_dir filename))
                (seq 0 RETRY_COUNT) w) as [[[res|]|e1] w1] eqn:Hloop;
      apply retry_loop_saves in Hloop.
    + unfold ret in Hrun. injection Hrun as <- <-.
      destruct Hloop as (Hn & Hsave & Hd). rewrite Hn. cbn [Nat.pred].
      split; [lia|]. auto.
    + destruct Hloop as [Hn Hd]. rewrite on_exhausted_run in Hrun.
      destruct (save_error E (saves w1)) as [msg|] eqn:Hsave.
      * eapply Hfrom; [exact Hrun | cbn [saves]; lia |].
        cbn [persisted]. rewrite Hd. apply Hkind.
      * injection Hrun as <- <-. cbn [saves persisted progress Nat.pred].
        split; [lia | auto].
    + eapply Hfrom; [exact Hrun | |].
      * destruct Hloop as [[Hn _]|(Hn & _)]; lia.
      * destruct Hloop as [[_ Hd]|(_ & Hd & _)]; [now left|].
        rewrite Hd. apply Hkind.
  - rewrite (download_file_invalid_url _ _ _ _ _ Hname) in Hrun.
    eapply Hfrom; [exact Hrun | lia | now left].
Qed.

(** C7: the claim fails on the code.  [download_file] raises exactly when
    the last call of [save_progress] that it makes fails: every path ends in
    such a call, the [except Exception] handler of line 92 catches what the
    [try] block raises, the failed write of lines 80 and 89 included, but
    the write that the handler itself makes (line 95) is not protected.  The
    exception that leaves is the error of that write; the URL is then
    [failed] in memory and the ledger file has not been brought up to
    date. *)
Theorem download_file_raises_iff_last_save_fails E url download_dir w r w' :
  download_file E url download_dir w = (r, w') ->
  (saves w < saves w')%nat
  /\ match r with
     | Return _ =>
         save_error E (Nat.pred (saves w')) = None
         /\ persisted w' = Saved (progress w')
     | Raise e =>
         exists msg,
           e = OSError msg
           /\ save_error E (Nat.pred (saves w')) = Some msg
           /\ progress w' !! url = Some "failed"
           /\ (persisted w' = persisted w \/ persisted w' = Damaged)
     end
  /\ ((forall k, save_error E k <> None) -> exists e, r = Raise e).
Proof.
  intros Hrun.
  destruct (download_file_last_save _ _ _ _ _ _ Hrun) as [Hlt Hr].
  split; [exact Hlt|]. split; [exact Hr|].
  intros Hall. destruct r as [res|e]; [|eauto].
  destruct Hr as [Hnone _]. now apply Hall in Hnone.
Qed.

Lemma download_file_raises_iff_last_save_fails_witness :
  download_file (E_serving_readonly "abc") example_url example_dir w_fresh
  = (Raise (OSError "[Errno 13] Permission denied"),
     mkWorld {[ example_url := "failed" ]} {[ example_path := "abc" ]} NoFile 2
             [EvGet example_url ∅ None; EvOpen example_path WB])
  /\ (0 < 2)%nat
  /\ (exists msg,
        OSError "[Errno 13] Permission denied" = OSError msg
        /\ save_error (E_serving_readonly "abc") 1 = Some msg
        /\ ({[ example_url := "failed" ]} : gmap string string) !! example_url = Some "failed"
        /\ (NoFile = NoFile \/ NoFile = Damaged))
  /\ ((forall k, save_error (E_serving_readonly "abc") k <> None) ->
      exists e, Raise (A := string * option string)
                  (OSError "[Errno 13] Permission denied") = Raise e).
Proof.
  assert (Hrun : download_file (E_serving_readonly "abc") example_url example_dir w_fresh
                 = (Raise (OSError "[Errno 13] Permission denied"),
                    mkWorld {[ example_url := "failed" ]} {[ example_path := "abc" ]} NoFile 2
                            [EvGet example_url ∅ None; EvOpen example_path WB]))
    by (vm_compute; reflexivity).
  split; [exact Hrun|].
  exact (download_file_raises_iff_last_save_fails _ _ _ _ _ _ Hrun).
Defined.

(** When the server cannot be reached either, the exception is the same. *)
Example download_file_can_raise :
  fst (download_file E_down_readonly example_url example_dir w_fresh)
  = Raise (OSError "[Errno 13] Permission denied").
Proof. vm_compute. reflexivity. Qed.

Example local_error_reports_url :
  fst (download_file
         (mkEnv (fun _ headers _ => range_server "abc" headers)
                (fun _ _ _ => Some "[Errno 28] No space left on device")
                no_write_error no_save_error fails_in_open)
         example_url example_dir w_fresh)
  = Return (example_url, Some "[Errno 28] No space left on device").
Proof. vm_compute. reflexivity. Qed.

(** ** The workers of the pool recording their outcomes *)




(** The in-memory mapping is changed outside the lock: after worker 0 has
    set its status and taken the lock, worker 1 sets its own status while
    worker 0 holds the lock. *)
Lemma mutation_outside_lock :
  Pool.run [0; 0]%nat
    (Pool.init ∅ None [("http://a.org/x.zim", "completed"); ("http://a.org/y.zim", "completed")])
  = Some (Pool.mkState {[ "http://a.org/x.zim" := "completed" ]} (Some 0%nat) None
            [Pool.mkWorker "http://a.org/x.zim" "completed" [Pool.Dump; Pool.Release];
             Pool.mkWorker "http://a.org/y.zim" "completed" Pool.record_outcome])
  /\ Pool.exec 1
       (Pool.mkState {[ "http://a.org/x.zim" := "completed" ]} (Some 0%nat) None
          [Pool.mkWorker "http://a.org/x.zim" "completed" [Pool.Dump; Pool.Release];
           Pool.mkWorker "http://a.org/y.zim" "completed" Pool.record_outcome])
     = Some (Pool.mkState
               (<[ "http://a.org/y.zim" := "completed" ]>
                  {[ "http://a.org/x.zim" := "completed" ]})
               (Some 0%nat) None
               [Pool.mkWorker "http://a.org/x.zim" "completed" [Pool.Dump; Pool.Release];
                Pool.mkWorker "http://a.org/y.zim" "completed"
                  [Pool.Acquire; Pool.Dump; Pool.Release]])
  /\ ~ Pool.mutations_under_lock ∅ None
         [("http://a.org/x.zim", "completed"); ("http://a.org/y.zim", "completed")].
Proof.
  split; [vm_compute; reflexivity|]. split; [vm_compute; reflexivity|].
  intros Hclaim.
  specialize (Hclaim [0; 0]%nat _ 1%nat _ eq_refl eq_refl).
  assert (Hlock : Some 0%nat = Some 1%nat); [|discriminate].
  apply Hclaim. simpl. intros Heq.
  apply (f_equal (fun m : gmap string string => m !! "http://a.org/y.zim")) in Heq.
  vm_compute in Heq. discriminate.
Qed.

(** *** The walk of a dump and an insertion *)

Lemma dict_set_new (d : Race.dict) k v :
  k ∉ d.*1 -> Race.dict_set d k v = d ++ [(k, v)].
Proof.
  induction d as [|[k' v'] d IH]; intros Hnew; [reflexivity|].
  cbn [fmap list_fmap fst] in Hnew. apply not_elem_of_cons in Hnew as [Hne Hnew].
  cbn [Race.dict_set]. destruct (String.eqb k' k) eqn:Heq.
  - apply String.eqb_eq in Heq. congruence.
  - cbn [app]. now rewrite (IH Hnew).
Qed.

(** Whatever the state: when a worker is inside the walk of its dump and
    another worker records a URL that the dict does not hold yet, the next
    step of the walk raises; the lock is released, the file stays damaged,
    and a worker that was not yet in the handler goes on to record
    [failed] for its own URL. *)
Lemma insertion_fails_the_walk s t t' url h written url' status h' :
  Race.workers s !! t = Some (Race.mkWorker url (Race.Walk h (length (Race.mem s)) written)) ->
  Race.workers s !! t' = Some (Race.mkWorker url' (Race.SetStatus status h')) ->
  url' ∉ (Race.mem s).*1 ->
  exists s1 s2,
    Race.exec t' s = Some s1
    /\ Race.mem s1 = Race.mem s ++ [(url', status)]
    /\ Race.lock s1 = Race.lock s
    /\ Race.exec t s1 = Some s2
    /\ Race.lock s2 = None
    /\ Race.disk s2 = Race.disk s
    /\ Race.workers s2 !! t
       = Some (Race.mkWorker url (if h then Race.Raised else Race.SetStatus "failed" true)).
Proof.
  intros Ht Ht' Hnew.
  assert (Hne : t <> t') by (intros ->; rewrite Ht in Ht'; discriminate).
  assert (Hlt : (t < length (Race.workers s))%nat) by (eapply lookup_lt_Some; eauto).
  eexists _, _. split; [unfold Race.exec; rewrite Ht'; reflexivity|].
  cbn [Race.mem Race.lock Race.disk Race.workers].
  split; [now apply dict_set_new|]. split; [reflexivity|].
  unfold Race.exec at 1. cbn [Race.workers Race.mem Race.lock Race.disk].
  rewrite list_lookup_insert_ne by congruence. rewrite Ht.
  rewrite (dict_set_new _ _ _ Hnew), length_app. cbn [length].
  replace (length (Race.mem s) + 1 =? length (Race.mem s))%nat with false
    by (symmetry; apply Nat.eqb_neq; lia).
  cbn [negb]. split; [reflexivity|].
  cbn [Race.lock Race.disk Race.workers]. split; [reflexivity|]. split; [reflexivity|].
  apply list_lookup_insert_eq. now rewrite length_insert.
Qed.

(** C8: the claim fails on the code.  Two workers have downloaded their
    files and record [completed] for distinct URLs.  Worker 0 sets its
    status, takes the lock, opens the ledger file and writes its item;
    worker 1 then sets its status, which takes no lock, while worker 0 holds
    it; the next step of the walk of worker 0 raises.  Worker 0 records
    [failed] for the URL it has downloaded and dumps again.  When both have
    returned the ledger, in memory and on disk, holds [failed] for the first
    URL: the update [completed] is lost. *)
Theorem completed_download_recorded_failed :
  Race.run [0; 0; 0; 0]%nat (Race.init [] NoFile Race.two_tasks)
  = Some (Race.mkState [("http://a.org/x.zim", "completed")] (Some 0%nat) Damaged
            [Race.mkWorker "http://a.org/x.zim"
               (Race.Walk false 1 [("http://a.org/x.zim", "completed")]);
             Race.mkWorker "http://a.org/y.zim" (Race.SetStatus "completed" false)])
  /\ Race.run [0; 0; 0; 0; 1]%nat (Race.init [] NoFile Race.two_tasks)
     = Some (Race.mkState
               [("http://a.org/x.zim", "completed"); ("http://a.org/y.zim", "completed")]
               (Some 0%nat) Damaged
               [Race.mkWorker "http://a.org/x.zim"
                  (Race.Walk false 1 [("http://a.org/x.zim", "completed")]);
                Race.mkWorker "http://a.org/y.zim" (Race.Acquire false)])
  /\ Race.run [0; 0; 0; 0; 1; 0]%nat (Race.init [] NoFile Race.two_tasks)
     = Some (Race.mkState
               [("http://a.org/x.zim", "completed"); ("http://a.org/y.zim", "completed")]
               None Damaged
               [Race.mkWorker "http://a.org/x.zim" (Race.SetStatus "failed" true);
                Race.mkWorker "http://a.org/y.zim" (Race.Acquire false)])
  /\ Race.run Race.racing (Race.init [] NoFile Race.two_tasks)
     = Some (Race.mkState
               [("http://a.org/x.zim", "failed"); ("http://a.org/y.zim", "completed")]
               None
               (Saved {[ "http://a.org/x.zim" := "failed";
                         "http://a.org/y.zim" := "completed" ]})
               [Race.mkWorker "http://a.org/x.zim" (Race.Returned true);
                Race.mkWorker "http://a.org/y.zim" (Race.Returned false)]).
Proof.
  split; [reflexivity|]. split; [reflexivity|]. split; [reflexivity|].
  cbn [Race.run Race.racing]. vm_compute. reflexivity.
Qed.

(** * Further properties of the code *)

(** ** What a call of [download_file] does to the ledger *)

Lemma ledger_set (m m' : gmap string string) url status :
  (forall u, u <> url -> m' !! u = m !! u) ->
  m' !! url = Some status ->
  m' = <[url := status]> m.
Proof.
  intros Hframe Hurl. apply map_eq. intros u.
  destruct (decide (u = url)) as [->|Hne].
  - now rewrite lookup_insert_eq.
  - rewrite lookup_insert_ne by congruence. now apply Hframe.
Qed.

Lemma insert_framed (m m' : gmap string string) url status :
  (forall u, u <> url -> m' !! u = m !! u) ->
  <[url := status]> m' = <[url := status]> m.
Proof.
  intros Hframe. apply map_eq. intros u.
  destruct (decide (u = url)) as [->|Hne].
  - now rewrite !lookup_insert_eq.
  - rewrite !lookup_insert_ne by congruence. now apply Hframe.
Qed.

(** The ledger after a call, whatever its result: the entry of the URL is
    set, to [completed] exactly when the call returns without an error. *)
Lemma download_file_ledger E url download_dir w r w' :
  download_file E url download_dir w = (r, w') ->
  (exists name, r = Return (name, None))
  /\ progress w' = <[url := "completed"]> (progress w)
  /\ persisted w' = Saved (progress w')
  \/ (forall name, r <> Return (name, None))
     /\ progress w' = <[url := "failed"]> (progress w)
     /\ (forall res, r = Return res -> persisted w' = Saved (progress w')).
Proof.
  intros Hrun.
  destruct (get_filename_from_url url) as [filename|e] eqn:Hname.
  - rewrite (download_file_valid_url _ _ _ _ _ Hname) in Hrun.
    unfold try_except, bind in Hrun.
    destruct (retry_loop E url filename (path_join download_dir filename)
                (transfer_plan (progress w) (files w) url (path_join download_dir filename))
                (seq 0 RETRY_COUNT) w) as [[[res|]|e] w1] eqn:Hloop;
      pose proof (frames_retry_loop _ _ _ _ _ _ _ _ _ Hloop) as Hframe.
    + unfold ret in Hrun. injection Hrun as <- <-.
      apply retry_loop_spec in Hloop as (-> & Hp & Hd & _).
      left. split; [eauto|]. split; [now apply ledger_set | exact Hd].
    + right. rewrite on_exhausted_run in Hrun.
      destruct (save_error E (saves w1)).
      * rewrite on_error_run in Hrun. cbn [saves progress] in Hrun.
        destruct (save_error E (Datatypes.S (saves w1))); injection Hrun as <- <-;
          cbn [progress persisted]; rewrite insert_insert_eq;
          (split; [discriminate|]); (split; [now apply insert_framed|]);
          [discriminate | reflexivity].
      * injection Hrun as <- <-. cbn [progress persisted].
        split; [discriminate|]. split; [now apply insert_framed | reflexivity].
    + right. rewrite on_error_run in Hrun.
      destruct (save_error E (saves w1)); injection Hrun as <- <-;
        cbn [progress persisted];
        (split; [discriminate|]); (split; [now apply insert_framed|]);
        [discriminate | reflexivity].
  - right. rewrite (download_file_invalid_url _ _ _ _ _ Hname), on_error_run in Hrun.
    destruct (save_error E (saves w)); injection Hrun as <- <-;
      cbn [progress persisted]; (split; [discriminate|]); (split; [reflexivity|]);
      [discriminate | reflexivity].
Qed.

(** X1: whatever the network and the disk do, a call of [download_file]
    changes the ledger in one entry only: it sets the entry of its URL, to
    [completed] or to [failed], and leaves every other entry as it was. *)
Theorem download_file_sets_one_entry E url download_dir w r w' :
  download_file E url download_dir w = (r, w') ->
  (progress w' = <[url := "completed"]> (progress w)
   \/ progress w' = <[url := "failed"]> (progress w))
  /\ (forall u, u <> url -> progress w' !! u = progress w !! u)
  /\ dom (progress w') = {[url]} ∪ dom (progress w).
Proof.
  intros Hrun.
  assert (Hset : progress w' = <[url := "completed"]> (progress w)
                 \/ progress w' = <[url := "failed"]> (progress w)).
  { destruct (download_file_ledger _ _ _ _ _ _ Hrun) as [(_ & H & _)|(_ & H & _)]; auto. }
  split; [exact Hset|]. split.
  - exact (frames_download_file _ _ _ _ _ _ Hrun).
  - destruct Hset as [-> | ->]; apply dom_insert_L.
Qed.

Lemma download_file_sets_one_entry_witness :
  progress (snd (download_file (E_serving "abc") example_url example_dir w_fresh))
    = <[example_url := "completed"]> (progress w_fresh)
  \/ progress (snd (download_file (E_serving "abc") example_url example_dir w_fresh))
    = <[example_url := "failed"]> (progress w_fresh).
Proof.
  refine (proj1 (download_file_sets_one_entry (E_serving "abc") example_url example_dir
                   w_fresh _ _ _)).
  apply surjective_pairing.
Defined.





(** A call that raises can leave the file behind the ledger in memory: the
    second task of a URL listed twice resumes, is refused three times and
    records [failed]; the ledger file cannot be written, so it still holds
    [completed], and the next run does not select the URL. *)
Example raised_call_is_not_selected_again :
  fst (download_file (E_serving_readonly "abc") example_url example_dir
         (mkWorld {[ example_url := "completed" ]} {[ example_path := "abc" ]}
                  (Saved {[ example_url := "completed" ]}) 1 []))
  = Raise (OSError "[Errno 13] Permission denied")
  /\ progress (snd (download_file (E_serving_readonly "abc") example_url example_dir
                     (mkWorld {[ example_url := "completed" ]} {[ example_path := "abc" ]}
                              (Saved {[ example_url := "completed" ]}) 1 [])))
       !! example_url = Some "failed"
  /\ loaded_ledger
       (persisted (snd (download_file (E_serving_readonly "abc") example_url example_dir
                          (mkWorld {[ example_url := "completed" ]}
                                   {[ example_path := "abc" ]}
                                   (Saved {[ example_url := "completed" ]}) 1 []))))
     = Some {[ example_url := "completed" ]}
  /\ remaining_urls [example_url] {[ example_url := "completed" ]} = [].
Proof. vm_compute. repeat split; reflexivity. Qed.

(** A dump that fails after [open] has emptied the file leaves a damaged
    ledger file, which the next run cannot load. *)
Example failed_dump_damages_the_file :
  fst (download_file (E_serving_disk_full "abc") example_url example_dir
         (mkWorld ∅ ∅ (Saved {[ "http://a.org/y.zim" := "completed" ]}) 1 []))
  = Raise (OSError "[Errno 28] No space left on device")
  /\ persisted (snd (download_file (E_serving_disk_full "abc") example_url example_dir
                      (mkWorld ∅ ∅ (Saved {[ "http://a.org/y.zim" := "completed" ]}) 1 [])))
     = Damaged
  /\ loaded_ledger Damaged = None.
Proof. vm_compute. repeat split; reflexivity. Qed.

(** ** The requests and the pauses of a call, whatever the outside world *)

(** One attempt makes one request and no pause. *)
Lemma attempt_body_sched E url filename filepath pl attempt w r w' :
  attempt_body E url filename filepath pl attempt w = (r, w') ->
  exists evs, trace w' = trace w ++ evs /\ sched_of evs = [Attempt].
Proof.
  unfold attempt_body. unfold bind at 1. unfold get_world.
  unfold bind at 1. unfold emit at 1.
  set (w1 := mkWorld (progress w) (files w) (persisted w) (saves w)
                     (trace w ++ [EvGet url (p_headers pl) (getsize <$> files w !! filepath)])).
  destruct (http_get E url (p_headers pl) attempt) as [msg|msg|cl chunks ending].
  - intros [= <- <-]. eexists. split; reflexivity.
  - intros [= <- <-]. eexists. split; reflexivity.
  - unfold bind at 1. unfold lift.
    destruct (content_length_int cl) as [n|e0].
    2:{ intros [= <- <-]. eexists. split; reflexivity. }
    unfold bind at 1. rewrite open_file_run.
    destruct (open_error E attempt filepath (p_mode pl)) as [msg|].
    { intros [= <- <-]. cbn [trace]. rewrite <- app_assoc. eexists. split; reflexivity. }
    unfold bind at 1.
    destruct (write_chunks E attempt filepath chunks 0 (opened w1 filepath (p_mode pl)))
      as [[u|e1] w2] eqn:Hwrite;
      apply write_chunks_spec in Hwrite as (_ & _ & _ & Ht & _);
      cbn [opened w1 trace] in Ht; rewrite <- app_assoc in Ht.
    2:{ intros [= <- <-]. rewrite Ht. eexists. split; reflexivity. }
    destruct ending as [|msg].
    + unfold bind at 1. unfold set_progress at 1. unfold bind, save_progress.
      cbn [progress files persisted saves trace].
      destruct (save_error E (saves w2)) as [msg|].
      * intros [= <- <-]. cbn [trace]. rewrite Ht. eexists. split; reflexivity.
      * unfold ret. intros [= <- <-]. cbn [trace]. rewrite Ht, <- app_assoc.
        eexists. split; reflexivity.
    + intros [= <- <-]. rewrite Ht. eexists. split; reflexivity.
Qed.

(** The loop over [n] attempts makes [k] failing attempts, each followed by
    its pause, and then either has used all attempts or makes one more
    attempt, the last of the call. *)
Lemma retry_loop_sched E url filename filepath pl n :
  forall first w r w',
    retry_loop E url filename filepath pl (seq first n) w = (r, w') ->
    exists evs k,
      trace w' = trace w ++ evs
      /\ (r = Return None /\ k = n /\ sched_of evs = backoff_schedule first k
          \/ r <> Return None /\ (k < n)%nat
             /\ sched_of evs = backoff_schedule first k ++ [Attempt]).
Proof.
  induction n as [|n IH]; intros first w r w'; cbn [seq retry_loop].
  - intros [= <- <-]. exists [], 0%nat. rewrite app_nil_r. split; [reflexivity|].
    left. repeat split; reflexivity.
  - unfold bind at 1. unfold try_except. unfold bind at 1.
    destruct (attempt_body E url filename filepath pl first w) as [[res|e] w1] eqn:Hatt;
      destruct (attempt_body_sched _ _ _ _ _ _ _ _ _ Hatt) as (evs1 & Ht1 & Hs1).
    + unfold ret. intros [= <- <-]. exists evs1, 0%nat. split; [exact Ht1|].
      right. split; [discriminate|]. split; [lia | exact Hs1].
    + destruct (is_request_exception e).
      * unfold bind at 1, sleep, emit, ret. intros Hrest.
        apply IH in Hrest as (evs2 & k & Ht2 & Hcase). cbn [trace] in Ht2.
        exists (evs1 ++ [EvSleep (2 ^ Z.of_nat first)] ++ evs2), (Datatypes.S k).
        split; [rewrite Ht2, Ht1, <- !app_assoc; reflexivity|].
        rewrite !sched_of_app, Hs1. cbn [sched_of app backoff_schedule].
        destruct Hcase as [(-> & -> & ->)|(Hr & Hk & ->)].
        -- left. repeat split; reflexivity.
        -- right. split; [exact Hr|]. split; [lia | reflexivity].
      * intros [= <- <-]. exists evs1, 0%nat. split; [exact Ht1|].
        right. split; [discriminate|]. split; [lia | exact Hs1].
Qed.

Lemma total_backoff_app l1 l2 :
  total_backoff (l1 ++ l2) = total_backoff l1 + total_backoff l2.
Proof.
  induction l1 as [|[|n] rest IH]; cbn [app total_backoff]; lia.
Qed.

Lemma total_backoff_schedule first k :
  total_backoff (backoff_schedule first k) = 2 ^ Z.of_nat (first + k) - 2 ^ Z.of_nat first.
Proof.
  revert first. induction k as [|k IH]; intros first; cbn [backoff_schedule total_backoff].
  - rewrite Nat.add_0_r. lia.
  - rewrite IH. replace (Datatypes.S first + k)%nat with (first + Datatypes.S k)%nat by lia.
    replace (Z.of_nat (Datatypes.S first)) with (Z.of_nat first + 1) by lia.
    rewrite Z.pow_add_r by lia. lia.
Qed.

(** The requests and the pauses of a call: [k] failed attempts with their
    pauses, then at most one more attempt; a call for a URL that derives a
    file name ends without that attempt only when all attempts failed. *)
Lemma download_file_sched_shape E url download_dir w r w' :
  download_file E url download_dir w = (r, w') ->
  exists evs k tail,
    trace w' = trace w ++ evs
    /\ sched_of evs = backoff_schedule 0 k ++ tail
    /\ (tail = [] /\ (k <= RETRY_COUNT)%nat \/ tail = [Attempt] /\ (k < RETRY_COUNT)%nat)
    /\ (forall f, get_filename_from_url url = Return f -> tail = [] -> k = RETRY_COUNT).
Proof.
  intros Hrun.
  destruct (get_filename_from_url url) as [filename|e] eqn:Hname.
  - rewrite (download_file_valid_url _ _ _ _ _ Hname) in Hrun.
    unfold try_except, bind in Hrun.
    destruct (retry_loop E url filename (path_join download_dir filename)
                (transfer_plan (progress w) (files w) url (path_join download_dir filename))
                (seq 0 RETRY_COUNT) w) as [rl w1] eqn:Hloop.
    destruct (retry_loop_sched _ _ _ _ _ _ _ _ _ _ Hloop) as (evs1 & k & Ht1 & Hcase).
    assert (Hend : exists evs2, trace w' = trace w1 ++ evs2 /\ sched_of evs2 = []).
    { destruct rl as [[res|]|e].
      - unfold ret in Hrun. injection Hrun as <- <-. exists []. now rewrite app_nil_r.
      - rewrite on_exhausted_run in Hrun.
        destruct (save_error E (saves w1)).
        + rewrite on_error_run in Hrun. cbn [saves trace progress] in Hrun.
          destruct (save_error E (Datatypes.S (saves w1))); injection Hrun as <- <-;
            cbn [trace];
            first [ exists []; split; [symmetry; apply app_nil_r | reflexivity]
                  | eexists; split; [reflexivity | reflexivity] ].
        + injection Hrun as <- <-. cbn [trace]. eexists. split; reflexivity.
      - rewrite on_error_run in Hrun.
        destruct (save_error E (saves w1)); injection Hrun as <- <-;
          cbn [trace];
          first [ exists []; split; [symmetry; apply app_nil_r | reflexivity]
                | eexists; split; [reflexivity | reflexivity] ]. }
    destruct Hend as (evs2 & Ht2 & Hs2).
    destruct Hcase as [(_ & -> & Hs1)|(_ & Hk & Hs1)].
    + exists (evs1 ++ evs2), RETRY_COUNT, [].
      rewrite Ht2, Ht1, app_assoc, sched_of_app, Hs1, Hs2.
      split; [reflexivity|]. split; [reflexivity|].
      split; [left; split; [reflexivity | lia] | reflexivity].
    + exists (evs1 ++ evs2), k, [Attempt].
      rewrite Ht2, Ht1, app_assoc, sched_of_app, Hs1, Hs2, app_nil_r.
      split; [reflexivity|]. split; [reflexivity|].
      split; [right; split; [reflexivity | exact Hk] | discriminate].
  - rewrite (download_file_invalid_url _ _ _ _ _ Hname), on_error_run in Hrun.
    exists (match save_error E (saves w) with
            | Some _ => []
            | None => [EvSave (<[url := "failed"]> (progress w))]
            end), 0%nat, [].
    destruct (save_error E (saves w)); injection Hrun as <- <-; cbn [trace];
      rewrite ?app_nil_r; (split; [reflexivity|]); (split; [reflexivity|]);
      (split; [left; split; [reflexivity | lia] | discriminate]).
Qed.

(** X4: whatever the server and the disk do, a call of [download_file]
    makes at most [RETRY_COUNT] requests; its requests and pauses are [k]
    failed attempts, the [i]-th followed by a pause of [2 ^ i], and then at
    most one further attempt, after which nothing follows.  The pauses add
    up to [2 ^ k - 1], at most 7. *)
Theorem download_file_schedule E url download_dir w r w' :
  download_file E url download_dir w = (r, w') ->
  exists evs k tail,
    trace w' = trace w ++ evs
    /\ sched_of evs = backoff_schedule 0 k ++ tail
    /\ (tail = [] /\ (k <= RETRY_COUNT)%nat \/ tail = [Attempt] /\ (k < RETRY_COUNT)%nat)
    /\ (count_attempts (sched_of evs) <= RETRY_COUNT)%nat
    /\ total_backoff (sched_of evs) = 2 ^ Z.of_nat k - 1
    /\ total_backoff (sched_of evs) <= 7.
Proof.
  intros Hrun.
  destruct (download_file_sched_shape _ _ _ _ _ _ Hrun)
    as (evs & k & tail & Ht & Hs & Htail & _).
  exists evs, k, tail. split; [exact Ht|]. split; [exact Hs|]. split; [exact Htail|].
  rewrite Hs, count_attempts_app, count_attempts_backoff, total_backoff_app,
    total_backoff_schedule.
  assert (Hk : (k <= 3)%nat) by (unfold RETRY_COUNT in Htail; destruct Htail as [[_ ?]|[_ ?]]; lia).
  assert (Hpow : 2 ^ Z.of_nat k <= 8).
  { change 8 with (2 ^ 3). apply Z.pow_le_mono_r; lia. }
  unfold RETRY_COUNT in *.
  destruct Htail as [[-> _]|[-> Hlt]]; cbn [total_backoff];
    [replace (count_attempts []) with 0%nat by reflexivity
    |replace (count_attempts [Attempt]) with 1%nat by reflexivity];
    rewrite Nat.add_0_l; cbn [Z.of_nat Z.pow Z.pow_pos Pos.iter]; repeat split; lia.
Qed.

Lemma download_file_schedule_witness :
  exists evs k tail,
    trace (snd (download_file (E_flaky "abcdef" 3) example_url example_dir w_fresh))
      = trace w_fresh ++ evs
    /\ sched_of evs = backoff_schedule 0 k ++ tail
    /\ (tail = [] /\ (k <= RETRY_COUNT)%nat \/ tail = [Attempt] /\ (k < RETRY_COUNT)%nat).
Proof.
  destruct (download_file_schedule (E_flaky "abcdef" 3) example_url example_dir w_fresh
              _ _ (surjective_pairing _)) as (evs & k & tail & Ht & Hs & Htail & _).
  exists evs, k, tail. auto.
Defined.

(** ** The files that a call of [download_file] writes *)

Section FramesFiles.
Context {A B : Type} (path : string).

Lemma frames_files_same (m : M A) :
  (forall w r w', m w = (r, w') -> files w' = files w) -> frames_files path m.
Proof. intros H w r w' Hm p _. now rewrite (H _ _ _ Hm). Qed.

Lemma frames_files_bind (m : M A) (k : A -> M B) :
  frames_files path m -> (forall a, frames_files path (k a)) -> frames_files path (bind m k).
Proof.
  intros Hm Hk w r w' Hrun p Hp. unfold bind in Hrun.
  destruct (m w) as [[a|e] w1] eqn:Hmw.
  - rewrite (Hk a _ _ _ Hrun p Hp). eauto.
  - injection Hrun as <- <-. eauto.
Qed.

Lemma frames_files_try (m : M A) (catches : exn -> bool) (h : exn -> M A) :
  frames_files path m -> (forall e, frames_files path (h e)) ->
  frames_files path (try_except m catches h).
Proof.
  intros Hm Hh w r w' Hrun p Hp. unfold try_except in Hrun.
  destruct (m w) as [[a|e] w1] eqn:Hmw.
  - injection Hrun as <- <-. eauto.
  - destruct (catches e).
    + rewrite (Hh e _ _ _ Hrun p Hp). eauto.
    + injection Hrun as <- <-. eauto.
Qed.
End FramesFiles.

Lemma frames_files_ret {A} path (a : A) : frames_files path (ret a).
Proof. apply frames_files_same. now intros w r w' [= _ <-]. Qed.

Lemma frames_files_raise {A} path e : frames_files path (@raise A e).
Proof. apply frames_files_same. now intros w r w' [= _ <-]. Qed.

Lemma frames_files_lift {A} path (r0 : result A) : frames_files path (lift r0).
Proof. apply frames_files_same. now intros w r w' [= _ <-]. Qed.

Lemma frames_files_get_world path : frames_files path get_world.
Proof. apply frames_files_same. now intros w r w' [= _ <-]. Qed.

Lemma frames_files_emit path ev : frames_files path (emit ev).
Proof. apply frames_files_same. now intros w r w' [= _ <-]. Qed.

Lemma frames_files_set_progress path url status :
  frames_files path (set_progress url status).
Proof. apply frames_files_same. now intros w r w' [= _ <-]. Qed.

Lemma frames_files_set_file path content : frames_files path (set_file path content).
Proof. intros w r w' [= _ <-] p Hp. simpl. now apply lookup_insert_ne. Qed.

Lemma frames_files_save path E : frames_files path (save_progress E).
Proof.
  apply frames_files_same. intros w r w'. unfold save_progress.
  destruct (save_error E (saves w)); now intros [= _ <-].
Qed.

Create HintDb frames_files.
#[local] Hint Resolve frames_files_ret frames_files_raise frames_files_lift
  frames_files_get_world frames_files_emit frames_files_set_progress
  frames_files_set_file frames_files_save : frames_files.

Lemma frames_files_write_chunks E attempt filepath chunks k :
  frames_files filepath (write_chunks E attempt filepath chunks k).
Proof.
  revert k. induction chunks as [|chunk rest IH]; intros k; simpl; [auto with frames_files|].
  apply frames_files_bind; [|intros _; apply IH].
  destruct (str_nonempty chunk); [|auto with frames_files].
  destruct (write_error E attempt k); [auto with frames_files|].
  apply frames_files_bind; [auto with frames_files | intros w0; auto with frames_files].
Qed.

Lemma frames_files_attempt_body E url filename filepath pl attempt :
  frames_files filepath (attempt_body E url filename filepath pl attempt).
Proof.
  unfold attempt_body.
  apply frames_files_bind; [auto with frames_files | intros w0].
  apply frames_files_bind; [auto with frames_files | intros _].
  destruct (http_get E url (p_headers pl) attempt) as [msg|msg|cl chunks ending];
    [auto with frames_files | auto with frames_files |].
  apply frames_files_bind; [auto with frames_files | intros n].
  apply frames_files_bind.
  { unfold open_file. apply frames_files_bind; [auto with frames_files | intros _].
    destruct (open_error E attempt filepath (p_mode pl)); [auto with frames_files|].
    apply frames_files_bind; [auto with frames_files | intros w1].
    destruct (p_mode pl); auto with frames_files. }
  intros _. apply frames_files_bind; [apply frames_files_write_chunks | intros _].
  destruct ending; [|auto with frames_files].
  apply frames_files_bind; [auto with frames_files | intros _].
  apply frames_files_bind; [auto with frames_files | intros _; auto with frames_files].
Qed.

Lemma frames_files_retry_loop E url filename filepath pl attempts :
  frames_files filepath (retry_loop E url filename filepath pl attempts).
Proof.
  induction attempts as [|attempt rest IH]; simpl; [auto with frames_files|].
  apply frames_files_bind.
  - apply frames_files_try.
    + apply frames_files_bind;
        [apply frames_files_attempt_body | intros ?; auto with frames_files].
    + intros e. apply frames_files_bind;
        [apply frames_files_emit | intros _; auto with frames_files].
  - intros [res|]; [auto with frames_files | exact IH].
Qed.

Lemma frames_files_on_error path E url e : frames_files path (on_error E url e).
Proof.
  unfold on_error. apply frames_files_bind; [auto with frames_files | intros _].
  apply frames_files_bind; [auto with frames_files | intros _; auto with frames_files].
Qed.

(** X5: the progress file apart, a call of [download_file] writes no file
    but the one at its target path, the download directory joined with the
    name derived from its URL; for a URL that [urlparse] rejects it writes
    no such file at all. *)
Theorem download_file_writes_only_its_target E url download_dir w r w' :
  download_file E url download_dir w = (r, w') ->
  match get_filename_from_url url with
  | Return filename =>
      forall p, p <> path_join download_dir filename -> files w' !! p = files w !! p
  | Raise _ => files w' = files w
  end.
Proof.
  intros Hrun.
  destruct (get_filename_from_url url) as [filename|e] eqn:Hname.
  - rewrite (download_file_valid_url _ _ _ _ _ Hname) in Hrun.
    set (pl := transfer_plan (progress w) (files w) url (path_join download_dir filename))
      in Hrun.
    clearbody pl. revert Hrun. generalize w r w'.
    change (frames_files (path_join download_dir filename)
      (try_except
         (r <- retry_loop E url filename (path_join download_dir filename) pl
                 (seq 0 RETRY_COUNT) ;;
          match r with
          | Some res => ret res
          | None => on_exhausted E url filename
          end)
         (fun _ => true) (on_error E url)))%py.
    apply frames_files_try; [|intros e; apply frames_files_on_error].
    apply frames_files_bind; [apply frames_files_retry_loop|].
    intros [res|]; [auto with frames_files|].
    unfold on_exhausted. apply frames_files_bind; [auto with frames_files | intros _].
    apply frames_files_bind; [auto with frames_files | intros _; auto with frames_files].
  - rewrite (download_file_invalid_url _ _ _ _ _ Hname), on_error_run in Hrun.
    destruct (save_error E (saves w)); now injection Hrun as <- <-.
Qed.

Lemma download_file_writes_only_its_target_witness :
  files (snd (download_file (E_serving "abc") "http://a.org/y.zim" example_dir w_partial))
    !! example_path = Some "hello".
Proof.
  pose proof (download_file_writes_only_its_target (E_serving "abc") "http://a.org/y.zim"
                example_dir w_partial _ _ (surjective_pairing _)) as H.
  replace (get_filename_from_url "http://a.org/y.zim") with (@Return string "y.zim") in H
    by (vm_compute; reflexivity).
  rewrite (H example_path); [reflexivity | vm_compute; discriminate].
Defined.

(** ** A call that resumes *)







(** ** What [main] does with the ledger and with the results *)

Lemma remaining_urls_nil urls (progress : gmap string string) :
  (forall u, u ∈ urls -> exists status, progress !! u = Some status /\ status <> "failed") ->
  remaining_urls urls progress = [].
Proof.
  induction urls as [|url rest IH]; intros Hall; [reflexivity|].
  rewrite remaining_urls_cons.
  destruct (decide (url ∉ dom progress \/ progress !! url = Some "failed")) as [Hp|_].
  - exfalso. destruct (Hall url (list_elem_of_here _ _)) as (status & Hs & Hne).
    destruct Hp as [Hp|Hp]; [|congruence].
    apply Hp, elem_of_dom. eauto.
  - apply IH. intros u Hu. apply Hall. now apply list_elem_of_further.
Qed.

(** X7: a run in which every URL of the list has a ledger entry other than
    [failed] starts no task: it makes no request, writes no file and leaves
    the ledger, in memory and on disk, as it is. *)
Theorem rerun_with_nothing_pending E download_dir urls w :
  (forall u, u ∈ urls -> exists status, progress w !! u = Some status /\ status <> "failed") ->
  main_in_order E download_dir urls w = ([], w).
Proof.
  intros Hall. unfold main_in_order. now rewrite remaining_urls_nil.
Qed.

Lemma rerun_with_nothing_pending_witness :
  main_in_order E_down example_dir [example_url; example_url]
    (mkWorld {[ example_url := "completed" ]} ∅ NoFile 0 [])
  = ([], mkWorld {[ example_url := "completed" ]} ∅ NoFile 0 []).
Proof.
  apply rerun_with_nothing_pending. intros u Hu. exists "completed".
  apply elem_of_cons in Hu as [->|Hu];
    [|apply elem_of_cons in Hu as [->|Hu]; [|inversion Hu]];
    (split; [reflexivity | discriminate]).
Defined.

(** The pairs that [download_file] can return. *)
Lemma download_file_return_shape E url download_dir w name outcome w' :
  download_file E url download_dir w = (Return (name, outcome), w') ->
  outcome = None
  \/ outcome = Some "Download failed after retries"
  \/ name = url /\ exists e, is_request_exception e = false /\ outcome = Some (exn_str e).
Proof.
  intros Hrun.
  destruct (get_filename_from_url url) as [filename|e] eqn:Hname.
  - rewrite (download_file_valid_url _ _ _ _ _ Hname) in Hrun.
    unfold try_except, bind in Hrun.
    destruct (retry_loop E url filename (path_join download_dir filename)
                (transfer_plan (progress w) (files w) url (path_join download_dir filename))
                (seq 0 RETRY_COUNT) w) as [[[res|]|e] w1] eqn:Hloop.
    + unfold ret in Hrun. injection Hrun as -> <-.
      apply retry_loop_spec in Hloop as (Hres & _). injection Hres as -> ->. auto.
    + rewrite on_exhausted_run in Hrun.
      destruct (save_error E (saves w1)) as [msg|].
      * rewrite on_error_run in Hrun. cbn [saves] in Hrun.
        destruct (save_error E (Datatypes.S (saves w1))); [discriminate|].
        injection Hrun as <- <- <-. right. right. split; [reflexivity|].
        exists (OSError msg). split; reflexivity.
      * injection Hrun as <- <- <-. auto.
    + apply retry_loop_spec in Hloop. rewrite on_error_run in Hrun.
      destruct (save_error E (saves w1)); [discriminate|].
      injection Hrun as <- <- <-. right. right. split; [reflexivity|].
      exists e. split; [exact Hloop | reflexivity].
  - rewrite (download_file_invalid_url _ _ _ _ _ Hname), on_error_run in Hrun.
    destruct (save_error E (saves w)); [discriminate|].
    injection Hrun as <- <- <-. right. right. split; [reflexivity|].
    apply get_filename_from_url_raises_value_error in Hname as [msg ->].
    exists (ValueError msg). split; reflexivity.
Qed.

(** X8: [main] logs an error exactly for a pair whose second component is
    a non-empty text.  A pair logged as an error always belongs to a URL
    recorded [failed]; a pair logged as a success belongs to a URL recorded
    [completed], except when a local error whose text is empty was caught:
    then the URL is recorded [failed] and yet logged as a success. *)
Theorem main_logs_success E url download_dir w name outcome w' :
  download_file E url download_dir w = (Return (name, outcome), w') ->
  (truthy outcome = true -> progress w' !! url = Some "failed")
  /\ (truthy outcome = false ->
      progress w' !! url = Some "completed"
      \/ name = url /\ outcome = Some "" /\ progress w' !! url = Some "failed").
Proof.
  intros Hrun.
  destruct (download_file_ledger _ _ _ _ _ _ Hrun) as [([n Hr] & Hp & _)|(Hr & Hp & _)].
  - injection Hr as -> ->. rewrite Hp, lookup_insert_eq. split; [discriminate | auto].
  - rewrite Hp, lookup_insert_eq. split; [reflexivity|]. intros Hfalse. right.
    destruct (download_file_return_shape _ _ _ _ _ _ _ Hrun) as [->|[->|(-> & e & _ & ->)]].
    + exfalso. eapply Hr. reflexivity.
    + discriminate.
    + simpl in Hfalse. apply str_nonempty_false in Hfalse. rewrite Hfalse. auto.
Qed.

Lemma main_logs_success_witness :
  download_file
    (mkEnv (fun _ headers _ => range_server "abc" headers)
           (fun _ _ _ => Some "") no_write_error no_save_error fails_in_open)
    example_url example_dir w_fresh
  = (Return (example_url, Some ""),
     snd (download_file
            (mkEnv (fun _ headers _ => range_server "abc" headers)
                   (fun _ _ _ => Some "") no_write_error no_save_error fails_in_open)
            example_url example_dir w_fresh))
  /\ truthy (Some "") = false
  /\ progress (snd (download_file
                      (mkEnv (fun _ headers _ => range_server "abc" headers)
                             (fun _ _ _ => Some "") no_write_error no_save_error fails_in_open)
                      example_url example_dir w_fresh)) !! example_url = Some "failed".
Proof.
  assert (Hrun : download_file
    (mkEnv (fun _ headers _ => range_server "abc" headers)
           (fun _ _ _ => Some "") no_write_error no_save_error fails_in_open)
    example_url example_dir w_fresh
  = (Return (example_url, Some ""),
     snd (download_file
            (mkEnv (fun _ headers _ => range_server "abc" headers)
                   (fun _ _ _ => Some "") no_write_error no_save_error fails_in_open)
            example_url example_dir w_fresh)))
    by (apply injective_projections; [vm_compute; reflexivity | reflexivity]).
  split; [exact Hrun|]. split; [reflexivity|].
  destruct (proj2 (main_logs_success _ _ _ _ _ _ _ Hrun) eq_refl) as [Hc|(_ & _ & Hf)];
    [|exact Hf].
  exfalso. vm_compute in Hc. discriminate.
Defined.

(** ** The name and the path of the saved file *)

Lemma str_find_app_absent c a b :
  str_find c a < 0 -> str_find c b < 0 -> str_find c (a +:+ b) < 0.
Proof.
  intros Ha Hb. induction a as [|d a IH]; [exact Hb|].
  rewrite str_app_cons. cbn [str_find] in *.
  destruct (Ascii.eqb c d); [lia|].
  destruct (str_find c a <? 0) eqn:Hlt.
  - apply Z.ltb_lt in Hlt. specialize (IH Hlt).
    apply Z.ltb_lt in IH. rewrite IH. lia.
  - apply Z.ltb_ge in Hlt. lia.
Qed.

Lemma hex_chars_no_slash h :
  str_forallb is_hex_char h = true -> str_find "/" h < 0.
Proof.
  induction h as [|c h IH]; cbn [str_forallb str_find]; [lia|].
  intros H. apply andb_true_iff in H as [Hc Hh]. specialize (IH Hh).
  destruct (Ascii.eqb "/" c) eqn:Heq.
  - apply Ascii.eqb_eq in Heq as <-. discriminate.
  - apply Z.ltb_lt in IH. rewrite IH. lia.
Qed.

(** X9: the name that [get_filename_from_url] returns is never empty and
    holds no slash, whatever the URL; so joining it to the download
    directory never discards the directory: the target path is the
    directory, a separating slash where the directory is non-empty and does
    not end in one, and the name. *)
Theorem derived_filename_is_one_segment url f :
  get_filename_from_url url = Return f ->
  f <> ""
  /\ str_contains "/" f = false
  /\ forall download_dir,
       path_join download_dir f
       = if negb (str_nonempty download_dir) || str_endswith_slash download_dir
         then download_dir +:+ f
         else download_dir +:+ "/" +:+ f.
Proof.
  intros Hname.
  assert (Hslash : str_contains "/" f = false).
  { revert Hname. unfold get_filename_from_url.
    destruct (urlparse_path url) as [path|e]; simpl; [|discriminate].
    destruct (str_nonempty (basename path)) eqn:Hne; intros H; injection H as <-.
    - apply basename_no_slash.
    - unfold str_contains. apply Z.leb_gt, str_find_app_absent.
      + vm_compute. reflexivity.
      + apply hex_chars_no_slash, hexdigest_prefix. }
  split; [|split; [exact Hslash|]].
  - revert Hname. unfold get_filename_from_url.
    destruct (urlparse_path url) as [path|e]; simpl; [|discriminate].
    destruct (str_nonempty (basename path)) eqn:Hne; intros H; injection H as <-.
    + now apply str_nonempty_true.
    + discriminate.
  - intros download_dir. unfold path_join.
    now rewrite (no_slash_not_startswith _ Hslash).
Qed.

Lemma derived_filename_is_one_segment_witness :
  "x.zim" <> ""
  /\ str_contains "/" "x.zim" = false
  /\ forall download_dir,
       path_join download_dir "x.zim"
       = if negb (str_nonempty download_dir) || str_endswith_slash download_dir
         then download_dir +:+ "x.zim"
         else download_dir +:+ "/" +:+ "x.zim".
Proof.
  apply (derived_filename_is_one_segment "http://a.org//b/../x.zim?u=/etc/passwd").
  vm_compute. reflexivity.
Defined.

(** ** The lock of [save_progress] *)








(** ** [read_urls] *)

Lemma str_app_nil_r (a : string) : a +:+ "" = a.
Proof. induction a as [|c a IH]; [reflexivity|]. now rewrite str_app_cons, IH. Qed.

Lemma str_length_app (a b : string) :
  String.length (a +:+ b) = (String.length a + String.length b)%nat.
Proof. induction a as [|c a IH]; [reflexivity|]. rewrite str_app_cons. simpl. now rewrite IH. Qed.

Lemma str_forallb_app p (a b : string) :
  str_forallb p (a +:+ b) = str_forallb p a && str_forallb p b.
Proof.
  induction a as [|c a IH]; [reflexivity|].
  rewrite str_app_cons. cbn [str_forallb]. now rewrite IH, andb_assoc.
Qed.

Lemma strip_prefix_Some p s rest : strip_prefix p s = Some rest <-> s = p +:+ rest.
Proof.
  revert s. induction p as [|a p IH]; intros s.
  - cbn [strip_prefix]. change ("" +:+ rest) with rest. split; congruence.
  - rewrite str_app_cons. destruct s as [|b s]; cbn [strip_prefix].
    + split; discriminate.
    + destruct (Ascii.eqb a b) eqn:Hab.
      * apply Ascii.eqb_eq in Hab as ->. rewrite IH. split; congruence.
      * apply Ascii.eqb_neq in Hab. split; [discriminate | congruence].
Qed.

Lemma is_whitespace_In ws : is_whitespace ws = true <-> In ws whitespace.
Proof.
  unfold is_whitespace. rewrite existsb_exists. split.
  - intros (x & Hin & Heq). apply String.eqb_eq in Heq as ->. exact Hin.
  - intros Hin. exists ws. split; [exact Hin | apply String.eqb_refl].
Qed.

Lemma whitespace_nonempty ws : is_whitespace ws = true -> ws <> "".
Proof. intros H ->. vm_compute in H. discriminate. Qed.

Lemma drop_whitespace_Some s rest :
  drop_whitespace s = Some rest ->
  exists ws, is_whitespace ws = true /\ s = ws +:+ rest.
Proof.
  unfold drop_whitespace.
  assert (Hall : forall ws, In ws whitespace -> is_whitespace ws = true)
    by (intros ws; apply is_whitespace_In).
  revert Hall. generalize whitespace as l.
  induction l as [|ws l IH]; intros Hall; cbn [fold_right]; [discriminate|].
  destruct (strip_prefix ws s) as [r|] eqn:Hws.
  - intros [= ->]. exists ws. split; [apply Hall; now left | now apply strip_prefix_Some].
  - apply IH. intros ws' Hin. apply Hall. now right.
Qed.

Lemma drop_whitespace_head ws rest :
  is_whitespace ws = true -> drop_whitespace (ws +:+ rest) <> None.
Proof.
  intros Hws. apply is_whitespace_In in Hws. unfold drop_whitespace.
  revert Hws. generalize whitespace as l.
  induction l as [|ws' l IH]; intros Hin; cbn [fold_right]; [destruct Hin|].
  destruct (strip_prefix ws' (ws +:+ rest)) as [r|] eqn:Hws; [discriminate|].
  destruct Hin as [->|Hin]; [|now apply IH].
  assert (H : strip_prefix ws (ws +:+ rest) = Some rest) by now apply strip_prefix_Some.
  congruence.
Qed.

Lemma drop_whitespace_prefix p suffix :
  drop_whitespace (p +:+ suffix) = None -> drop_whitespace p = None.
Proof.
  intros H. destruct (drop_whitespace p) as [r|] eqn:Hp; [|reflexivity].
  apply drop_whitespace_Some in Hp as (ws & Hws & ->).
  rewrite str_app_assoc in H. now apply drop_whitespace_head in H.
Qed.

Lemma py_lstrip_go_fixed fuel s : drop_whitespace s = None -> py_lstrip_go fuel s = s.
Proof. intros H. destruct fuel; cbn [py_lstrip_go]; [reflexivity | now rewrite H]. Qed.

(** [lstrip] stops only where no white space is ahead. *)
Lemma py_lstrip_go_done fuel s :
  (String.length s <= fuel)%nat -> drop_whitespace (py_lstrip_go fuel s) = None.
Proof.
  revert s. induction fuel as [|fuel IH]; intros s Hlen; cbn [py_lstrip_go].
  - destruct s; [reflexivity | simpl in Hlen; lia].
  - destruct (drop_whitespace s) as [rest|] eqn:Hd; [|exact Hd].
    apply IH. apply drop_whitespace_Some in Hd as (ws & Hws & ->).
    rewrite str_length_app in Hlen.
    destruct ws; [now apply whitespace_nonempty in Hws | simpl in Hlen; lia].
Qed.

Lemma py_lstrip_go_suffix fuel s : exists pre, s = pre +:+ py_lstrip_go fuel s.
Proof.
  revert s. induction fuel as [|fuel IH]; intros s; cbn [py_lstrip_go].
  - now exists "".
  - destruct (drop_whitespace s) as [rest|] eqn:Hd; [|now exists ""].
    apply drop_whitespace_Some in Hd as (ws & _ & ->).
    destruct (IH rest) as [pre Hpre]. exists (ws +:+ pre).
    now rewrite str_app_assoc, <- Hpre.
Qed.

Lemma py_rstrip_prefix t : exists suffix, t = py_rstrip t +:+ suffix.
Proof.
  induction t as [|c t [suffix IH]]; [now exists ""|]. cbn [py_rstrip].
  destruct (is_whitespace (String c (py_rstrip t))).
  - now exists (String c t).
  - exists suffix. now rewrite str_app_cons, <- IH.
Qed.

(** What [rstrip] leaves does not end in white space. *)
Lemma py_rstrip_end t pre ws : is_whitespace ws = true -> py_rstrip t <> pre +:+ ws.
Proof.
  intros Hws. revert pre. induction t as [|c t IH]; intros pre; cbn [py_rstrip].
  - destruct pre; [|discriminate]. intros H. symmetry in H.
    now apply whitespace_nonempty in H.
  - destruct (is_whitespace (String c (py_rstrip t))) eqn:Hc.
    + destruct pre; [|discriminate]. intros H. symmetry in H.
      now apply whitespace_nonempty in H.
    + destruct pre as [|d pre].
      * change ("" +:+ ws) with ws. intros H. congruence.
      * rewrite str_app_cons. intros [= _ H]. now apply IH in H.
Qed.

Lemma py_rstrip_idem t : py_rstrip (py_rstrip t) = py_rstrip t.
Proof.
  induction t as [|c t IH]; [reflexivity|]. cbn [py_rstrip].
  destruct (is_whitespace (String c (py_rstrip t))) eqn:Hc; [reflexivity|].
  cbn [py_rstrip]. now rewrite IH, Hc.
Qed.

Lemma py_rstrip_LF s : py_rstrip (s +:+ String LF "") = py_rstrip s.
Proof.
  induction s as [|c s IH]; [vm_compute; reflexivity|].
  rewrite str_app_cons. cbn [py_rstrip]. now rewrite IH.
Qed.

Lemma str_app_snoc_split pre t body c :
  pre +:+ t = body +:+ String c "" ->
  t = "" \/ exists t', t = t' +:+ String c "" /\ body = pre +:+ t'.
Proof.
  revert body. induction pre as [|d pre IH]; intros body.
  - change ("" +:+ t) with t. intros ->. right. now exists body.
  - rewrite str_app_cons. destruct body as [|b body].
    + change ("" +:+ String c "") with (String c ""). intros [= -> H].
      destruct pre; [|discriminate]. change ("" +:+ t) with t in H. now left.
    + rewrite str_app_cons. intros [= -> H].
      destruct (IH _ H) as [->|(t' & -> & ->)]; [now left|].
      right. exists t'. now rewrite str_app_cons.
Qed.

Lemma no_breaks_find s :
  no_breaks s = true -> str_contains LF s = false /\ str_contains CR s = false.
Proof.
  unfold str_contains, no_breaks. induction s as [|c s IH]; [split; reflexivity|].
  cbn [str_forallb str_find]. intros H.
  apply andb_true_iff in H as [Hc Hs]. apply andb_true_iff in Hc as [Hlf Hcr].
  destruct (IH Hs) as [H1 H2]. apply Z.leb_gt in H1, H2.
  rewrite (Ascii.eqb_sym LF c), (Ascii.eqb_sym CR c).
  apply negb_true_iff in Hlf, Hcr. rewrite Hlf, Hcr.
  apply Z.ltb_lt in H1, H2. rewrite H1, H2. split; reflexivity.
Qed.

(** A line of the file holds no line break but a last [\n]. *)
Lemma text_lines_shape text :
  Forall (fun line => exists body,
            no_breaks body = true /\ (line = body \/ line = body +:+ String LF ""))
         (text_lines text).
Proof.
  remember (String.length text) as n eqn:Hn.
  assert (Hle : (String.length text <= n)%nat) by lia. clear Hn.
  revert text Hle. induction n as [|n IH]; intros text Hle.
  - destruct text; [constructor | simpl in Hle; lia].
  - destruct text as [|c rest]; [constructor|]. simpl in Hle.
    assert (Hnl : exists body, no_breaks body = true
                   /\ (String LF "" = body \/ String LF "" = body +:+ String LF "")).
    { exists "". split; [reflexivity | now right]. }
    cbn [text_lines].
    destruct (Ascii.eqb c LF) eqn:Hlf.
    { constructor; [exact Hnl | apply IH; lia]. }
    destruct (Ascii.eqb c CR) eqn:Hcr.
    { destruct rest as [|d rest']; [constructor; [exact Hnl | constructor]|].
      destruct (Ascii.eqb d LF); (constructor; [exact Hnl | apply IH; simpl in *; lia]). }
    specialize (IH rest ltac:(lia)).
    destruct (text_lines rest) as [|line lines].
    + constructor; [|constructor]. exists (String c ""). split; [|now left].
      unfold no_breaks. cbn [str_forallb]. now rewrite Hlf, Hcr.
    + inversion IH as [|? ? (body & Hbody & Hline) Hrest]; subst.
      constructor; [|exact Hrest]. exists (String c body). split.
      * unfold no_breaks in *. cbn [str_forallb]. now rewrite Hlf, Hcr, Hbody.
      * destruct Hline as [->| ->]; [now left | right; now rewrite str_app_cons].
Qed.

Lemma py_strip_no_breaks line body :
  no_breaks body = true -> line = body \/ line = body +:+ String LF "" ->
  no_breaks (py_strip line) = true.
Proof.
  intros Hbody Hline. unfold py_strip, py_lstrip.
  destruct (py_lstrip_go_suffix (String.length line) line) as [pre Hpre].
  set (t := py_lstrip_go (String.length line) line) in *. clearbody t.
  assert (Hof : forall t', (exists p, body = p +:+ t') -> no_breaks (py_rstrip t') = true).
  { intros t' [p Hp]. destruct (py_rstrip_prefix t') as [suffix Hs].
    rewrite Hp, Hs in Hbody. unfold no_breaks in *.
    rewrite !str_forallb_app in Hbody.
    apply andb_true_iff in Hbody as [_ Hbody].
    now apply andb_true_iff in Hbody as [Hbody _]. }
  destruct Hline as [->| ->].
  - apply Hof. now exists pre.
  - symmetry in Hpre.
    destruct (str_app_snoc_split _ _ _ _ Hpre) as [->|(t' & -> & ->)]; [reflexivity|].
    rewrite py_rstrip_LF. apply Hof. now exists pre.
Qed.

(** X11: every entry of the list that [read_urls] returns is a non-empty
    text that neither begins nor ends with a white space character and holds
    no line break; stripping it again changes nothing. *)
Theorem read_urls_entries_are_stripped text urls e :
  read_urls (Some text) = Return urls -> In e urls ->
  e <> ""
  /\ (forall ws rest, is_whitespace ws = true -> e <> ws +:+ rest)
  /\ (forall ws pre, is_whitespace ws = true -> e <> pre +:+ ws)
  /\ str_contains LF e = false /\ str_contains CR e = false
  /\ py_strip e = e.
Proof.
  intros [= <-] Hin. apply in_map_iff in Hin as (line & <- & Hin).
  apply filter_In in Hin as [Hin Hne].
  assert (Hhead : drop_whitespace (py_strip line) = None).
  { unfold py_strip. destruct (py_rstrip_prefix (py_lstrip line)) as [suffix Hs].
    apply (drop_whitespace_prefix _ suffix). rewrite <- Hs.
    apply py_lstrip_go_done. lia. }
  split; [now apply str_nonempty_true|]. split; [|split].
  - intros ws rest Hws Heq. rewrite Heq in Hhead.
    now apply drop_whitespace_head in Hhead.
  - intros ws pre Hws. now apply py_rstrip_end.
  - pose proof (text_lines_shape text) as Hshape.
    rewrite Forall_forall in Hshape.
    destruct (Hshape line) as (body & Hbody & Hline).
    { apply list_elem_of_In. exact Hin. }
    split; [|split]; try now apply no_breaks_find, (py_strip_no_breaks line body).
    unfold py_strip at 1, py_lstrip. rewrite py_lstrip_go_fixed by exact Hhead.
    apply py_rstrip_idem.
Qed.

Lemma read_urls_entries_are_stripped_witness :
  "http://a.org/x.zim" <> ""
  /\ (forall ws rest, is_whitespace ws = true -> "http://a.org/x.zim" <> ws +:+ rest)
  /\ (forall ws pre, is_whitespace ws = true -> "http://a.org/x.zim" <> pre +:+ ws)
  /\ str_contains LF "http://a.org/x.zim" = false
  /\ str_contains CR "http://a.org/x.zim" = false
  /\ py_strip "http://a.org/x.zim" = "http://a.org/x.zim".
Proof.
  apply (read_urls_entries_are_stripped
           (String (chr 9) (String LF (" http://a.org/x.zim  "
              +:+ String CR (String LF ("http://b.org/y" +:+ String (chr 11) "")))))
           ["http://a.org/x.zim"; "http://b.org/y"]).
  - vm_compute. reflexivity.
  - left. reflexivity.
Defined.

(** *** A file of URLs, one on each line *)

Lemma str_forallb_impl (p q : ascii -> bool) s :
  (forall c, p c = true -> q c = true) ->
  str_forallb p s = true -> str_forallb q s = true.
Proof.
  intros Hpq. induction s as [|c s IH]; [reflexivity|]. cbn [str_forallb].
  intros H. apply andb_true_iff in H as [Hc Hs]. now rewrite (Hpq _ Hc), IH.
Qed.

Lemma ascii_space_head c x :
  is_whitespace (String c "") = true -> drop_whitespace (String c x) = Some x.
Proof.
  intros H. destruct c as [[] [] [] [] [] [] [] []];
    vm_compute in H; try discriminate; vm_compute; reflexivity.
Qed.

Lemma visible_head c x : is_visible c = true -> drop_whitespace (String c x) = None.
Proof.
  intros H. destruct c as [[] [] [] [] [] [] [] []];
    vm_compute in H; try discriminate; vm_compute; reflexivity.
Qed.

Lemma visible_not_whitespace c r : is_visible c = true -> is_whitespace (String c r) = false.
Proof.
  intros H. destruct c as [[] [] [] [] [] [] [] []];
    vm_compute in H; try discriminate; vm_compute; reflexivity.
Qed.

Lemma blank_is_space c : is_blank c = true -> is_whitespace (String c "") = true.
Proof.
  unfold is_blank. intros H.
  apply orb_true_iff in H as [H|H]; apply Ascii.eqb_eq in H as ->; vm_compute; reflexivity.
Qed.

Lemma blank_no_break c :
  is_blank c = true -> negb (Ascii.eqb c LF) && negb (Ascii.eqb c CR) = true.
Proof.
  unfold is_blank. intros H.
  apply orb_true_iff in H as [H|H]; apply Ascii.eqb_eq in H as ->; vm_compute; reflexivity.
Qed.

Lemma visible_no_break c :
  is_visible c = true -> negb (Ascii.eqb c LF) && negb (Ascii.eqb c CR) = true.
Proof.
  intros H.
  destruct (Ascii.eqb c LF) eqn:Hlf;
    [apply Ascii.eqb_eq in Hlf as ->; vm_compute in H; discriminate|].
  destruct (Ascii.eqb c CR) eqn:Hcr;
    [apply Ascii.eqb_eq in Hcr as ->; vm_compute in H; discriminate|].
  reflexivity.
Qed.

Lemma row_no_breaks r : well_formed r = true -> no_breaks (row_text r) = true.
Proof.
  unfold well_formed, row_text, no_breaks. intros H.
  apply andb_true_iff in H as [H Ha]. apply andb_true_iff in H as [Hb He].
  rewrite !str_forallb_app.
  rewrite (str_forallb_impl _ _ _ blank_no_break Hb).
  rewrite (str_forallb_impl _ _ _ visible_no_break He).
  now rewrite (str_forallb_impl _ _ _ blank_no_break Ha).
Qed.

Lemma py_lstrip_go_spaces pad t fuel :
  str_forallb (fun c => is_whitespace (String c "")) pad = true ->
  drop_whitespace t = None -> (String.length pad <= fuel)%nat ->
  py_lstrip_go fuel (pad +:+ t) = t.
Proof.
  intros Hpad Ht. revert fuel. induction pad as [|c pad IH]; intros fuel Hlen.
  - now apply py_lstrip_go_fixed.
  - cbn [str_forallb] in Hpad. apply andb_true_iff in Hpad as [Hc Hpad].
    destruct fuel as [|fuel]; [simpl in Hlen; lia|].
    rewrite str_app_cons. cbn [py_lstrip_go]. rewrite (ascii_space_head _ _ Hc).
    apply IH; [exact Hpad | simpl in Hlen; lia].
Qed.

Lemma py_rstrip_spaces pad :
  str_forallb (fun c => is_whitespace (String c "")) pad = true -> py_rstrip pad = "".
Proof.
  induction pad as [|c pad IH]; [reflexivity|]. cbn [str_forallb py_rstrip].
  intros H. apply andb_true_iff in H as [Hc Hpad]. now rewrite (IH Hpad), Hc.
Qed.

Lemma py_rstrip_visible u x :
  str_forallb is_visible u = true -> py_rstrip (u +:+ x) = u +:+ py_rstrip x.
Proof.
  induction u as [|c u IH]; [reflexivity|]. cbn [str_forallb].
  intros H. apply andb_true_iff in H as [Hc Hu].
  rewrite !str_app_cons. cbn [py_rstrip].
  now rewrite (IH Hu), (visible_not_whitespace _ _ Hc).
Qed.

(** Stripping a line of such a file leaves its entry. *)
Lemma py_strip_row r nl :
  well_formed r = true -> nl = "" \/ nl = String LF "" ->
  py_strip (row_text r +:+ nl) = entry r.
Proof.
  unfold well_formed, row_text. intros H Hnl.
  apply andb_true_iff in H as [H Ha]. apply andb_true_iff in H as [Hb He].
  apply (str_forallb_impl _ _ _ blank_is_space) in Hb, Ha.
  assert (Htail : str_forallb (fun c => is_whitespace (String c "")) (after r +:+ nl) = true).
  { rewrite str_forallb_app, Ha. destruct Hnl as [-> | ->]; vm_compute; reflexivity. }
  rewrite !str_app_assoc.
  set (tail := after r +:+ nl) in *. clearbody tail.
  destruct (entry r) as [|c u] eqn:Hentry.
  - change ("" +:+ tail) with tail.
    unfold py_strip, py_lstrip.
    rewrite <- (str_app_nil_r (before r +:+ tail)) at 2.
    rewrite py_lstrip_go_spaces; [reflexivity | | reflexivity | lia].
    now rewrite str_forallb_app, Hb, Htail.
  - unfold py_strip, py_lstrip.
    rewrite py_lstrip_go_spaces.
    + rewrite (py_rstrip_visible _ _ He), (py_rstrip_spaces _ Htail).
      apply str_app_nil_r.
    + exact Hb.
    + rewrite str_app_cons. apply visible_head.
      cbn [str_forallb] in He. now apply andb_true_iff in He as [He _].
    + rewrite str_length_app. lia.
Qed.

Lemma text_lines_no_breaks t :
  no_breaks t = true -> text_lines t = if str_nonempty t then [t] else [].
Proof.
  unfold no_breaks. induction t as [|c t IH]; [reflexivity|].
  cbn [str_forallb]. intros H.
  apply andb_true_iff in H as [Hc Ht]. apply andb_true_iff in Hc as [Hlf Hcr].
  apply negb_true_iff in Hlf, Hcr.
  cbn [text_lines str_nonempty]. rewrite Hlf, Hcr, (IH Ht).
  destruct t; reflexivity.
Qed.

Lemma text_lines_row t eol rest :
  no_breaks t = true -> In eol line_endings ->
  (eol = String CR "" -> forall rest', rest <> String LF rest') ->
  text_lines (t +:+ eol +:+ rest) = (t +:+ String LF "") :: text_lines rest.
Proof.
  unfold no_breaks. intros Ht Heol Hrest. induction t as [|c t IH].
  - change ("" +:+ eol +:+ rest) with (eol +:+ rest).
    change ("" +:+ String LF "") with (String LF "").
    destruct Heol as [<-|[<-|[<-|[]]]].
    + change (String LF "" +:+ rest) with (String LF rest).
      cbn [text_lines]. now rewrite Ascii.eqb_refl.
    + change (String CR (String LF "") +:+ rest) with (String CR (String LF rest)).
      cbn [text_lines]. change (Ascii.eqb CR LF) with false. cbv iota.
      now rewrite !Ascii.eqb_refl.
    + change (String CR "" +:+ rest) with (String CR rest).
      cbn [text_lines]. change (Ascii.eqb CR LF) with false. cbv iota.
      rewrite Ascii.eqb_refl. destruct rest as [|d rest']; [reflexivity|].
      destruct (Ascii.eqb d LF) eqn:Hd; [|reflexivity].
      apply Ascii.eqb_eq in Hd as ->. now destruct (Hrest eq_refl rest').
  - cbn [str_forallb] in Ht.
    apply andb_true_iff in Ht as [Hc Ht]. apply andb_true_iff in Hc as [Hlf Hcr].
    apply negb_true_iff in Hlf, Hcr.
    rewrite !str_app_cons. cbn [text_lines]. now rewrite Hlf, Hcr, (IH Ht).
Qed.

Lemma no_breaks_start t x :
  no_breaks t = true -> (forall r, x <> String LF r) -> forall r, t +:+ x <> String LF r.
Proof.
  intros Ht Hx r. destruct t as [|c t]; [apply Hx|].
  rewrite str_app_cons. intros [= -> _].
  unfold no_breaks in Ht. cbn [str_forallb] in Ht.
  rewrite Ascii.eqb_refl in Ht. discriminate.
Qed.

Lemma file_text_start eol rows last :
  forallb well_formed (rows ++ [last]) = true ->
  In eol line_endings -> eol <> String LF "" ->
  forall r, file_text eol rows last <> String LF r.
Proof.
  intros Hwf Heol Hne. destruct rows as [|row rows]; cbn [file_text].
  - cbn [app forallb] in Hwf. apply andb_true_iff in Hwf as [Hwf _].
    intros r. rewrite <- (str_app_nil_r (row_text last)).
    apply no_breaks_start; [now apply row_no_breaks | discriminate].
  - cbn [app forallb] in Hwf. apply andb_true_iff in Hwf as [Hwf _].
    apply no_breaks_start; [now apply row_no_breaks|].
    destruct Heol as [<-|[<-|[<-|[]]]]; [congruence | discriminate | discriminate].
Qed.

(** X12: for a file that holds one entry on each line, [read_urls] returns
    the non-empty entries in the order of the file: spaces and tabs around
    an entry, blank lines, the line ending of the file ([\n], [\r\n] or
    [\r]) and a missing line ending after the last line make no
    difference. *)
Theorem read_urls_round_trip eol rows last :
  In eol line_endings ->
  forallb well_formed (rows ++ [last]) = true ->
  read_urls (Some (file_text eol rows last))
  = Return (List.filter str_nonempty (map entry (rows ++ [last]))).
Proof.
  intros Heol Hwf. cbn [read_urls]. f_equal.
  induction rows as [|row rows IH]; cbn [file_text app map].
  - cbn [app forallb] in Hwf. apply andb_true_iff in Hwf as [Hwf _].
    rewrite text_lines_no_breaks by now apply row_no_breaks.
    pose proof (py_strip_row last "" Hwf (or_introl eq_refl)) as Hstrip.
    rewrite str_app_nil_r in Hstrip.
    destruct (str_nonempty (row_text last)) eqn:Hne.
    + cbn [List.filter map]. rewrite Hstrip.
      destruct (str_nonempty (entry last)); cbn [map]; now rewrite ?Hstrip.
    + apply str_nonempty_false in Hne. rewrite Hne in Hstrip.
      rewrite <- Hstrip. reflexivity.
  - cbn [app forallb] in Hwf. apply andb_true_iff in Hwf as [Hrow Hwf].
    rewrite text_lines_row.
    + pose proof (py_strip_row row (String LF "") Hrow (or_intror eq_refl)) as Hstrip.
      cbn [List.filter]. rewrite Hstrip.
      destruct (str_nonempty (entry row)); cbn [map]; now rewrite ?Hstrip, (IH Hwf).
    + now apply row_no_breaks.
    + exact Heol.
    + intros ->. apply file_text_start; [exact Hwf | exact Heol | discriminate].
Qed.

Lemma read_urls_round_trip_witness :
  read_urls (Some (file_text (String CR (String LF ""))
                     [mkRow "  " "http://a.org/x.zim" " "; mkRow "" "" (String (chr 9) "");
                      mkRow "" "http://b.org/y" ""]
                     (mkRow "" "" "")))
  = Return ["http://a.org/x.zim"; "http://b.org/y"].
Proof.
  apply (read_urls_round_trip (String CR (String LF ""))
           [mkRow "  " "http://a.org/x.zim" " "; mkRow "" "" (String (chr 9) "");
            mkRow "" "http://b.org/y" ""]
           (mkRow "" "" "")).
  - right. left. reflexivity.
  - vm_compute. reflexivity.
Defined.

(** ** The progress file written and read back *)

Lemma scan_escape_char c tail :
  (ascii_code c <? 128) = true ->
  scan_string (escape_code_point (ascii_code c) +:+ tail)
  = prepend (String c "") (scan_string tail).
Proof.
  intros H. destruct c as [[] [] [] [] [] [] [] []];
    vm_compute in H; try discriminate;
    match goal with
    | |- scan_string (?e +:+ tail) = _ =>
        let v := eval vm_compute in e in change e with v
    end;
    rewrite !str_app_cons; change ("" +:+ tail) with tail;
    simpl; reflexivity.
Qed.

(** Reading an escaped text up to the closing quote gives the text. *)
Lemma scan_escaped s tail :
  is_ascii_text s = true ->
  scan_string (escape_string s +:+ String dquote tail) = Some (s, tail).
Proof.
  unfold is_ascii_text. induction s as [|c s IH]; intros H.
  - change (scan_string (String dquote tail) = Some ("", tail)).
    cbn [scan_string]. now rewrite Ascii.eqb_refl.
  - cbn [str_forallb] in H. apply andb_true_iff in H as [Hc Hs].
    cbn [escape_string]. rewrite Hc, str_app_assoc, (scan_escape_char _ _ Hc), (IH Hs).
    reflexivity.
Qed.

Lemma quoted_app s r : quoted s +:+ r = String dquote (escape_string s +:+ String dquote r).
Proof. unfold quoted. now rewrite str_app_cons, str_app_assoc. Qed.

Lemma parse_value_string fuel s tail :
  is_ascii_text s = true ->
  parse_value (Datatypes.S fuel) (quoted s +:+ tail) = Some (JString s, tail).
Proof.
  intros Hs. rewrite quoted_app.
  change (match scan_string (escape_string s +:+ String dquote tail) with
          | Some (text, r) => Some (JString text, r)
          | None => None
          end = Some (JString s, tail)).
  now rewrite scan_escaped.
Qed.

(** Reading one member that [json.dump] wrote, up to what follows it. *)
Lemma parse_member fuel kv r3 :
  is_ascii_text (fst kv) = true -> is_ascii_text (snd kv) = true ->
  parse_members (Datatypes.S (Datatypes.S fuel)) (skip_ws (dump_member kv +:+ r3))
  = match skip_ws r3 with
    | String "}" r4 => Some ([string_member kv], r4)
    | String "," r4 =>
        match parse_members (Datatypes.S fuel) (skip_ws r4) with
        | Some (ms, r5) => Some (string_member kv :: ms, r5)
        | None => None
        end
    | _ => None
    end.
Proof.
  intros Hk Hv. unfold dump_member. rewrite !str_app_assoc, (quoted_app (fst kv)).
  change (match scan_string (escape_string (fst kv)
                               +:+ String dquote (": " +:+ quoted (snd kv) +:+ r3)) with
          | Some (key, r1) =>
              match skip_ws r1 with
              | String ":" r2 =>
                  match parse_value (Datatypes.S fuel) (skip_ws r2) with
                  | Some (v, r3) =>
                      match skip_ws r3 with
                      | String "}" r4 => Some ([(key, v)], r4)
                      | String "," r4 =>
                          match parse_members (Datatypes.S fuel) (skip_ws r4) with
                          | Some (ms, r5) => Some ((key, v) :: ms, r5)
                          | None => None
                          end
                      | _ => None
                      end
                  | None => None
                  end
              | _ => None
              end
          | None => None
          end = match skip_ws r3 with
                | String "}" r4 => Some ([string_member kv], r4)
                | String "," r4 =>
                    match parse_members (Datatypes.S fuel) (skip_ws r4) with
                    | Some (ms, r5) => Some (string_member kv :: ms, r5)
                    | None => None
                    end
                | _ => None
                end).
  rewrite (scan_escaped _ _ Hk).
  change (skip_ws (": " +:+ quoted (snd kv) +:+ r3))
    with (String ":" (String " " (quoted (snd kv) +:+ r3))).
  cbv beta iota.
  change (skip_ws (String " " (quoted (snd kv) +:+ r3))) with (quoted (snd kv) +:+ r3).
  now rewrite (parse_value_string _ _ _ Hv).
Qed.

Lemma skip_ws_member kv r : exists y, skip_ws (dump_member kv +:+ r) = String dquote y.
Proof. unfold dump_member. rewrite !str_app_assoc, quoted_app. eexists. reflexivity. Qed.

Lemma dump_members_cons kv items :
  exists r, dump_members (kv :: items) = dump_member kv +:+ r.
Proof.
  destruct items as [|kv2 items].
  - exists "". symmetry. apply str_app_nil_r.
  - eexists. reflexivity.
Qed.

Lemma length_dump_members items :
  (length items <= String.length (dump_members items))%nat.
Proof.
  induction items as [|kv items IH]; [simpl; lia|].
  destruct items as [|kv2 items].
  - unfold dump_members, dump_member. rewrite str_length_app. simpl. lia.
  - change (dump_members (kv :: kv2 :: items))
      with (dump_member kv +:+ String "," (String LF (dump_members (kv2 :: items)))).
    rewrite str_length_app. cbn [String.length length] in *. lia.
Qed.

(** Reading the members that [json.dump] wrote, up to the closing brace. *)
Lemma parse_members_dump items tail fuel :
  items <> [] ->
  forallb (fun kv => is_ascii_text (fst kv) && is_ascii_text (snd kv)) items = true ->
  (length items < fuel)%nat ->
  parse_members fuel (skip_ws (dump_members items +:+ String LF (String "}" tail)))
  = Some (map string_member items, tail).
Proof.
  intros Hne Hascii. revert fuel.
  induction items as [|kv items IH]; [congruence|]. clear Hne.
  cbn [forallb] in Hascii. apply andb_true_iff in Hascii as [Hkv Hascii].
  apply andb_true_iff in Hkv as [Hk Hv].
  intros fuel Hlen. cbn [length] in Hlen.
  destruct fuel as [|[|fuel]]; [lia | lia |].
  destruct items as [|kv2 items].
  - change (dump_members [kv]) with (dump_member kv).
    rewrite (parse_member _ _ _ Hk Hv). reflexivity.
  - change (dump_members (kv :: kv2 :: items))
      with (dump_member kv +:+ String "," (String LF (dump_members (kv2 :: items)))).
    rewrite str_app_assoc, (parse_member _ _ _ Hk Hv).
    change (match parse_members (Datatypes.S fuel)
                    (skip_ws (dump_members (kv2 :: items) +:+ String LF (String "}" tail))) with
            | Some (ms, r5) => Some (string_member kv :: ms, r5)
            | None => None
            end = Some (map string_member (kv :: kv2 :: items), tail)).
    rewrite IH; [reflexivity | discriminate | exact Hascii | cbn [length] in *; lia].
Qed.

(** What [json.load] reads from what [json.dump] wrote. *)
Lemma json_loads_dumps items :
  forallb (fun kv => is_ascii_text (fst kv) && is_ascii_text (snd kv)) items = true ->
  json_loads (json_dumps items) = Return (JObject (map string_member items)).
Proof.
  intros Hascii. destruct items as [|kv items]; [vm_compute; reflexivity|].
  change (json_dumps (kv :: items))
    with (String "{" (String LF (dump_members (kv :: items) +:+ String LF "}"))).
  unfold json_loads.
  set (text := String "{" (String LF (dump_members (kv :: items) +:+ String LF "}"))).
  assert (Hlen : (length (kv :: items) < String.length text)%nat).
  { unfold text. cbn [String.length]. rewrite str_length_app.
    pose proof (length_dump_members (kv :: items)). cbn [String.length]. lia. }
  pose proof (parse_members_dump (kv :: items) "" (String.length text)
                ltac:(discriminate) Hascii Hlen) as Hpm.
  destruct (dump_members_cons kv items) as [r Hr].
  destruct (skip_ws_member kv (r +:+ String LF "}")) as [y Hy].
  rewrite <- str_app_assoc, <- Hr in Hy.
  assert (Hq : dquote = Ascii false true false false false true false false) by reflexivity.
  rewrite Hq in Hy. rewrite Hy in Hpm.
  change (parse_value (Datatypes.S (String.length text)) (skip_ws text))
    with (match skip_ws (dump_members (kv :: items) +:+ String LF "}") with
          | String "}" r => Some (JObject [], r)
          | rest' =>
              match parse_members (String.length text) rest' with
              | Some (ms, r) => Some (JObject ms, r)
              | None => None
              end
          end).
  rewrite Hy. cbv beta iota. rewrite Hpm. reflexivity.
Qed.

Lemma ledger_of_members_strings (items : list (string * string)) (acc : gmap string string) :
  NoDup (items.*1) ->
  ledger_of_members (map string_member items) acc = Some (list_to_map items ∪ acc).
Proof.
  revert acc. induction items as [|[k v] items IH]; intros acc Hnd.
  - cbn [map ledger_of_members list_to_map foldr]. now rewrite (left_id_L ∅ (∪)).
  - cbn [fmap list_fmap fst] in Hnd. apply NoDup_cons in Hnd as [Hk Hnd].
    cbn [map string_member fst snd ledger_of_members]. rewrite (IH _ Hnd).
    f_equal. cbn [list_to_map foldr fst snd].
    rewrite <- insert_union_l. symmetry. apply insert_union_r.
    now apply not_elem_of_list_to_map_1.
Qed.

(** X13: what [save_progress] writes, [load_progress] reads back.  For a
    ledger of ASCII keys and values, whatever the order of its items, the
    text that [json.dump] writes is read by [load_progress] without an
    exception as an object of strings that holds exactly the items of the
    ledger. *)
Theorem saved_ledger_loads_back (items : list (string * string)) :
  NoDup (items.*1) ->
  forallb (fun kv => is_ascii_text (fst kv) && is_ascii_text (snd kv)) items = true ->
  exists v,
    load_progress (Some (json_dumps items)) = Return v
    /\ ledger_of v = Some (list_to_map items).
Proof.
  intros Hnd Hascii. exists (JObject (map string_member items)). split.
  - cbn [load_progress]. now apply json_loads_dumps.
  - cbn [ledger_of]. rewrite (ledger_of_members_strings _ _ Hnd).
    now rewrite (right_id_L ∅ (∪)).
Qed.

Lemma saved_ledger_loads_back_witness :
  exists v,
    load_progress
      (Some (json_dumps [("http://b.org/y\z", "failed"); ("http://a.org/x.zim", "completed")]))
    = Return v
    /\ ledger_of v
       = Some (list_to_map [("http://b.org/y\z", "failed"); ("http://a.org/x.zim", "completed")]).
Proof.
  apply saved_ledger_loads_back.
  - apply (bool_decide_unpack _). vm_compute. exact I.
  - vm_compute. reflexivity.
Defined.



(** [loaded_ledger] is what [load_progress] makes of the file: the empty
    ledger without a file, the ledger last dumped when its keys and values
    are ASCII, and an exception for a file that [open] has emptied. *)
Lemma loaded_ledger_reads_the_file :
  (exists v, load_progress None = Return v /\ ledger_of v = loaded_ledger NoFile)
  /\ (forall ledger : gmap string string,
        map_Forall (fun k v => is_ascii_text k = true /\ is_ascii_text v = true) ledger ->
        exists v,
          load_progress (Some (progress_file_text ledger)) = Return v
          /\ ledger_of v = loaded_ledger (Saved ledger))
  /\ (exists e, load_progress (Some "") = Raise e /\ loaded_ledger Damaged = None).
Proof.
  split; [exists (JObject []); split; reflexivity|]. split.
  - intros ledger Hascii.
    exists (JObject (map string_member (map_to_list ledger))). split.
    + cbn [load_progress]. unfold progress_file_text. apply json_loads_dumps.
      apply forallb_forall. intros [k v] Hin.
      apply list_elem_of_In, elem_of_map_to_list in Hin.
      cbn [fst snd]. apply andb_true_iff. exact (Hascii _ _ Hin).
    + cbn [ledger_of loaded_ledger].
      rewrite (ledger_of_members_strings _ _ (NoDup_fst_map_to_list _)).
      now rewrite (right_id_L ∅ (∪)), list_to_map_to_list.
  - eexists. split; [vm_compute; reflexivity | reflexivity].
Qed.

(** ** The ledger after a run *)

Lemma run_tasks_ledger E download_dir tasks w rs w' :
  run_tasks E download_dir tasks w = (rs, w') ->
  length rs = length tasks
  /\ (forall u, u ∉ tasks -> progress w' !! u = progress w !! u)
  /\ (forall u, u ∈ tasks ->
        progress w' !! u = Some "completed" \/ progress w' !! u = Some "failed").
Proof.
  revert w rs. induction tasks as [|url rest IH]; intros w rs; cbn [run_tasks].
  - intros [= <- <-]. split; [reflexivity|]. split; [reflexivity|].
    intros u Hu. inversion Hu.
  - destruct (download_file E url download_dir w) as [r w1] eqn:Hrun.
    destruct (run_tasks E download_dir rest w1) as [rs2 w2] eqn:Hrest.
    intros [= <- <-]. destruct (IH _ _ Hrest) as (Hlen & Hout & Hin).
    assert (Hw1 : exists status,
              (status = "completed" \/ status = "failed")
              /\ progress w1 = <[url := status]> (progress w)).
    { destruct (download_file_ledger _ _ _ _ _ _ Hrun) as [(_ & Hp & _)|(_ & Hp & _)];
        eauto. }
    destruct Hw1 as (status & Hstatus & Hp1).
    split; [cbn [length]; now rewrite Hlen|]. split.
    + intros u Hu. apply not_elem_of_cons in Hu as [Hne Hu].
      rewrite (Hout _ Hu), Hp1. now apply lookup_insert_ne.
    + intros u Hu. destruct (decide (u ∈ rest)) as [Hr|Hr]; [now apply Hin|].
      apply elem_of_cons in Hu as [->|Hu]; [|contradiction].
      rewrite (Hout _ Hr), Hp1, lookup_insert_eq.
      destruct Hstatus as [-> | ->]; auto.
Qed.

(** ** The tasks that [main] runs *)

Lemma requests_only_mono (l1 l2 : list string) ev :
  (forall u, u ∈ l1 -> u ∈ l2) -> requests_only l1 ev -> requests_only l2 ev.
Proof. intros Hsub. destruct ev; simpl; auto. Qed.

Lemma count_attempts_cons (ev : sched_ev) l :
  count_attempts (ev :: l)
  = match ev with
    | Attempt => Datatypes.S (count_attempts l)
    | Backoff _ => count_attempts l
    end.
Proof.
  unfold count_attempts. destruct ev.
  - now rewrite filter_cons_True by reflexivity.
  - now rewrite filter_cons_False by discriminate.
Qed.

Lemma requests_for_app url evs1 evs2 :
  requests_for url (evs1 ++ evs2) = (requests_for url evs1 + requests_for url evs2)%nat.
Proof. unfold requests_for. now rewrite List.filter_app, length_app. Qed.

(** In the events of a call for [url] the requests for [url] are all the
    requests, and there is none for another URL. *)
Lemma requests_for_call url evs :
  Forall (requests_only [url]) evs ->
  requests_for url evs = count_attempts (sched_of evs)
  /\ forall u, u <> url -> requests_for u evs = 0%nat.
Proof.
  unfold requests_for. induction evs as [|ev evs IH]; intros Hall; [split; reflexivity|].
  apply Forall_cons_1 in Hall as [Hev Hall]. destruct (IH Hall) as [Hown Hother].
  destruct ev as [u0 h k| | |]; cbn [List.filter is_request_for sched_of].
  - cbn [requests_only] in Hev. apply list_elem_of_singleton in Hev as ->.
    rewrite count_attempts_cons. split.
    + rewrite bool_decide_eq_true_2 by reflexivity. cbn [length]. now rewrite Hown.
    + intros u Hne. rewrite bool_decide_eq_false_2 by congruence. now apply Hother.
  - split; [exact Hown | exact Hother].
  - rewrite count_attempts_cons. split; [exact Hown | exact Hother].
  - split; [exact Hown | exact Hother].
Qed.

(** A call makes at most [RETRY_COUNT] requests, all for its URL, and at
    least one when the URL derives a file name. *)
Lemma download_file_request_count E url download_dir w r w' :
  download_file E url download_dir w = (r, w') ->
  exists evs,
    trace w' = trace w ++ evs
    /\ Forall (requests_only [url]) evs
    /\ (requests_for url evs <= RETRY_COUNT)%nat
    /\ (forall f, get_filename_from_url url = Return f -> (1 <= requests_for url evs)%nat)
    /\ (forall u, u <> url -> requests_for u evs = 0%nat).
Proof.
  intros Hrun.
  destruct (download_file_requests_url E url download_dir w r w' Hrun) as (evs & Ht & Hall).
  destruct (download_file_sched_shape _ _ _ _ _ _ Hrun)
    as (evs' & k & tail & Ht' & Hs & Htail & Hvalid).
  rewrite Ht in Ht'. apply app_inv_head in Ht'. subst evs'.
  destruct (requests_for_call url evs Hall) as [Hown Hother].
  exists evs. split; [exact Ht|]. split; [exact Hall|].
  rewrite Hown, Hs, count_attempts_app, count_attempts_backoff.
  split; [|split; [|exact Hother]].
  - destruct Htail as [[-> Hk]|[-> Hk]];
      [replace (count_attempts []) with 0%nat by reflexivity
      |replace (count_attempts [Attempt]) with 1%nat by reflexivity]; lia.
  - intros f Hf. destruct Htail as [[-> Hk]|[-> Hk]].
    + rewrite (Hvalid f Hf eq_refl). unfold RETRY_COUNT. lia.
    + replace (count_attempts [Attempt]) with 1%nat by reflexivity. lia.
Qed.

(** One result per task; every task whose URL derives a file name makes at
    least one request and no task more than [RETRY_COUNT]; there is no
    request for a URL that is not a task. *)
Lemma run_tasks_requests E download_dir tasks w :
  length (fst (run_tasks E download_dir tasks w)) = length tasks
  /\ exists evs,
       trace (snd (run_tasks E download_dir tasks w)) = trace w ++ evs
       /\ Forall (requests_only tasks) evs
       /\ (forall url, (requests_for url evs <= RETRY_COUNT * occurrences url tasks)%nat)
       /\ (forall url f, get_filename_from_url url = Return f ->
             (occurrences url tasks <= requests_for url evs)%nat).
Proof.
  revert w. induction tasks as [|url rest IH]; intros w; cbn [run_tasks].
  - split; [reflexivity|]. exists []. rewrite app_nil_r. split; [reflexivity|].
    split; [constructor|]. split; intros; cbn; lia.
  - destruct (download_file E url download_dir w) as [r w1] eqn:Hrun.
    specialize (IH w1).
    destruct (run_tasks E download_dir rest w1) as [rs w2]. cbn [fst snd length] in *.
    destruct IH as (Hlen & evs2 & Ht2 & HP2 & Hmax2 & Hmin2).
    split; [now rewrite Hlen|].
    destruct (download_file_request_count E url download_dir w r w1 Hrun)
      as (evs1 & Ht1 & HP1 & Hmax1 & Hmin1 & Hother1).
    exists (evs1 ++ evs2). rewrite Ht2, Ht1, app_assoc. split; [reflexivity|].
    split; [|split].
    + apply Forall_app. split.
      * eapply Forall_impl; [exact HP1|]. intros ev. apply requests_only_mono.
        intros u Hu. apply list_elem_of_singleton in Hu as ->. apply list_elem_of_here.
      * eapply Forall_impl; [exact HP2|]. intros ev. apply requests_only_mono.
        intros u Hu. now apply list_elem_of_further.
    + intros u. rewrite requests_for_app, occurrences_cons. specialize (Hmax2 u).
      destruct (decide (url = u)) as [->|Hne]; [lia|].
      rewrite (Hother1 u) by congruence. lia.
    + intros u f Hf. rewrite requests_for_app, occurrences_cons.
      specialize (Hmin2 u f Hf).
      destruct (decide (url = u)) as [->|Hne]; [|lia].
      specialize (Hmin1 f Hf). lia.
Qed.

(** C5: the pending list is the input list restricted to the URLs whose
    ledger entry is absent or [failed], in input order and with the
    multiplicity of the input; a URL recorded [completed] is not in it, and a
    URL recorded [failed] is in it as often as in the input.  The run calls
    [download_file] once for each element of that list and for no other URL:
    there is one result for each element; for every URL the requests of the
    run number at most [RETRY_COUNT] for each time it is pending, none when
    it is not pending, and at least one for each time it is pending when it
    derives a file name; and after the run every pending URL is recorded
    [completed] or [failed]. *)
Theorem remaining_urls_spec (urls : list string) (ledger : gmap string string) :
  (forall url, url ∈ remaining_urls urls ledger <-> url ∈ urls /\ pending ledger url)
  /\ sublist (remaining_urls urls ledger) urls
  /\ (forall url, occurrences url (remaining_urls urls ledger)
                  = if decide (pending ledger url) then occurrences url urls else 0%nat)
  /\ (forall url, ledger !! url = Some "completed" -> url ∉ remaining_urls urls ledger)
  /\ (forall url, ledger !! url = Some "failed" ->
        occurrences url (remaining_urls urls ledger) = occurrences url urls)
  /\ (forall E download_dir fs saved n tr,
        let w := mkWorld ledger fs saved n tr in
        length (fst (main_in_order E download_dir urls w))
        = length (remaining_urls urls ledger)
        /\ (exists evs,
              trace (snd (main_in_order E download_dir urls w)) = tr ++ evs
              /\ Forall (requests_only (remaining_urls urls ledger)) evs
              /\ (forall url,
                    (requests_for url evs
                     <= RETRY_COUNT * occurrences url (remaining_urls urls ledger))%nat)
              /\ (forall url f,
                    get_filename_from_url url = Return f ->
                    (occurrences url (remaining_urls urls ledger)
                     <= requests_for url evs)%nat)
              /\ (forall url, ledger !! url = Some "completed" ->
                    requests_for url evs = 0%nat)
              /\ (forall url f,
                    ledger !! url = Some "failed" ->
                    get_filename_from_url url = Return f ->
                    (occurrences url urls <= requests_for url evs)%nat))
        /\ (forall url,
              url ∈ remaining_urls urls ledger ->
              progress (snd (main_in_order E download_dir urls w)) !! url = Some "completed"
              \/ progress (snd (main_in_order E download_dir urls w)) !! url
                 = Some "failed")).
Proof.
  assert (Hmem : forall url,
    url ∈ remaining_urls urls ledger <-> url ∈ urls /\ pending ledger url).
  { intros url. unfold remaining_urls. rewrite list_elem_of_filter, pending_dom. tauto. }
  assert (Hdone : forall url,
    ledger !! url = Some "completed" -> occurrences url (remaining_urls urls ledger) = 0%nat).
  { intros url Hc. rewrite remaining_urls_occurrences.
    destruct (decide (pending ledger url)) as [[Hn|Hf]|]; [congruence | congruence | reflexivity]. }
  assert (Hfailed : forall url,
    ledger !! url = Some "failed" ->
    occurrences url (remaining_urls urls ledger) = occurrences url urls).
  { intros url Hf. rewrite remaining_urls_occurrences.
    destruct (decide (pending ledger url)) as [|Hn]; [reflexivity|].
    exfalso. apply Hn. right. exact Hf. }
  split; [exact Hmem|]. split; [apply sublist_filter|].
  split; [apply remaining_urls_occurrences|]. split; [|split; [exact Hfailed|]].
  - intros url Hc Hin. apply Hmem in Hin as [_ [Hn|Hf]]; congruence.
  - intros E download_dir fs saved n tr w. unfold main_in_order.
    change (progress w) with ledger.
    destruct (run_tasks_requests E download_dir (remaining_urls urls ledger) w)
      as (Hlen & evs & Ht & Hall & Hmax & Hmin).
    split; [exact Hlen|]. split.
    + exists evs. split; [exact Ht|]. split; [exact Hall|].
      split; [exact Hmax|]. split; [exact Hmin|]. split.
      * intros url Hc. specialize (Hmax url). rewrite (Hdone url Hc) in Hmax. lia.
      * intros url f Hf Hname. rewrite <- (Hfailed url Hf). now apply (Hmin url f).
    + intros url Hin.
      destruct (run_tasks E download_dir (remaining_urls urls ledger) w) as [rs w'] eqn:Hrun.
      destruct (run_tasks_ledger _ _ _ _ _ _ Hrun) as (_ & _ & Hrec).
      now apply Hrec.
Qed.

Lemma remaining_urls_spec_witness :
  remaining_urls [example_url; "http://a.org/y.zim"; example_url]
    {[ "http://a.org/y.zim" := "completed"; example_url := "failed" ]}
  = [example_url; example_url]
  /\ length (fst (main_in_order E_down example_dir
                    [example_url; "http://a.org/y.zim"; example_url]
                    (mkWorld {[ "http://a.org/y.zim" := "completed"; example_url := "failed" ]}
                             ∅ NoFile 0 [])))
     = 2%nat
  /\ (2 <= requests_for example_url
             (trace (snd (main_in_order E_down example_dir
                            [example_url; "http://a.org/y.zim"; example_url]
                            (mkWorld {[ "http://a.org/y.zim" := "completed";
                                        example_url := "failed" ]}
                                     ∅ NoFile 0 []))))
      <= 6)%nat
  /\ requests_for "http://a.org/y.zim"
       (trace (snd (main_in_order E_down example_dir
                      [example_url; "http://a.org/y.zim"; example_url]
                      (mkWorld {[ "http://a.org/y.zim" := "completed";
                                  example_url := "failed" ]}
                               ∅ NoFile 0 []))))
     = 0%nat.
Proof.
  destruct (remaining_urls_spec [example_url; "http://a.org/y.zim"; example_url]
              {[ "http://a.org/y.zim" := "completed"; example_url := "failed" ]})
    as (_ & _ & _ & _ & _ & Hmain).
  destruct (Hmain E_down example_dir ∅ NoFile 0%nat [])
    as (Hlen & (evs & Ht & _ & Hmax & _ & Hdone & Hfailed) & _).
  cbn [app] in Ht. rewrite Ht.
  assert (Hrem : remaining_urls [example_url; "http://a.org/y.zim"; example_url]
                   {[ "http://a.org/y.zim" := "completed"; example_url := "failed" ]}
                 = [example_url; example_url]) by (vm_compute; reflexivity).
  split; [exact Hrem|]. split; [rewrite Hlen, Hrem; reflexivity|]. split; [split|].
  - apply (Hfailed example_url "x.zim"); [reflexivity | vm_compute; reflexivity].
  - specialize (Hmax example_url). rewrite Hrem in Hmax. exact Hmax.
  - apply Hdone. reflexivity.
Defined.

(** X15: a run accounts for every URL of the list.  Under the in-order
    schedule, whatever the servers and the disk do, the run gives one result
    for each pending URL; afterwards every URL of the list has an entry:
    [completed] or [failed] when it was pending, its old entry when it was
    not; and no entry of another URL is added or changed. *)
Theorem run_accounts_for_every_url E download_dir urls w rs w' :
  main_in_order E download_dir urls w = (rs, w') ->
  length rs = length (remaining_urls urls (progress w))
  /\ (forall u, u ∈ urls ->
        exists status,
          progress w' !! u = Some status
          /\ (pending (progress w) u -> status = "completed" \/ status = "failed")
          /\ (~ pending (progress w) u -> progress w !! u = Some status))
  /\ (forall u, u ∉ urls -> progress w' !! u = progress w !! u).
Proof.
  unfold main_in_order. intros Hrun.
  destruct (run_tasks_ledger _ _ _ _ _ _ Hrun) as (Hlen & Hout & Hin).
  assert (Hsel : forall u, u ∈ remaining_urls urls (progress w)
                           <-> u ∈ urls /\ pending (progress w) u).
  { intros u. unfold remaining_urls. rewrite list_elem_of_filter, pending_dom. tauto. }
  split; [exact Hlen|]. split.
  - intros u Hu.
    destruct (decide (u ∈ remaining_urls urls (progress w))) as [Hr|Hr].
    + destruct (Hin _ Hr) as [Hs|Hs]; eexists; (split; [exact Hs|]);
        (split; [auto|]); intros Hnot; destruct Hnot; now apply Hsel.
    + assert (Hnot : ~ pending (progress w) u) by (intros Hp; apply Hr, Hsel; auto).
      rewrite (Hout _ Hr).
      destruct (progress w !! u) as [status|] eqn:Hs; [|destruct Hnot; now left].
      exists status. split; [reflexivity|]. split; [intros Hp; contradiction | auto].
  - intros u Hu. apply Hout. intros Hr. apply Hsel in Hr as [Hr _]. contradiction.
Qed.

Lemma run_accounts_for_every_url_witness :
  length (fst (main_in_order E_down example_dir
                 [example_url; "http://a.org/y.zim"; example_url]
                 (mkWorld {[ "http://a.org/y.zim" := "completed" ]} ∅ NoFile 0 [])))
  = length (remaining_urls [example_url; "http://a.org/y.zim"; example_url]
              {[ "http://a.org/y.zim" := "completed" ]})
  /\ (forall u, u ∈ [example_url; "http://a.org/y.zim"; example_url] ->
        exists status,
          progress (snd (main_in_order E_down example_dir
                           [example_url; "http://a.org/y.zim"; example_url]
                           (mkWorld {[ "http://a.org/y.zim" := "completed" ]} ∅ NoFile 0 [])))
            !! u = Some status
          /\ (pending {[ "http://a.org/y.zim" := "completed" ]} u ->
              status = "completed" \/ status = "failed")
          /\ (~ pending {[ "http://a.org/y.zim" := "completed" ]} u ->
              ({[ "http://a.org/y.zim" := "completed" ]} : gmap string string) !! u
              = Some status))
  /\ (forall u, u ∉ [example_url; "http://a.org/y.zim"; example_url] ->
        progress (snd (main_in_order E_down example_dir
                         [example_url; "http://a.org/y.zim"; example_url]
                         (mkWorld {[ "http://a.org/y.zim" := "completed" ]} ∅ NoFile 0 [])))
          !! u
        = ({[ "http://a.org/y.zim" := "completed" ]} : gmap string string) !! u).
Proof.
  exact (run_accounts_for_every_url E_down example_dir
           [example_url; "http://a.org/y.zim"; example_url]
           (mkWorld {[ "http://a.org/y.zim" := "completed" ]} ∅ NoFile 0 []) _ _
           (surjective_pairing _)).
Defined.

(** ** A local error in an attempt *)

(** X16: a [Content-Length] header that [int] rejects is a local error, not
    a failed attempt.  After [k] failed attempts with their pauses, an
    attempt whose response carries such a header opens no file, whatever
    body and status of the stream follow, and is not retried: the call makes
    no further request and no further pause, records the URL [failed] and,
    unless the write of the ledger fails, returns the URL (not the file
    name) with the text of the [ValueError]. *)
Theorem malformed_content_length_is_not_retried
    E url download_dir filename w k text chunks ending :
  get_filename_from_url url = Return filename ->
  disk_ok E ->
  (k < RETRY_COUNT)%nat ->
  let pl := transfer_plan (progress w) (files w) url (path_join download_dir filename) in
  (forall a, (a < k)%nat -> attempt_fails (http_get E url (p_headers pl) a)) ->
  http_get E url (p_headers pl) k = Streaming (BadContentLength text) chunks ending ->
  exists r w' evs1 size evs2,
    download_file E url download_dir w = (r, w')
    /\ trace w' = trace w ++ evs1 ++ EvGet url (p_headers pl) size :: evs2
    /\ sched_of evs1 = backoff_schedule 0 k
    /\ (evs2 = [] \/ evs2 = [EvSave (progress w')])
    /\ progress w' = <[url := "failed"]> (progress w)
    /\ (save_error E (saves w) = None ->
        persisted w' = Saved (progress w')
        /\ exists msg,
             content_length_int (BadContentLength text) = Raise (ValueError msg)
             /\ r = Return (url, Some msg)).
Proof.
  intros Hname Hdisk Hk pl Hfail Hresp.
  rewrite (download_file_valid_url _ _ _ _ _ Hname). fold pl.
  set (filepath := path_join download_dir filename).
  destruct (retry_loop_failing_prefix E url filename filepath pl k Hdisk 0%nat w)
    as (w1 & evs1 & Hloop & Ht1 & Hs1 & Hp1 & Hd1 & Hn1).
  { intros a Ha. apply Hfail. lia. }
  unfold try_except, bind.
  replace (seq 0 RETRY_COUNT)
    with (seq 0 k ++ k :: seq (Datatypes.S k) (RETRY_COUNT - Datatypes.S k)).
  2:{ replace RETRY_COUNT with (k + Datatypes.S (RETRY_COUNT - Datatypes.S k))%nat at 2 by lia.
      rewrite seq_app. reflexivity. }
  rewrite Hloop. cbn [retry_loop]. unfold bind at 1, try_except, bind at 1.
  unfold attempt_body. unfold bind at 1. unfold get_world.
  unfold bind at 1. unfold emit at 1. rewrite Hresp.
  unfold bind at 1. unfold lift. cbn [content_length_int is_request_exception].
  rewrite on_error_run. cbn [saves progress files persisted trace]. rewrite Hn1, Hp1.
  destruct (save_error E (saves w)) as [msg|] eqn:Hsave.
  - eexists _, _, evs1, _, []. split; [reflexivity|]. cbn [trace progress].
    rewrite Ht1, <- app_assoc. split; [reflexivity|]. split; [exact Hs1|].
    split; [now left|]. split; [reflexivity | discriminate].
  - eexists _, _, evs1, _, [_]. split; [reflexivity|]. cbn [trace progress persisted].
    rewrite Ht1, <- !app_assoc. split; [reflexivity|]. split; [exact Hs1|].
    split; [now right|]. split; [reflexivity|]. intros _.
    split; [reflexivity|]. eexists. split; reflexivity.
Qed.

Lemma malformed_content_length_is_not_retried_witness :
  exists r w' evs1 size evs2,
    download_file
      (mkEnv (fun _ _ attempt =>
                match attempt with
                | O => ConnectionFailed "refused"
                | _ => Streaming (BadContentLength "12 bytes") ["abc"] EndOfBody
                end)
             no_open_error no_write_error no_save_error fails_in_open)
      example_url example_dir w_fresh
    = (r, w')
    /\ trace w' = [] ++ evs1 ++ EvGet example_url ∅ size :: evs2
    /\ sched_of evs1 = backoff_schedule 0 1
    /\ (evs2 = [] \/ evs2 = [EvSave (progress w')])
    /\ progress w' = <[example_url := "failed"]> ∅
    /\ (@None string = None ->
        persisted w' = Saved (progress w')
        /\ exists msg,
             content_length_int (BadContentLength "12 bytes") = Raise (ValueError msg)
             /\ r = Return (example_url, Some msg)).
Proof.
  refine (malformed_content_length_is_not_retried
            (mkEnv (fun _ _ attempt =>
                      match attempt with
                      | O => ConnectionFailed "refused"
                      | _ => Streaming (BadContentLength "12 bytes") ["abc"] EndOfBody
                      end)
                   no_open_error no_write_error no_save_error fails_in_open)
            example_url example_dir "x.zim" w_fresh 1 "12 bytes" ["abc"] EndOfBody
            _ _ _ _ _).
  - vm_compute. reflexivity.
  - split; reflexivity.
  - unfold RETRY_COUNT. lia.
  - intros a Ha. assert (a = 0%nat) as -> by lia. exact I.
  - reflexivity.
Defined.

(** ** The characters of the progress file *)

Lemma hex_is_file_char c : is_hex_char c = true -> is_file_char c = true.
Proof.
  unfold is_hex_char, is_digit, is_file_char. intros H.
  apply orb_true_iff. left. apply andb_true_iff. rewrite !Z.leb_le.
  apply orb_true_iff in H as [H|H]; apply andb_true_iff in H; rewrite !Z.leb_le in H; lia.
Qed.

Lemma chr_code cp : 0 <= cp < 256 -> ascii_code (chr cp) = cp.
Proof.
  intros H. unfold ascii_code, chr. rewrite N_ascii_embedding by lia. lia.
Qed.

Lemma u_escape_file cp : str_forallb is_file_char (u_escape cp) = true.
Proof.
  unfold u_escape, hex4. cbn [str_forallb].
  rewrite !(hex_is_file_char _ (hex_digit_is_hex _)). reflexivity.
Qed.

Lemma escape_code_point_file cp : str_forallb is_file_char (escape_code_point cp) = true.
Proof.
  unfold escape_code_point.
  do 7 (match goal with
        | |- context [if ?b then _ else _] => destruct b; [vm_compute; reflexivity|]
        end).
  destruct ((32 <=? cp) && (cp <=? 126)) eqn:Hp.
  - cbn [str_forallb]. unfold is_file_char.
    apply andb_true_iff in Hp as Hp'. rewrite !Z.leb_le in Hp'.
    rewrite chr_code by lia. now rewrite Hp.
  - destruct (cp <? 65536); [apply u_escape_file|].
    now rewrite str_forallb_app, !u_escape_file.
Qed.

Lemma escape_string_file s : str_forallb is_file_char (escape_string s) = true.
Proof.
  remember (String.length s) as n eqn:Hn.
  assert (Hle : (String.length s <= n)%nat) by lia. clear Hn.
  revert s Hle. induction n as [|n IH]; intros s Hle.
  - destruct s; [reflexivity | simpl in Hle; lia].
  - destruct s as [|c rest]; [reflexivity|]. cbn [escape_string].
    repeat match goal with
           | |- context [if ?b then _ else _] => destruct b
           | |- context [match ?r with EmptyString => _ | String _ _ => _ end] =>
               is_var r; destruct r
           end;
      rewrite str_forallb_app, ?escape_code_point_file, ?u_escape_file;
      apply IH; cbn [String.length] in *; lia.
Qed.

Lemma quoted_file s : str_forallb is_file_char (quoted s) = true.
Proof.
  unfold quoted. cbn [str_forallb]. now rewrite str_forallb_app, escape_string_file.
Qed.

Lemma dump_members_file items : str_forallb is_file_char (dump_members items) = true.
Proof.
  assert (Hm : forall kv, str_forallb is_file_char (dump_member kv) = true).
  { intros kv. unfold dump_member. now rewrite !str_forallb_app, !quoted_file. }
  induction items as [|kv items IH]; [reflexivity|].
  destruct items as [|kv2 items]; [apply Hm|].
  change (dump_members (kv :: kv2 :: items))
    with (dump_member kv +:+ String "," (String LF (dump_members (kv2 :: items)))).
  rewrite str_forallb_app, Hm. cbn [str_forallb]. now rewrite IH.
Qed.

(** X17: whatever the keys and the values of the ledger, bytes outside
    ASCII included, the text that [save_progress] writes consists of
    printable ASCII characters and line feeds only: [json.dump] escapes
    every other character.  The progress file therefore reads the same
    under every encoding that extends ASCII. *)
Theorem progress_file_is_printable_ascii (progress : gmap string string) :
  str_forallb is_file_char (progress_file_text progress) = true.
Proof.
  unfold progress_file_text, json_dumps.
  destruct (map_to_list progress) as [|kv items]; [reflexivity|].
  cbn [str_forallb]. now rewrite str_forallb_app, dump_members_file.
Qed.
